(** * A shallow embedding of the neps / comprehensive_nas search-space core

    The modelled sources are
    - [comprehensive_nas/search_spaces/graph_grammar/cfg.py]
      (the [choice] helper, [Grammar] sampling and tree-string surgery),
    - [comprehensive_nas/search_spaces/numerical/float.py]
      ([FloatHyperparameter]),
    - [neps/search_spaces/numerical/categorical.py] ([CategoricalParameter]),
    - [neps/search_spaces/search_space.py] ([SearchSpace]).

    Python exceptions are the constructors of [exn]; a computation that may
    raise lives in the error monad [res].  Random draws are read from
    generator streams indexed by a draw counter that the code threads
    through, so that a generator state is a plain number. *)

From Stdlib Require Import String Ascii.
From Stdlib Require Import List ZArith QArith Qround Lia Bool.
From Stdlib Require Import PrimFloat Uint63 Lqa Qpower Qabs.
From Stdlib Require SpecFloat FloatOps.
Import ListNotations.

Open Scope list_scope.

(** ** Python exceptions and the error monad *)

Inductive exn :=
| ValueError
| IndexError
| TypeError
| KeyError
| ZeroDivisionError
| NotImplementedError
| PyException          (** a bare [raise Exception(...)] *)
| OutOfFuel.           (** recursion limit / loop that did not finish *)

Inductive res (A : Type) : Type :=
| Ok (a : A)
| Err (e : exn).
Arguments Ok {A} a.
Arguments Err {A} e.

Definition bind {A B} (m : res A) (k : A -> res B) : res B :=
  match m with
  | Ok a => k a
  | Err e => Err e
  end.

Notation "x <- m ;; k" := (bind m (fun x => k))
  (at level 61, m at next level, right associativity).
Notation "' p <- m ;; k" := (bind m (fun x => match x with p => k end))
  (at level 61, p pattern, m at next level, right associativity).

(** Python's [l[k]] on a list, with negative indices counted from the end. *)
Definition py_index {A} (l : list A) (k : Z) : res A :=
  let n := Z.of_nat (length l) in
  if ((0 <=? k) && (k <? n))%Z then
    match nth_error l (Z.to_nat k) with Some a => Ok a | None => Err IndexError end
  else if ((- n <=? k) && (k <? 0))%Z then
    match nth_error l (Z.to_nat (n + k)%Z) with Some a => Ok a | None => Err IndexError end
  else Err IndexError.

(** ** Python numbers

    The arithmetic used by the modelled code ([+], [-], [*], [/], [<], [==]
    and [int -> float]) is an interface with two instances: binary64
    floats (as Python computes) and exact rationals. *)

Class PyNum (T : Type) := {
  n0 : T;
  n1 : T;
  nadd : T -> T -> T;
  nsub : T -> T -> T;
  nmul : T -> T -> T;
  nquot : T -> T -> T;       (** the quotient, divisor known non-zero *)
  nlt : T -> T -> bool;
  neqb : T -> T -> bool;
  nof_nat : nat -> T
}.

(** Python's [a / b]: raises [ZeroDivisionError] when [b == 0]. *)
Definition py_div {T} `{PyNum T} (a b : T) : res T :=
  if neqb b n0 then Err ZeroDivisionError else Ok (nquot a b).

#[export] Instance PyNum_float : PyNum float := {
  n0 := 0%float;
  n1 := 1%float;
  nadd := PrimFloat.add;
  nsub := PrimFloat.sub;
  nmul := PrimFloat.mul;
  nquot := PrimFloat.div;
  nlt := PrimFloat.ltb;
  neqb := PrimFloat.eqb;
  nof_nat n := PrimFloat.of_uint63 (Uint63.of_Z (Z.of_nat n))
}.

Definition Qltb (a b : Q) : bool := negb (Qle_bool b a).

#[export] Instance PyNum_Q : PyNum Q := {
  n0 := 0%Q;
  n1 := 1%Q;
  nadd := Qplus;
  nsub := Qminus;
  nmul := Qmult;
  nquot := Qdiv;
  nlt := Qltb;
  neqb := Qeq_bool;
  nof_nat n := inject_Z (Z.of_nat n)
}.

(** ** [choice] (cfg.py)

<<
def choice(options, probs=None):
    x = np.random.rand()
    if probs is None:
        num = len(options)
        probs = [1 / num] * num
    cum = 0
    choice = -1
    for i, p in enumerate(probs):
        cum += p
        if x < cum:
            choice = i
            break
    return options[choice]
>>
    The draw [x] is passed in by the caller, which reads it from its
    generator. *)

Section Choice.
Context {T : Type} `{PyNum T}.

(** The [for] loop: the index it leaves in [choice]. *)
Fixpoint choice_loop (probs : list T) (x cum : T) (i : Z) : Z :=
  match probs with
  | [] => (-1)%Z
  | p :: ps =>
      let cum' := nadd cum p in
      if nlt x cum' then i else choice_loop ps x cum' (i + 1)%Z
  end.

Definition choice {A} (options : list A) (probs : option (list T)) (x : T) : res A :=
  probs <- match probs with
           | Some ps => Ok ps
           | None =>
               let num := length options in
               q <- py_div n1 (nof_nat num) ;;
               Ok (repeat q num)
           end ;;
  py_index options (choice_loop probs x n0 0%Z).

End Choice.

(** ** Python strings *)

Open Scope string_scope.

Fixpoint mapM {A B} (f : A -> res B) (l : list A) : res (list B) :=
  match l with
  | [] => Ok []
  | a :: l' => b <- f a ;; bs <- mapM f l' ;; Ok (b :: bs)
  end.

(** [s.split(" ")]: consecutive blanks give empty fields and the empty
    string gives [[""]]; [cur] is the field read so far. *)
Fixpoint split_aux (cur : string) (s : string) : list string :=
  match s with
  | EmptyString => [cur]
  | String c s' =>
      if Ascii.eqb c " "%char then cur :: split_aux EmptyString s'
      else split_aux (cur ++ String c EmptyString) s'
  end.

Definition py_split_space (s : string) : list string := split_aux EmptyString s.

(** [sep.join(l)] *)
Definition py_join (sep : string) (l : list string) : string := String.concat sep l.

(** [s[k:]] *)
Fixpoint str_drop (k : nat) (s : string) : string :=
  match k, s with
  | O, _ => s
  | S k', String _ s' => str_drop k' s'
  | S _, EmptyString => EmptyString
  end.

(** [s[:k]] *)
Fixpoint str_take (k : nat) (s : string) : string :=
  match k, s with
  | O, _ => EmptyString
  | S k', String c s' => String c (str_take k' s')
  | S _, EmptyString => EmptyString
  end.

(** ** [Grammar.remove_subtree] (cfg.py)

<<
split_tree = tree.split(" ")
pre_subtree = " ".join(split_tree[:index]) + " "
right = " ".join(split_tree[index + 1 :])
counter, current_index = 1, 0
for char in right:
    if char == "(":
        counter += 1
    elif char == ")":
        counter -= 1
    if counter == 0:
        break
    current_index += 1
post_subtree = right[current_index + 1 :]
removed = "".join(split_tree[index]) + " " + right[: current_index + 1]
return (pre_subtree, removed, post_subtree)
>> *)

(** The bracket-matching loop: the final [current_index]. *)
Fixpoint bracket_scan (s : string) (counter : Z) (current_index : nat) : nat :=
  match s with
  | EmptyString => current_index
  | String c s' =>
      let counter' :=
        if Ascii.eqb c "("%char then (counter + 1)%Z
        else if Ascii.eqb c ")"%char then (counter - 1)%Z
        else counter in
      if (counter' =? 0)%Z then current_index
      else bracket_scan s' counter' (S current_index)
  end.

Definition remove_subtree (tree : string) (index : nat) : res (string * string * string) :=
  let split_tree := py_split_space tree in
  let pre_subtree := py_join " " (firstn index split_tree) ++ " " in
  let right := py_join " " (skipn (S index) split_tree) in
  let current_index := bracket_scan right 1 0 in
  let post_subtree := str_drop (S current_index) right in
  tok <- py_index split_tree (Z.of_nat index) ;;
  let removed := tok ++ " " ++ str_take (S current_index) right in
  Ok (pre_subtree, removed, post_subtree).

(** Number of opening minus closing brackets of a string. *)
Fixpoint paren_balance (s : string) : Z :=
  match s with
  | EmptyString => 0
  | String c s' =>
      ((if Ascii.eqb c "("%char then 1 else if Ascii.eqb c ")"%char then -1 else 0)
       + paren_balance s')%Z
  end.

(** ** [Grammar.rand_subtree] (cfg.py)

<<
split_tree = tree.split(" ")
swappable_indices = [
    i for i in range(0, len(split_tree))
    if split_tree[i][1:] in self.swappable_nonterminals
]
r = np.random.randint(1, len(swappable_indices))
chosen_non_terminal = split_tree[swappable_indices[r]][1:]
chosen_non_terminal_index = swappable_indices[r]
return chosen_non_terminal, chosen_non_terminal_index
>>
    [np.random.randint(low, high)] draws uniformly from [low, high) and
    raises [ValueError] when [low >= high]; [np_randint_outcomes] lists its
    equally likely results, and [rand_subtree] returns the equally likely
    results of the whole call. *)

Definition np_randint_outcomes (low high : nat) : res (list nat) :=
  if Nat.ltb low high then Ok (seq low (high - low)) else Err ValueError.

(** [split_tree[i][1:]] *)
Definition head_sym (tok : string) : string := str_drop 1 tok.

Definition swappable_indices (swappable_nonterminals : list string)
    (split_tree : list string) : list nat :=
  filter (fun i => existsb (String.eqb (head_sym (nth i split_tree EmptyString)))
                          swappable_nonterminals)
         (seq 0 (length split_tree)).

Definition rand_subtree_at (split_tree : list string) (idxs : list nat) (r : nat)
    : res (string * nat) :=
  i <- py_index idxs (Z.of_nat r) ;;
  tok <- py_index split_tree (Z.of_nat i) ;;
  Ok (head_sym tok, i).

Definition rand_subtree (swappable_nonterminals : list string) (tree : string)
    : res (list (string * nat)) :=
  let split_tree := py_split_space tree in
  let idxs := swappable_indices swappable_nonterminals split_tree in
  rs <- np_randint_outcomes 1 (length idxs) ;;
  mapM (rand_subtree_at split_tree idxs) rs.

(** ** Grammars (cfg.py, over nltk's CFG)

    A production has a left-hand nonterminal and a right-hand side of
    terminals (Python [str]) and [Nonterminal]s; [str(Nonterminal(s))] is
    [s].  [self.productions(lhs=symbol)] lists the productions of [symbol]
    in grammar order.  nltk compares productions by left- and right-hand
    side. *)

Inductive gsym :=
| Terminal (s : string)
| Nonterminal (s : string).

Record production := mkProduction { lhs : string; rhs : list gsym }.

Definition gsym_eq_dec (a b : gsym) : {a = b} + {a <> b}.
Proof. decide equality; apply string_dec. Defined.

Definition production_eq_dec (p q : production) : {p = q} + {p <> q}.
Proof. decide equality; [apply (list_eq_dec gsym_eq_dec)|apply string_dec]. Defined.

Definition productions (g : list production) (symbol : string) : list production :=
  filter (fun p => String.eqb (lhs p) symbol) g.

(** [[str(sym) for sym in production.rhs() if not isinstance(sym, str)]] *)
Definition nt_names (r : list gsym) : list string :=
  flat_map (fun sym => match sym with Terminal _ => [] | Nonterminal s => [s] end) r.

(** The sum of a list of rationals, used to state prefix sums. *)
Fixpoint qsum (l : list Q) : Q :=
  match l with [] => 0%Q | a :: l' => (a + qsum l')%Q end.

(** Python's [sum]: a left fold from 0. *)
Definition py_sum (l : list Q) : Q := fold_left Qplus l 0%Q.

(** ** [Grammar._convergent_sampler] (cfg.py)

<<
def _convergent_sampler(self, cfactor, symbol=None, pcount=defaultdict(int)):
    tree = "(" + str(symbol)
    depth, num_prod = 1, 1
    productions = self.productions(lhs=symbol)
    weights = []
    for prod in productions:
        if prod in pcount:
            weights.append(cfactor ** (pcount[prod]))
        else:
            weights.append(1.0)
    norm = sum(weights)
    probs = [weight / norm for weight in weights]
    production = choice(productions, probs)
    pcount[production] += 1
    depths = []
    for sym in production.rhs():
        if isinstance(sym, str):
            tree = tree + " " + sym
        else:
            recursion = self._convergent_sampler(symbol=sym, cfactor=cfactor, pcount=pcount)
            depths.append(recursion[1])
            num_prod += recursion[2]
            tree = tree + " " + recursion[0] + ")"
    if len(depths) > 0:
        depth = max(depths) + 1
    pcount[production] -= 1
    return tree, depth, num_prod
>>
    [pcount] is a dictionary from productions to integers: [None] for a
    production that is not a key.  Reading [pcount[p]] through the
    [defaultdict] yields 0 for a missing key.  The draw of [choice] is
    [rand pos], [pos] being the generator state. *)

Definition pcount := production -> option Z.

Definition pc_get (pc : pcount) (p : production) : Z :=
  match pc p with Some n => n | None => 0%Z end.

Definition pc_set (pc : pcount) (p : production) (n : Z) : pcount :=
  fun q => if production_eq_dec q p then Some n else pc q.

Record cstate := mkCState { cs_pcount : pcount; cs_pos : nat }.

Definition conv_weight (cfactor : Q) (pc : pcount) (prod : production) : Q :=
  match pc prod with
  | Some n => Qpower cfactor n
  | None => 1%Q
  end.

Section Grammar.
Variable g : list production.
Variable rand : nat -> Q.     (** the stream of [np.random.rand()] *)

(** The loop over [production.rhs()], [rec] being the recursive call. *)
Fixpoint conv_children (rec : string -> cstate -> res (string * nat * nat * cstate))
    (r : list gsym) (tree : string) (depths : list nat) (num_prod : nat) (st : cstate)
    : res (string * list nat * nat * cstate) :=
  match r with
  | [] => Ok (tree, depths, num_prod, st)
  | Terminal s :: rest => conv_children rec rest (tree ++ " " ++ s) depths num_prod st
  | Nonterminal s :: rest =>
      '(t, d, n, st') <- rec s st ;;
      conv_children rec rest (tree ++ " " ++ t ++ ")") (depths ++ [d])%list (num_prod + n)%nat st'
  end.

Fixpoint conv_sampler (fuel : nat) (cfactor : Q) (symbol : string) (st : cstate)
    {struct fuel} : res (string * nat * nat * cstate) :=
  match fuel with
  | O => Err OutOfFuel
  | S fuel' =>
      let tree := "(" ++ symbol in
      let prods := productions g symbol in
      let weights := map (conv_weight cfactor (cs_pcount st)) prods in
      let norm := py_sum weights in
      probs <- mapM (fun w => py_div w norm) weights ;;
      production <- choice prods (Some probs) (rand (cs_pos st)) ;;
      let pc1 := pc_set (cs_pcount st) production
                        (pc_get (cs_pcount st) production + 1)%Z in
      '(tree, depths, num_prod, st2) <-
        conv_children (fun s st => conv_sampler fuel' cfactor s st)
                      (rhs production) tree [] 1%nat (mkCState pc1 (S (cs_pos st))) ;;
      let depth := match depths with [] => 1%nat | _ => S (list_max depths) end in
      let pc2 := cs_pcount st2 in
      Ok (tree, depth, num_prod,
          mkCState (pc_set pc2 production (pc_get pc2 production - 1)%Z) (cs_pos st2))
  end.

(** The convergent sampler in the words of the spec (section 4.1): the
    usage count of a production is the number of times it was chosen on
    the root-to-node path [path]; a candidate weighs [cfactor ** count],
    weights are normalised by their sum and one production is drawn with
    [choice]. *)
Fixpoint conv_children_spec (rec : string -> nat -> res (string * nat * nat * nat))
    (r : list gsym) (tree : string) (depths : list nat) (num_prod : nat) (pos : nat)
    : res (string * list nat * nat * nat) :=
  match r with
  | [] => Ok (tree, depths, num_prod, pos)
  | Terminal s :: rest => conv_children_spec rec rest (tree ++ " " ++ s) depths num_prod pos
  | Nonterminal s :: rest =>
      '(t, d, n, pos') <- rec s pos ;;
      conv_children_spec rec rest (tree ++ " " ++ t ++ ")") (depths ++ [d])%list (num_prod + n)%nat pos'
  end.

Fixpoint conv_sampler_spec (fuel : nat) (cfactor : Q) (symbol : string)
    (path : list production) (pos : nat) {struct fuel} : res (string * nat * nat * nat) :=
  match fuel with
  | O => Err OutOfFuel
  | S fuel' =>
      let prods := productions g symbol in
      let weights :=
        map (fun p => Qpower cfactor (Z.of_nat (count_occ production_eq_dec path p))) prods in
      probs <- mapM (fun w => py_div w (py_sum weights)) weights ;;
      production <- choice prods (Some probs) (rand pos) ;;
      '(tree, depths, num_prod, pos2) <-
        conv_children_spec
          (fun s pos => conv_sampler_spec fuel' cfactor s (production :: path) pos)
          (rhs production) ("(" ++ symbol) [] 1%nat (S pos) ;;
      Ok (tree, match depths with [] => 1%nat | _ => S (list_max depths) end, num_prod, pos2)
  end.

(** ** [Grammar._depth_constrained_sampler] (cfg.py)

<<
def _depth_constrained_sampler(self, symbol=None, depth_information: dict = None):
    if depth_information is None:
        depth_information = {}
    tree = "(" + str(symbol)
    lhs = str(symbol)
    if lhs in depth_information.keys():
        depth_information[lhs] += 1
    else:
        depth_information[lhs] = 1
    if (lhs in self.depth_constraints.keys()
        and depth_information[lhs] > self.depth_constraints[lhs]):
        productions = [production for production in self.productions(lhs=symbol)
            if lhs not in [str(sym) for sym in production.rhs() if not isinstance(sym, str)]]
    else:
        productions = self.productions(lhs=symbol)
    if len(productions) == 0:
        raise Exception("There can be no word sampled! ...")
    production = choice(productions)
    for sym in production.rhs():
        if isinstance(sym, str):
            tree = tree + " " + sym
        else:
            tree = tree + " " + self._depth_constrained_sampler(sym, depth_information) + ")"
    depth_information[lhs] -= 1
    return tree
>>
    [depth_information] and [self.depth_constraints] are dictionaries from
    nonterminal names to integers. *)

Variable depth_constraints : string -> option Z.

Definition dinfo := string -> option Z.

Definition di_set (di : dinfo) (k : string) (v : Z) : dinfo :=
  fun k' => if string_dec k' k then Some v else di k'.

Record dstate := mkDState { ds_info : dinfo; ds_pos : nat }.

(** [depth_information] after the entry into [lhs]. *)
Definition dc_enter (di : dinfo) (lhs : string) : dinfo :=
  match di lhs with
  | Some n => di_set di lhs (n + 1)%Z
  | None => di_set di lhs 1%Z
  end.

(** The guard [lhs in self.depth_constraints.keys() and
    depth_information[lhs] > self.depth_constraints[lhs]]. *)
Definition dc_over_bound (di : dinfo) (lhs : string) : bool :=
  match depth_constraints lhs, di lhs with
  | Some bound, Some n => Z.ltb bound n
  | Some _, None => false      (* unreachable: [lhs] was just entered *)
  | None, _ => false
  end.

Definition dc_candidates (di : dinfo) (symbol : string) : list production :=
  if dc_over_bound di symbol then
    filter (fun p => negb (existsb (String.eqb symbol) (nt_names (rhs p))))
           (productions g symbol)
  else productions g symbol.

Fixpoint dc_children (rec : string -> dstate -> res (string * dstate))
    (r : list gsym) (tree : string) (st : dstate) : res (string * dstate) :=
  match r with
  | [] => Ok (tree, st)
  | Terminal s :: rest => dc_children rec rest (tree ++ " " ++ s) st
  | Nonterminal s :: rest =>
      '(t, st') <- rec s st ;;
      dc_children rec rest (tree ++ " " ++ t ++ ")") st'
  end.

Fixpoint dc_sampler (fuel : nat) (symbol : string) (st : dstate) {struct fuel}
    : res (string * dstate) :=
  match fuel with
  | O => Err OutOfFuel
  | S fuel' =>
      let lhs := symbol in
      let di1 := dc_enter (ds_info st) lhs in
      match dc_candidates di1 symbol with
      | [] => Err PyException
      | prods =>
          production <- choice prods None (rand (ds_pos st)) ;;
          '(tree, st2) <-
            dc_children (fun s st => dc_sampler fuel' s st) (rhs production)
                        ("(" ++ symbol) (mkDState di1 (S (ds_pos st))) ;;
          match ds_info st2 lhs with
          | Some n => Ok (tree, mkDState (di_set (ds_info st2) lhs (n - 1)%Z) (ds_pos st2))
          | None => Err KeyError
          end
      end
  end.

End Grammar.

Close Scope string_scope.

(** ** Concrete inputs *)

Open Scope string_scope.

(** The example grammar of the spec: [S -> S '+' T | T], [T -> '1' | '2']. *)
Definition grammar_arith : list production :=
  [mkProduction "S" [Nonterminal "S"; Terminal "+"; Nonterminal "T"];
   mkProduction "S" [Nonterminal "T"];
   mkProduction "T" [Terminal "1"];
   mkProduction "T" [Terminal "2"]].

(** A generator stream for [np.random.rand()]. *)
Definition rand_example (n : nat) : Q :=
  match n with 0 => 1#10 | 1 => 3#10 | 2 => 9#10 | _ => 1#2 end%nat.

(** A fresh [defaultdict(int)] and a generator at position 0. *)
Definition cstate_fresh : cstate := mkCState (fun _ => None) 0.

Close Scope string_scope.

(** ** [SearchSpace.mutate] and [SearchSpace._smbo_mutation] (search_space.py)

<<
def mutate(self, config=None, patience=50, mutation_strategy="smbo"):
    if mutation_strategy == "smbo":
        new_config = self._smbo_mutation(patience)
    else:
        raise NotImplementedError("No such mutation strategy!")
    child = SearchSpace( **dict(zip(self.hyperparameters.keys(), new_config)))
    return child

def _smbo_mutation(self, patience=50):
    new_config = self.get_array()
    idx = random.randint(0, self._num_hps - 1)
    hp = new_config[idx]
    while patience > 0:
        try:
            new_config[idx] = hp.mutate()
            break
        except Exception:
            patience -= 1
            continue
    return new_config
>>
    A search space is its ordered dictionary [self.hyperparameters], a list
    of (name, parameter) pairs with distinct names. The parameters are of an
    abstract type [P]; [hp_mutate k hp] is the outcome of the [k]-th call of
    [hp.mutate()] (its randomness is the caller's), and [r] the result of
    [random.randint(0, self._num_hps - 1)], which raises [ValueError] on an
    empty space. *)

Section SearchSpaceMutate.
Context {P : Type}.

Open Scope string_scope.

(** The [while] loop, from [n = max(patience, 0)] remaining attempts and
    [k] calls made so far: the mutated parameter, if any, and the number of
    calls of [hp.mutate()]. *)
Fixpoint smbo_loop (hp_mutate : nat -> P -> res P) (hp : P) (n k : nat)
    : option P * nat :=
  match n with
  | O => (None, k)
  | S n' =>
      match hp_mutate k hp with
      | Ok c => (Some c, S k)
      | Err _ => smbo_loop hp_mutate hp n' (S k)
      end
  end.

Definition smbo_mutation (hp_mutate : nat -> P -> res P) (new_config : list P)
    (patience : Z) (r : nat) : res (list P * nat) :=
  if (length new_config =? 0)%nat then Err ValueError
  else
    hp <- py_index new_config (Z.of_nat r) ;;
    match smbo_loop hp_mutate hp (Z.to_nat patience) 0 with
    | (Some c, calls) => Ok (firstn r new_config ++ c :: skipn (S r) new_config, calls)%list
    | (None, calls) => Ok (new_config, calls)
    end.

Definition space_mutate (hp_mutate : nat -> P -> res P) (space : list (string * P))
    (patience : Z) (mutation_strategy : string) (r : nat)
    : res (list (string * P) * nat) :=
  if String.eqb mutation_strategy "smbo" then
    '(new_config, calls) <- smbo_mutation hp_mutate (map snd space) patience r ;;
    Ok (combine (map fst space) new_config, calls)
  else Err NotImplementedError.

End SearchSpaceMutate.

(** ** [SearchSpace.crossover] and [SearchSpace._simple_crossover] (search_space.py)

<<
def crossover(self, config2, crossover_probability_per_hyperparameter: float = 1.0,
              patience: int = 50, crossover_strategy: str = "simple"):
    if crossover_strategy == "simple":
        new_config1, new_config2 = self._simple_crossover(
            config2, crossover_probability_per_hyperparameter, patience)
    else:
        raise NotImplementedError("No such mutation strategy!")
    child1 = SearchSpace( **dict(zip(self.hyperparameters.keys(), new_config1)))
    child2 = SearchSpace( **dict(zip(self.hyperparameters.keys(), new_config2)))
    return child1, child2

def _simple_crossover(self, config2, crossover_probability_per_hyperparameter=1.0,
                      patience=50):
    new_config1 = []
    new_config2 = []
    for key, hyperparameter in self.hyperparameters.items():
        if (hasattr(hyperparameter, "crossover")
            and np.random.random() < crossover_probability_per_hyperparameter):
            while patience > 0:
                try:
                    child1, child2 = hyperparameter.crossover(
                        config2.hyperparameters[key])
                    new_config1.append(child1)
                    new_config2.append(child2)
                    break
                except NotImplementedError:
                    new_config1.append(hyperparameter)
                    new_config2.append(config2.hyperparameters[key])
                    break
                except Exception:
                    patience -= 1
                    continue
        else:
            new_config1.append(hyperparameter)
            new_config2.append(config2.hyperparameters[key])
    return new_config1, new_config2
>>
    What a call [hyperparameter.crossover(other)] does is one of: it returns
    a pair, it returns something else (as [CategoricalParameter.crossover],
    whose body is [pass], returns [None]; unpacking it raises [TypeError]),
    or it raises. *)

Inductive xresult (P : Type) :=
| XPair (c1 c2 : P)
| XOther
| XRaise (e : exn).
Arguments XPair {P} c1 c2.
Arguments XOther {P}.
Arguments XRaise {P} e.

Section SearchSpaceCrossover.
Context {P : Type}.
(** [hasattr(hyperparameter, "crossover")] *)
Variable has_crossover : P -> bool.
(** the [k]-th call of [hyperparameter.crossover(other)] *)
Variable hp_crossover : nat -> P -> P -> xresult P.
(** the draws of [np.random.random()] *)
Variable random : nat -> Q.

Open Scope string_scope.

(** [config2.hyperparameters[key]] *)
Fixpoint dict_lookup (key : string) (d : list (string * P)) : res P :=
  match d with
  | [] => Err KeyError
  | (k, v) :: d' => if String.eqb k key then Ok v else dict_lookup key d'
  end.

(** The [while patience > 0] loop of one parameter, [n = max(patience, 0)]:
    the pair to append (none when patience runs out), the patience left and
    the number of [crossover] calls made. *)
Fixpoint xo_loop (n : nat) (hp : P) (key : string) (config2 : list (string * P))
    (patience : Z) (k : nat) : option (P * P) * Z * nat :=
  match n with
  | O => (None, patience, k)
  | S n' =>
      match dict_lookup key config2 with
      | Err _ => xo_loop n' hp key config2 (patience - 1)%Z k
      | Ok other =>
          match hp_crossover k hp other with
          | XPair c1 c2 => (Some (c1, c2), patience, S k)
          | XRaise NotImplementedError => (Some (hp, other), patience, S k)
          | XOther | XRaise _ => xo_loop n' hp key config2 (patience - 1)%Z (S k)
          end
      end
  end.

(** The [for] loop, with [pos] the position in the generator and [k] the
    number of [crossover] calls made so far. *)
Fixpoint simple_crossover_loop (hps : list (string * P)) (config2 : list (string * P))
    (prob : Q) (patience : Z) (pos k : nat) (new1 new2 : list P)
    : res (list P * list P) :=
  match hps with
  | [] => Ok (new1, new2)
  | (key, hp) :: rest =>
      if has_crossover hp && Qltb (random pos) prob then
        match xo_loop (Z.to_nat patience) hp key config2 patience k with
        | (Some (c1, c2), patience', k') =>
            simple_crossover_loop rest config2 prob patience' (S pos) k'
                                  (new1 ++ [c1]) (new2 ++ [c2])
        | (None, patience', k') =>
            simple_crossover_loop rest config2 prob patience' (S pos) k' new1 new2
        end
      else
        other <- dict_lookup key config2 ;;
        simple_crossover_loop rest config2 prob patience
                              (if has_crossover hp then S pos else pos) k
                              (new1 ++ [hp]) (new2 ++ [other])
  end%list.

Definition simple_crossover (hps config2 : list (string * P)) (prob : Q) (patience : Z)
    : res (list P * list P) :=
  simple_crossover_loop hps config2 prob patience 0 0 [] [].

Definition space_crossover (hps config2 : list (string * P)) (prob : Q) (patience : Z)
    (crossover_strategy : string) : res (list (string * P) * list (string * P)) :=
  if String.eqb crossover_strategy "simple" then
    '(new_config1, new_config2) <- simple_crossover hps config2 prob patience ;;
    Ok (combine (map fst hps) new_config1, combine (map fst hps) new_config2)
  else Err NotImplementedError.

End SearchSpaceCrossover.

(** ** [CategoricalParameter] (neps, categorical.py)

<<
def __copy__(self):
    return self.__class__(choices=self.choices)

def sample(self):
    idx = np.random.choice(a=self.num_choices, replace=True, p=self.probabilities)
    self.value = self.choices[int(idx)]

def mutate(self, parent=None, mutation_rate: float = 1.0,
           mutation_strategy: str = "local_search"):
    if parent is None:
        parent = self
    if mutation_strategy == "simple":
        child = self.__copy__()
        child.sample()
    elif mutation_strategy == "local_search":
        child = self._get_neighbours(num_neighbours=1)[0]
    else:
        raise NotImplementedError
    if parent.value == child.value:
        raise ValueError("Parent is the same as child!")
    return child

def crossover(self, parent1, parent2=None):
    pass

def _get_neighbours(self, num_neighbours: int = 1):
    neighbours = []
    idx = 0
    choices = self.choices.copy()
    random.shuffle(choices)
    while len(neighbours) < num_neighbours:
        if num_neighbours > self.num_choices - 1:
            choice = self.choices[np.random.randint(0, self.num_choices)]
        else:
            choice = choices[idx]
            idx += 1
        if choice == self.value:
            continue
        neighbour = self.__copy__()
        neighbour.value = choice
        neighbours.append(neighbour)
    return neighbours
>>
    Choices are of a type [V] with Python's [==] as [veq]; a parameter with a
    sampled value is its choices and its value. The caller gives the
    outcomes of the generators: [idx] of [np.random.choice], [shuffled] the
    list [random.shuffle] leaves, [randint j] the [j]-th draw of
    [np.random.randint(0, num_choices)]. The parent is [self]
    ([parent=None]). *)

Section Categorical.
Context {V : Type}.
Variable veq : V -> V -> bool.

Record catparam := mkCat { choices : list V; value : V }.

Open Scope string_scope.

(** The [while] loop of [_get_neighbours(num_neighbours=1)]. *)
Fixpoint cat_neighbours_loop (fuel : nat) (self : catparam) (shuffled : list V)
    (randint : nat -> nat) (idx j : nat) : res (list catparam) :=
  match fuel with
  | O => Err OutOfFuel
  | S fuel' =>
      let num_choices := Z.of_nat (length (choices self)) in
      '(choice, idx', j') <-
        (if (num_choices - 1 <? 1)%Z then
           c <- py_index (choices self) (Z.of_nat (randint j)) ;; Ok (c, idx, S j)
         else
           c <- py_index shuffled (Z.of_nat idx) ;; Ok (c, S idx, j)) ;;
      if veq choice (value self) then
        cat_neighbours_loop fuel' self shuffled randint idx' j'
      else Ok [mkCat (choices self) choice]
  end.

Definition cat_mutate (fuel : nat) (self : catparam) (mutation_strategy : string)
    (idx : nat) (shuffled : list V) (randint : nat -> nat) : res catparam :=
  let parent := self in
  child <-
    (if String.eqb mutation_strategy "simple" then
       v <- py_index (choices self) (Z.of_nat idx) ;; Ok (mkCat (choices self) v)
     else if String.eqb mutation_strategy "local_search" then
       neighbours <- cat_neighbours_loop fuel self shuffled randint 0 0 ;;
       py_index neighbours 0
     else Err NotImplementedError) ;;
  if veq (value parent) (value child) then Err ValueError else Ok child.

End Categorical.

(** ** [FloatHyperparameter] (comprehensive_nas, float.py)

<<
def sample(self):
    if self.log:
        value = np.random.uniform(low=self._lower, high=self._upper)
        value = math.exp(value)
    else:
        value = np.random.uniform(low=self.lower, high=self.upper)
    self.value = min(self.upper, max(self.lower, value))
    self._id = np.random.random()

def mutate(self, parent=None, mutation_rate: float = 1.0,
           mutation_strategy: str = "local_search"):
    if parent is None:
        parent = self
    if mutation_strategy == "simple":
        child = self.__copy__()
        child.sample()
    elif mutation_strategy == "local_search":
        child = self._get_neighbours(num_neighbours=1)[0]
    else:
        raise NotImplementedError
    if parent.value == child.value:
        raise ValueError("Parent is the same as child!")
    return child

def _get_neighbours(self, std: float = 0.2, num_neighbours: int = 1):
    neighbours = []
    self._transform()
    while len(neighbours) < num_neighbours:
        n_val = np.random.normal(self.value, std)
        if n_val < 0 or n_val > 1:
            continue
        neighbour = self.__copy__()
        neighbour.value = n_val
        neighbour._inv_transform()
        neighbour._id = np.random.random()
        neighbours.append(neighbour)
    self._inv_transform()
    return neighbours

def _transform(self):
    if self.value != self.value:
        raise ValueError("Hp-{} value is NaN!".format(self.name))
    self.value = (self.value - self.lower) / (self.upper - self.lower)

def _inv_transform(self):
    if self.value != self.value:
        raise ValueError("Hp-{} value is NaN!".format(self.name))
    self.value = self.value * (self.upper - self.lower) + self.lower
>>
    Over any [PyNum]: binary64 floats as Python computes, or exact
    rationals. [_transform] and [_inv_transform] update [self.value] in
    place; the model returns the updated parameter. The caller gives the
    draws: [u] the value [sample] clamps (the uniform draw, or its [exp] on
    a log scale) and [normal m j] the [j]-th draw of
    [np.random.normal(m, 0.2)]. *)

Section FloatHp.
Context {T : Type} `{PyNum T}.

Record floathp := mkFloatHp { f_lower : T; f_upper : T; f_value : T }.

Definition with_value (h : floathp) (v : T) : floathp :=
  mkFloatHp (f_lower h) (f_upper h) v.

(** Python's [max(a, b)] and [min(a, b)]: the first argument unless the
    second is strictly larger (smaller). *)
Definition py_max (a b : T) : T := if nlt a b then b else a.
Definition py_min (a b : T) : T := if nlt b a then b else a.

Definition f_transform (self : floathp) : res floathp :=
  if negb (neqb (f_value self) (f_value self)) then Err ValueError
  else
    v <- py_div (nsub (f_value self) (f_lower self)) (nsub (f_upper self) (f_lower self)) ;;
    Ok (with_value self v).

Definition f_inv_transform (self : floathp) : res floathp :=
  if negb (neqb (f_value self) (f_value self)) then Err ValueError
  else Ok (with_value self (nadd (nmul (f_value self) (nsub (f_upper self) (f_lower self)))
                                 (f_lower self))).

Definition f_sample (self : floathp) (u : T) : floathp :=
  with_value self (py_min (f_upper self) (py_max (f_lower self) u)).

(** The [while] loop of [_get_neighbours(num_neighbours=1)], [self]
    transformed. *)
Fixpoint f_neighbours_loop (fuel : nat) (self : floathp) (normal : T -> nat -> T) (j : nat)
    : res (list floathp) :=
  match fuel with
  | O => Err OutOfFuel
  | S fuel' =>
      let n_val := normal (f_value self) j in
      if nlt n_val n0 || nlt n1 n_val then f_neighbours_loop fuel' self normal (S j)
      else
        neighbour <- f_inv_transform (with_value self n_val) ;;
        Ok [neighbour]
  end.

(** [_get_neighbours]: the neighbours and [self] as the call leaves it. *)
Definition f_get_neighbours (fuel : nat) (self : floathp) (normal : T -> nat -> T)
    : res (list floathp * floathp) :=
  self1 <- f_transform self ;;
  neighbours <- f_neighbours_loop fuel self1 normal 0 ;;
  self2 <- f_inv_transform self1 ;;
  Ok (neighbours, self2).

(** [mutate]: the child, and the parent ([self]) as the call leaves it. *)
Definition f_mutate (fuel : nat) (self : floathp) (mutation_strategy : string) (u : T)
    (normal : T -> nat -> T) : res (floathp * floathp) :=
  '(child, parent) <-
    (if String.eqb mutation_strategy "simple"%string then Ok (f_sample self u, self)
     else if String.eqb mutation_strategy "local_search"%string then
       '(neighbours, self') <- f_get_neighbours fuel self normal ;;
       child <- py_index neighbours 0 ;;
       Ok (child, self')
     else Err NotImplementedError) ;;
  if neqb (f_value parent) (f_value child) then Err ValueError else Ok (child, parent).

End FloatHp.

(** Python's float arithmetic as IEEE 754 binary64 computes it: each of
    [+], [-], [*] and [/] returns the exact result rounded by [fl]. For
    round-to-nearest binary64, as long as no result overflows, the rounding
    error is at most [u64 = 2^-53] relative to the exact result (normal
    range) or [eta64 = 2^-1075] absolute (subnormal range); the values
    themselves are exact rationals. *)
Definition PyNum_rounded (fl : Q -> Q) : PyNum Q := {|
  n0 := 0%Q;
  n1 := 1%Q;
  nadd a b := fl (a + b)%Q;
  nsub a b := fl (a - b)%Q;
  nmul a b := fl (a * b)%Q;
  nquot a b := fl (a / b)%Q;
  nlt := Qltb;
  neqb := Qeq_bool;
  nof_nat n := fl (inject_Z (Z.of_nat n))
|}.

Definition u64 : Q := 1 # 9007199254740992.

Definition eta64 : Q := Eval vm_compute in (1 # Pos.pow 2 1075).

(** [fl] rounds within binary64's error bound. *)
Definition binary64_rounding (fl : Q -> Q) : Prop :=
  forall x, (Qabs (fl x - x) <= u64 * Qabs x + eta64)%Q.

Open Scope string_scope.

(** ** [Grammar.__init__] and [Grammar.check_grammar] (cfg.py)

<<
def __init__(self, *args, **kwargs):
    super().__init__( *args, **kwargs)
    non_unique_nonterminals = [str(prod.lhs()) for prod in self.productions()]
    self.nonterminals = list(set(non_unique_nonterminals))
    self.terminals = list(
        {str(individual) for prod in self.productions() for individual in prod.rhs()}
        - set(self.nonterminals))
    self.swappable_nonterminals = list(
        {i for i in non_unique_nonterminals if non_unique_nonterminals.count(i) > 1})
    ...
    self.check_grammar()

def check_grammar(self):
    if len(set(self.terminals).intersection(set(self.nonterminals))) > 0:
        raise Exception(...)
    for nt in self.nonterminals:
        if len(self.productions(Nonterminal(nt))) == 0:
            raise Exception(f"There is no production for nonterminal {nt}")
>>
    [list(set(...))] has no specified order; the lists below are one order
    of the same elements, and only membership is used. *)

Definition str_mem (s : string) (l : list string) : bool := existsb (String.eqb s) l.

(** [str(individual)] for a right-hand-side symbol *)
Definition gsym_str (x : gsym) : string :=
  match x with Terminal s => s | Nonterminal s => s end.

Definition non_unique_nonterminals (g : list production) : list string := map lhs g.

Definition g_nonterminals (g : list production) : list string :=
  nodup string_dec (non_unique_nonterminals g).

Definition g_terminals (g : list production) : list string :=
  nodup string_dec
    (filter (fun s => negb (str_mem s (g_nonterminals g)))
            (flat_map (fun p => map gsym_str (rhs p)) g)).

Definition swappable_nonterminals (g : list production) : list string :=
  let nun := non_unique_nonterminals g in
  nodup string_dec (filter (fun i => Nat.ltb 1 (count_occ string_dec nun i)) nun).

Definition check_grammar (g : list production) : res unit :=
  if existsb (fun t => str_mem t (g_nonterminals g)) (g_terminals g) then Err PyException
  else if existsb (fun nt => Nat.eqb (length (productions g nt)) 0) (g_nonterminals g)
  then Err PyException
  else Ok tt.

(** ** [Grammar._sampler] (cfg.py)

<<
def _sampler(self, symbol=None):
    tree = "(" + str(symbol)
    productions = self.productions(lhs=symbol)
    production = choice(productions)
    for sym in production.rhs():
        if isinstance(sym, str):
            tree = tree + " " + sym
        else:
            tree = tree + " " + self._sampler(sym) + ")"
    return tree
>>
    The draw of [choice] is [rand pos]. *)

Section PlainSampler.
Variable g : list production.
Variable rand : nat -> Q.

Fixpoint plain_children (rec : string -> nat -> res (string * nat))
    (r : list gsym) (tree : string) (pos : nat) : res (string * nat) :=
  match r with
  | [] => Ok (tree, pos)
  | Terminal s :: rest => plain_children rec rest (tree ++ " " ++ s) pos
  | Nonterminal s :: rest =>
      '(t, pos') <- rec s pos ;;
      plain_children rec rest (tree ++ " " ++ t ++ ")") pos'
  end.

Fixpoint plain_sampler (fuel : nat) (symbol : string) (pos : nat) {struct fuel}
    : res (string * nat) :=
  match fuel with
  | O => Err OutOfFuel
  | S fuel' =>
      let tree := "(" ++ symbol in
      let prods := productions g symbol in
      production <- choice prods None (rand pos) ;;
      plain_children (fun s p => plain_sampler fuel' s p) (rhs production) tree (S pos)
  end.

End PlainSampler.

(** ** [Grammar.sampler] and the mode setters (cfg.py)

<<
def set_depth_constraints(self, depth_constraints):
    self.depth_constraints = depth_constraints
    self.depth_constrained = True
    self.convergent = False

def set_convergent(self):
    self.depth_constraints = None
    self.depth_constrained = False
    self.convergent = True

def set_unconstrained(self):
    self.depth_constraints = None
    self.depth_constrained = False
    self.convergent = False

def sampler(self, n=1, cfactor=0.1, depth_information: dict = None,
            start_symbol: str = None):
    if self.convergent and self.depth_constrained:
        raise Exception(f"Sample cannot be convergent and depth constrained")
    if start_symbol is None:
        start_symbol = self.start()
    else:
        start_symbol = Nonterminal(start_symbol)
    if self.convergent:
        return [f"{self._convergent_sampler(symbol=start_symbol, cfactor=cfactor)[0]})"
                for i in range(0, n)]
    elif self.depth_constrained:
        if self.depth_constraints is None:
            raise ValueError("Depth constraints are not set!")
        if depth_information is None:
            depth_information = {}
        return [f"{self._depth_constrained_sampler(symbol=start_symbol, depth_information=depth_information)})"
                for i in range(0, n)]
    else:
        return [f"{self._sampler(symbol=start_symbol)})" for i in range(0, n)]
>>
    [__init__] sets [convergent = False], [depth_constrained = False],
    [depth_constraints = None]. The start symbol is passed resolved. The
    convergent sampler's [pcount] is its default dictionary, shared by all
    calls; the depth information is shared by the [n] samples of a call. *)

Record gmode := mkGMode {
  gm_convergent : bool;
  gm_depth_constrained : bool;
  gm_depth_constraints : option (string -> option Z)
}.

Definition gmode_init : gmode := mkGMode false false None.

Definition set_depth_constraints (m : gmode) (dc : option (string -> option Z)) : gmode :=
  mkGMode false true dc.
Definition set_convergent (m : gmode) : gmode := mkGMode true false None.
Definition set_unconstrained (m : gmode) : gmode := mkGMode false false None.
Definition is_depth_constrained (m : gmode) : bool := gm_depth_constrained m.

Inductive mode_call :=
| CallSetDepthConstraints (dc : option (string -> option Z))
| CallSetConvergent
| CallSetUnconstrained.

Definition apply_mode_call (m : gmode) (c : mode_call) : gmode :=
  match c with
  | CallSetDepthConstraints dc => set_depth_constraints m dc
  | CallSetConvergent => set_convergent m
  | CallSetUnconstrained => set_unconstrained m
  end.

(** [[f(...) for i in range(0, n)]] with a state threaded through the calls. *)
Fixpoint sample_n {S : Type} (n : nat) (step : S -> res (string * S)) (s : S)
    : res (list string * S) :=
  match n with
  | O => Ok ([], s)
  | S n' =>
      '(t, s1) <- step s ;;
      '(ts, s2) <- sample_n n' step s1 ;;
      Ok ((t ++ ")") :: ts, s2)
  end.

Definition grammar_sampler (g : list production) (rand : nat -> Q) (m : gmode)
    (fuel n : nat) (cfactor : Q) (depth_information : option dinfo)
    (start_symbol : string) (pc : pcount) (pos : nat) : res (list string * pcount * nat) :=
  if gm_convergent m && gm_depth_constrained m then Err PyException
  else if gm_convergent m then
    '(ts, st) <- sample_n n (fun st => '(t, _, _, st') <- conv_sampler g rand fuel cfactor
                                                          start_symbol st ;; Ok (t, st'))
                          (mkCState pc pos) ;;
    Ok (ts, cs_pcount st, cs_pos st)
  else if gm_depth_constrained m then
    match gm_depth_constraints m with
    | None => Err ValueError
    | Some dcs =>
        let di := match depth_information with Some d => d | None => fun _ => None end in
        '(ts, st) <- sample_n n (fun st => dc_sampler g rand dcs fuel start_symbol st)
                              (mkDState di pos) ;;
        Ok (ts, pc, ds_pos st)
    end
  else
    '(ts, pos') <- sample_n n (fun p => plain_sampler g rand fuel start_symbol p) pos ;;
    Ok (ts, pc, pos').

(** ** [Grammar.generator], [_generate], [_generate_all], [_generate_one] (cfg.py)

<<
def generator(self, n=1, depth=5):
    sequences = []
    for sentence in self._generate(n=n, depth=depth):
        sequences.append(" ".join(sentence))
    return sequences

def _generate(self, start=None, depth=None, n=None):
    if not start:
        start = self.start()
    if depth is None:
        depth = sys.maxsize
    iter_prod = self._generate_all([start], depth)
    if n:
        iter_prod = itertools.islice(iter_prod, n)
    return iter_prod

def _generate_all(self, items, depth):
    if items:
        try:
            for frag1 in self._generate_one(items[0], depth):
                for frag2 in self._generate_all(items[1:], depth):
                    yield frag1 + frag2
        except RuntimeError as _error:
            ...
    else:
        yield []

def _generate_one(self, item, depth):
    if depth > 0:
        if isinstance(item, Nonterminal):
            for prod in self.productions(lhs=item):
                for frag in self._generate_all(prod.rhs(), depth - 1):
                    yield frag
        else:
            yield [item]
>>
    The generators are modelled by the lists of everything they yield, in
    order, for a finite [depth] (within Python's recursion limit, so the
    [except] branch is not taken); [islice(it, n)] keeps the first [n]. The
    start symbol is passed resolved. *)

Section Generate.
Variable g : list production.

Fixpoint generate_all_with (generate_one : gsym -> list (list string)) (items : list gsym)
    : list (list string) :=
  match items with
  | [] => [[]]
  | item :: items' =>
      flat_map (fun frag1 => map (fun frag2 => frag1 ++ frag2)
                                 (generate_all_with generate_one items'))
               (generate_one item)
  end%list.

Fixpoint generate_one (depth : nat) (item : gsym) : list (list string) :=
  match depth with
  | O => []
  | S depth' =>
      match item with
      | Nonterminal s =>
          flat_map (fun prod => generate_all_with (generate_one depth') (rhs prod))
                   (productions g s)
      | Terminal t => [[t]]
      end
  end.

Definition generate_all (items : list gsym) (depth : nat) : list (list string) :=
  generate_all_with (generate_one depth) items.

Definition generate (start : string) (depth : nat) (n : nat) : list (list string) :=
  let iter_prod := generate_all [Nonterminal start] depth in
  if Nat.eqb n 0 then iter_prod else firstn n iter_prod.

Definition generator (start : string) (n depth : nat) : list string :=
  map (py_join " ") (generate start depth n).

End Generate.

(** Derivability in the grammar, a tree of height at most [d] with a
    terminal leaf at height 1: the reference the generator is compared
    with. *)
Inductive derives (g : list production) : nat -> gsym -> list string -> Prop :=
| derives_terminal (d : nat) (t : string) : derives g (S d) (Terminal t) [t]
| derives_nonterminal (d : nat) (s : string) (p : production) (w : list string) :
    In p (productions g s) -> derives_seq g d (rhs p) w -> derives g (S d) (Nonterminal s) w
with derives_seq (g : list production) : nat -> list gsym -> list string -> Prop :=
| derives_seq_nil (d : nat) : derives_seq g d [] []
| derives_seq_cons (d : nat) (x : gsym) (xs : list gsym) (w1 w2 : list string) :
    derives g d x w1 -> derives_seq g d xs w2 -> derives_seq g d (x :: xs) (w1 ++ w2)%list.

(** ** [Grammar.compute_depth_information] and [rand_subtree_fixed_head] (cfg.py)

<<
def compute_depth_information(self, tree: str) -> list:
    split_tree = tree.split(" ")
    depth_information = [0] * len(split_tree)
    helper_dict = {nt: 0 for nt in self.nonterminals}
    q_nonterminals = deque()
    for i, split in enumerate(split_tree):
        if split == "":
            continue
        elif split[0] == "(":
            q_nonterminals.append(split[1:])
            depth_information[i] = helper_dict[split[1:]] + 1
            helper_dict[split[1:]] += 1
            continue
        while split[-1] == ")":
            nt = q_nonterminals.pop()
            helper_dict[nt] -= 1
            split = split[:-1]
    return depth_information

def rand_subtree_fixed_head(self, tree: str, head_node: str,
                            head_node_depth_constraint: int = 0) -> int:
    split_tree = tree.split(" ")
    if self.is_depth_constrained():
        depth_information = self.compute_depth_information(tree)
        swappable_indicies = [
            i for i in range(0, len(split_tree))
            if split_tree[i][1:] == head_node
            and depth_information[i] >= head_node_depth_constraint]
    else:
        swappable_indicies = [
            i for i in range(0, len(split_tree)) if split_tree[i][1:] == head_node]
    if len(swappable_indicies) == 0:
        return False
    else:
        r = (np.random.randint(1, len(swappable_indicies))
             if len(swappable_indicies) > 1 else 0)
        chosen_non_terminal_index = swappable_indicies[r]
        return chosen_non_terminal_index
>>
    The deque is a stack (head = right end). [helper_dict] is a [dinfo]
    whose keys are the nonterminals. *)

Definition helper_init (nonterminals : list string) : dinfo :=
  fun k => if str_mem k nonterminals then Some 0%Z else None.

(** [l[i] = v] for an index in range. *)
Definition list_set {A} (l : list A) (i : nat) (v : A) : list A :=
  (firstn i l ++ v :: skipn (S i) l)%list.

(** The [while split[-1] == ")"] loop, over the characters of [split] from
    the right. *)
Fixpoint close_loop (rs : list ascii) (q : list string) (helper : dinfo)
    : res (list string * dinfo) :=
  match rs with
  | [] => Err IndexError
  | c :: rs' =>
      if Ascii.eqb c ")"%char then
        match q with
        | [] => Err IndexError
        | nt :: q' =>
            match helper nt with
            | Some v => close_loop rs' q' (di_set helper nt (v - 1)%Z)
            | None => Err KeyError
            end
        end
      else Ok (q, helper)
  end.

Definition starts_with_open (s : string) : bool :=
  match s with String c _ => Ascii.eqb c "("%char | EmptyString => false end.

Fixpoint cdi_loop (toks : list string) (i : nat) (depth_information : list Z)
    (helper : dinfo) (q : list string) : res (list Z) :=
  match toks with
  | [] => Ok depth_information
  | split :: rest =>
      if String.eqb split "" then cdi_loop rest (S i) depth_information helper q
      else if starts_with_open split then
        let nt := str_drop 1 split in
        match helper nt with
        | Some v => cdi_loop rest (S i) (list_set depth_information i (v + 1)%Z)
                             (di_set helper nt (v + 1)%Z) (nt :: q)
        | None => Err KeyError
        end
      else
        '(q', helper') <- close_loop (rev (list_ascii_of_string split)) q helper ;;
        cdi_loop rest (S i) depth_information helper' q'
  end.

Definition compute_depth_information (nonterminals : list string) (tree : string)
    : res (list Z) :=
  let split_tree := py_split_space tree in
  cdi_loop split_tree 0 (repeat 0%Z (length split_tree)) (helper_init nonterminals) [].

(** What [rand_subtree_fixed_head] returns: [False] or an index. *)
Inductive fixed_head_result := FHFalse | FHIndex (i : nat).

Definition fixed_head_indices (split_tree : list string) (head_node : string)
    (depth_ok : nat -> bool) : list nat :=
  filter (fun i => String.eqb (head_sym (nth i split_tree EmptyString)) head_node
                   && depth_ok i)
         (seq 0 (length split_tree)).

(** The equally likely results of [rand_subtree_fixed_head]. *)
Definition rand_subtree_fixed_head (nonterminals : list string) (m : gmode)
    (tree head_node : string) (head_node_depth_constraint : Z)
    : res (list fixed_head_result) :=
  let split_tree := py_split_space tree in
  idxs <- (if is_depth_constrained m then
             depth_information <- compute_depth_information nonterminals tree ;;
             Ok (fixed_head_indices split_tree head_node
                   (fun i => Z.leb head_node_depth_constraint (nth i depth_information 0%Z)))
           else Ok (fixed_head_indices split_tree head_node (fun _ => true))) ;;
  if Nat.eqb (length idxs) 0 then Ok [FHFalse]
  else
    rs <- (if Nat.ltb 1 (length idxs) then np_randint_outcomes 1 (length idxs) else Ok [0%nat]) ;;
    mapM (fun r => i <- py_index idxs (Z.of_nat r) ;; Ok (FHIndex i)) rs.

(** ** [CategoricalParameter._transform] and [_inv_transform] (neps, categorical.py)

<<
def _transform(self):
    self.value = self.choices.index(self.value) / self.num_choices

def _inv_transform(self):
    self.value = self.choices[int(self.value * self.num_choices)]
>>
    [list.index] raises [ValueError] when the value is not a choice;
    [int(x)] truncates towards zero, raises [ValueError] on NaN and
    [OverflowError] on an infinity. *)

Class PyInt (T : Type) := py_int : T -> res Z.

#[export] Instance PyInt_Q : PyInt Q := fun q => Ok (Z.quot (Qnum q) (Zpos (Qden q))).

(** [int(x)] on a float, read off its sign, integer mantissa and exponent;
    [OverflowError] is reported as [PyException]. *)
#[export] Instance PyInt_float : PyInt float := fun x =>
  match FloatOps.Prim2SF x with
  | SpecFloat.S754_zero _ => Ok 0%Z
  | SpecFloat.S754_infinity _ => Err PyException
  | SpecFloat.S754_nan => Err ValueError
  | SpecFloat.S754_finite s m e =>
      let a := if (0 <=? e)%Z then Z.shiftl (Zpos m) e else Z.shiftr (Zpos m) (- e) in
      Ok (if s then (- a)%Z else a)
  end.

Section CategoricalTransform.
Context {V : Type}.
Variable veq : V -> V -> bool.
Context {T : Type} `{PyNum T} `{PyInt T}.

(** [self.choices.index(value)] *)
Fixpoint py_list_index (choices : list V) (v : V) : res nat :=
  match choices with
  | [] => Err ValueError
  | c :: cs => if veq c v then Ok 0%nat else i <- py_list_index cs v ;; Ok (S i)
  end.

Definition cat_transform (choices : list V) (value : V) : res T :=
  i <- py_list_index choices value ;;
  py_div (nof_nat i) (nof_nat (length choices)).

Definition cat_inv_transform (choices : list V) (value : T) : res V :=
  k <- py_int (nmul value (nof_nat (length choices))) ;;
  py_index choices k.

End CategoricalTransform.

Close Scope string_scope.

(** ** [Grammar.sampler_maxMin_func] and [compute_depth_information_for_pre] (cfg.py)

<<
def sampler_maxMin_func(self, symbol: str = None, largest: bool = True):
    tree = "(" + str(symbol)
    productions = self.productions(lhs=symbol)
    production = productions[-1 if largest else 0]
    for sym in production.rhs():
        if isinstance(sym, str):
            tree = tree + " " + sym
        else:
            tree = tree + " " + self.sampler_maxMin_func(sym, largest=largest) + ")"
    return tree

def compute_depth_information_for_pre(self, tree: str) -> dict:
    depth_information = {nt: 0 for nt in self.nonterminals}
    q_nonterminals = deque()
    for split in tree.split(" "):
        if split == "":
            continue
        elif split[0] == "(":
            q_nonterminals.append(split[1:])
            depth_information[split[1:]] += 1
            continue
        while split[-1] == ")":
            nt = q_nonterminals.pop()
            depth_information[nt] -= 1
            split = split[:-1]
    return depth_information
>>
    The recursion of [sampler_maxMin_func] is bounded by fuel. *)

Open Scope string_scope.

Section MaxMin.
Variable g : list production.

Fixpoint maxmin_children (rec : string -> res string) (r : list gsym) (tree : string)
    : res string :=
  match r with
  | [] => Ok tree
  | Terminal s :: rest => maxmin_children rec rest (tree ++ " " ++ s)
  | Nonterminal s :: rest =>
      t <- rec s ;;
      maxmin_children rec rest (tree ++ " " ++ t ++ ")")
  end.

Fixpoint sampler_maxMin_func (fuel : nat) (symbol : string) (largest : bool) {struct fuel}
    : res string :=
  match fuel with
  | O => Err OutOfFuel
  | S fuel' =>
      let tree := "(" ++ symbol in
      let prods := productions g symbol in
      production <- py_index prods (if largest then (-1)%Z else 0%Z) ;;
      maxmin_children (fun s => sampler_maxMin_func fuel' s largest) (rhs production) tree
  end.

End MaxMin.

(** The [for] loop of [compute_depth_information_for_pre]; its dictionary
    is a [dinfo] whose keys are the nonterminals. *)
Fixpoint cdip_loop (toks : list string) (depth_information : dinfo) (q : list string)
    : res dinfo :=
  match toks with
  | [] => Ok depth_information
  | split :: rest =>
      if String.eqb split "" then cdip_loop rest depth_information q
      else if starts_with_open split then
        let nt := str_drop 1 split in
        match depth_information nt with
        | Some v => cdip_loop rest (di_set depth_information nt (v + 1)%Z) (nt :: q)
        | None => Err KeyError
        end
      else
        '(q', di') <- close_loop (rev (list_ascii_of_string split)) q depth_information ;;
        cdip_loop rest di' q'
  end.

Definition compute_depth_information_for_pre (nonterminals : list string) (tree : string)
    : res dinfo :=
  cdip_loop (py_split_space tree) (helper_init nonterminals) [].

Close Scope string_scope.

Open Scope string_scope.

(** ** [SearchSpace.__init__], [add_constant_hyperparameter] and
    [_add_hyperparameter] (search_space.py)

<<
def __init__(self, **hyperparameters):
    self._num_hps = len(hyperparameters)
    self.hyperparameters = OrderedDict()
    ...
    for key, hyperparameter in hyperparameters.items():
        self.hyperparameters[key] = hyperparameter
        ...

def add_constant_hyperparameter(self, value=None):
    if value is not None:
        hp = ConstantParameter(value=value)
    else:
        raise NotImplementedError("Adding hps is supported only by value")
    self._add_hyperparameter(hp)

def _add_hyperparameter(self, hp=None):
    self.hyperparameters[str(self._num_hps)] = hp
    if isinstance(hp, NumericalParameter):
        self._hps.append(hp)
    else:
        self._graphs.append(hp)
    self._num_hps += 1
>>
    The space is its [_num_hps] and its ordered dictionary; the lists
    [_hps] and [_graphs] are left out (nothing here reads them). Keyword
    arguments have distinct names. [constant v] is
    [ConstantParameter(value=v)], and [None] is the absent value. *)

(** [str(n)] for a natural number: its decimal digits. *)
Fixpoint py_str_nat_aux (fuel n : nat) (acc : string) : string :=
  match fuel with
  | O => acc
  | S fuel' =>
      let acc' := String (ascii_of_nat (48 + n mod 10)) acc in
      if Nat.ltb n 10 then acc' else py_str_nat_aux fuel' (n / 10) acc'
  end.

Definition py_str_nat (n : nat) : string := py_str_nat_aux (S n) n EmptyString.

Section SearchSpaceAdd.
Context {P : Type}.

Record sspace := mkSpace { num_hps : nat; hyperparameters : list (string * P) }.

(** [od[k] = v] on an [OrderedDict]: an existing key keeps its place. *)
Fixpoint od_setitem (k : string) (v : P) (d : list (string * P)) : list (string * P) :=
  match d with
  | [] => [(k, v)]
  | (k', v') :: d' => if String.eqb k' k then (k, v) :: d' else (k', v') :: od_setitem k v d'
  end.

Definition search_space_init (kwargs : list (string * P)) : sspace :=
  mkSpace (length kwargs) (fold_left (fun d '(k, v) => od_setitem k v d) kwargs []).

Definition add_hyperparameter (self : sspace) (hp : P) : sspace :=
  mkSpace (S (num_hps self)) (od_setitem (py_str_nat (num_hps self)) hp (hyperparameters self)).

Definition add_constant_hyperparameter {A : Type} (constant : A -> P) (self : sspace)
    (value : option A) : res sspace :=
  match value with
  | Some v => Ok (add_hyperparameter self (constant v))
  | None => Err NotImplementedError
  end.

End SearchSpaceAdd.

Close Scope string_scope.

Open Scope string_scope.

(** ** [Grammar.sampler_restricted] (cfg.py)

<<
def sampler_restricted(self, n, max_length=5, cfactor=0.1, min_length=0):
    sequences_dict = {}
    sequences = [[]] * n
    i = 0
    while i < n:
        sample = self._convergent_sampler(symbol=self.start(), cfactor=cfactor)
        tree = sample[0] + ")"
        length = 0
        for t in self.terminals:
            length += tree.count(t + ")")
        if (length <= max_length) and (length >= min_length):
            if tree not in sequences_dict:
                sequences_dict[tree] = "true"
                sequences[i] = tree
                i += 1
    return sequences
>>
    [str.count] counts non-overlapping occurrences from the left (for the
    empty string, [len(s) + 1]). The keys of [sequences_dict] are a list;
    an entry of [sequences] is [None] while it still holds the placeholder
    [[]]. The [while] loop, which need not terminate, is bounded by
    [loop_fuel], the convergent sampler by [fuel]; the sampler shares its
    default [pcount] and the generator across the calls. *)

Fixpoint str_count_aux (fuel : nat) (sub s : string) : nat :=
  match fuel with
  | O => 0
  | S fuel' =>
      if String.prefix sub s then S (str_count_aux fuel' sub (str_drop (String.length sub) s))
      else match s with
           | EmptyString => 0
           | String _ s' => str_count_aux fuel' sub s'
           end
  end.

Definition py_str_count (sub s : string) : nat := str_count_aux (S (String.length s)) sub s.

Section SamplerRestricted.
Variable g : list production.
Variable rand : nat -> Q.
Variable start : string.   (** [self.start()] *)

Definition terminal_count (tree : string) : nat :=
  fold_left (fun length t => length + py_str_count (t ++ ")") tree)%nat (g_terminals g) 0%nat.

Fixpoint restricted_loop (loop_fuel fuel n : nat) (cfactor : Q) (max_length min_length : nat)
    (i : nat) (sequences_dict : list string) (sequences : list (option string)) (st : cstate)
    : res (list (option string) * cstate) :=
  match loop_fuel with
  | O => Err OutOfFuel
  | S loop_fuel' =>
      if Nat.ltb i n then
        '(t0, _, _, st') <- conv_sampler g rand fuel cfactor start st ;;
        let tree := t0 ++ ")" in
        let length := terminal_count tree in
        if Nat.leb length max_length && Nat.leb min_length length then
          if negb (str_mem tree sequences_dict) then
            restricted_loop loop_fuel' fuel n cfactor max_length min_length (S i)
              (sequences_dict ++ [tree]) (list_set sequences i (Some tree)) st'
          else restricted_loop loop_fuel' fuel n cfactor max_length min_length i
                 sequences_dict sequences st'
        else restricted_loop loop_fuel' fuel n cfactor max_length min_length i
               sequences_dict sequences st'
      else Ok (sequences, st)
  end.

Definition sampler_restricted (loop_fuel fuel n : nat) (max_length : nat) (cfactor : Q)
    (min_length : nat) (st : cstate) : res (list (option string) * cstate) :=
  restricted_loop loop_fuel fuel n cfactor max_length min_length 0 [] (repeat None n) st.

End SamplerRestricted.

Close Scope string_scope.

(** * Proofs *)

(** ** The [choice] helper *)

Section ChoiceProofs.
Context {T : Type} `{PyNum T}.

Lemma choice_loop_range (probs : list T) (x cum : T) (i : Z) :
  choice_loop probs x cum i = (-1)%Z \/
  (i <= choice_loop probs x cum i < i + Z.of_nat (length probs))%Z.
Proof.
  revert cum i; induction probs as [|p ps IH]; intros cum i; simpl.
  - left; reflexivity.
  - destruct (nlt x (nadd cum p)).
    + right; lia.
    + destruct (IH (nadd cum p) (i + 1)%Z) as [E|E]; [left; exact E|right; lia].
Qed.

Lemma py_index_in_range {A} (l : list A) (k : Z) :
  (0 <= k < Z.of_nat (length l))%Z ->
  exists a, py_index l k = Ok a /\ nth_error l (Z.to_nat k) = Some a.
Proof.
  intros Hk; unfold py_index.
  destruct (nth_error l (Z.to_nat k)) as [a|] eqn:E.
  - exists a; split; [|reflexivity].
    replace ((0 <=? k) && (k <? Z.of_nat (length l)))%Z with true
      by (symmetry; apply andb_true_intro; split; [apply Z.leb_le|apply Z.ltb_lt]; lia).
    reflexivity.
  - apply nth_error_None in E; lia.
Qed.

Lemma nth_pred_length_last {A} (l : list A) (d : A) :
  nth (Nat.pred (length l)) l d = last l d.
Proof.
  induction l as [|a l IH]; [reflexivity|].
  destruct l as [|b l]; [reflexivity|].
  simpl in *. exact IH.
Qed.

Lemma last_default_irrelevant {A} (l : list A) (d d' : A) :
  l <> [] -> last l d = last l d'.
Proof.
  intros Hl; induction l as [|a l IH]; [congruence|].
  destruct l as [|b l]; [reflexivity|].
  apply IH; discriminate.
Qed.

Lemma py_index_minus_one {A} (l : list A) (d : A) :
  l <> [] -> py_index l (-1)%Z = Ok (last l d).
Proof.
  intros Hl; unfold py_index.
  assert (Hlen : (1 <= Z.of_nat (length l))%Z)
    by (destruct l; [congruence|simpl; lia]).
  replace ((0 <=? -1) && (-1 <? Z.of_nat (length l)))%Z with false by reflexivity.
  replace ((- Z.of_nat (length l) <=? -1) && (-1 <? 0))%Z with true
    by (symmetry; apply andb_true_intro; split; [apply Z.leb_le|apply Z.ltb_lt]; lia).
  replace (Z.to_nat (Z.of_nat (length l) + -1)) with (Nat.pred (length l)) by lia.
  rewrite nth_error_nth' with (d := d) by (destruct l; [congruence|simpl; lia]).
  f_equal. apply nth_pred_length_last.
Qed.

End ChoiceProofs.

(** C10 *)
(** [choice] with a probability list of the options' length never raises
    and always returns one of the options, even when the probabilities sum
    to less than one: when the draw is not below any cumulative sum the
    loop leaves the index at [-1] and the last option is returned. *)
Theorem choice_total {T : Type} `{PyNum T} {A : Type}
    (options : list A) (probs : list T) (x : T) :
  options <> [] -> length probs = length options ->
  exists a, choice options (Some probs) x = Ok a /\ In a options /\
    (choice_loop probs x n0 0%Z = (-1)%Z -> a = last options a).
Proof.
  intros Hne Hlen. unfold choice; simpl.
  destruct (choice_loop_range probs x n0 0%Z) as [E|E].
  - destruct options as [|o os]; [congruence|].
    exists (last (o :: os) o). rewrite E.
    rewrite (py_index_minus_one (o :: os) o) by congruence.
    split; [reflexivity|split].
    + rewrite <- nth_pred_length_last. apply nth_In; simpl; lia.
    + intros _. apply last_default_irrelevant; congruence.
  - rewrite Hlen in E.
    destruct (py_index_in_range options _ E) as [a [Ha Hn]].
    exists a; split; [exact Ha|split].
    + eapply nth_error_In; exact Hn.
    + intros E'; rewrite E' in E; lia.
Qed.

(** C10 witness: probabilities summing to 0.9 and a draw above them. *)
Lemma choice_total_witness :
  choice [1%Z; 2%Z; 3%Z] (Some [3#10; 3#10; 3#10]%Q) (95#100)%Q = Ok 3%Z /\
  exists a, choice [1%Z; 2%Z; 3%Z] (Some [3#10; 3#10; 3#10]%Q) (95#100)%Q = Ok a /\
    In a [1%Z; 2%Z; 3%Z] /\
    (choice_loop [3#10; 3#10; 3#10]%Q (95#100)%Q n0 0%Z = (-1)%Z -> a = last [1%Z; 2%Z; 3%Z] a).
Proof.
  split; [reflexivity|].
  apply choice_total; [discriminate|reflexivity].
Defined.

(** ** Strings: split / join and the tree-string surgery *)

Section StringProofs.
Open Scope string_scope.

Lemma str_append_assoc (a b c : string) : (a ++ b) ++ c = a ++ (b ++ c).
Proof. induction a as [|ch a IH]; simpl; [reflexivity|now rewrite IH]. Qed.

Lemma str_append_empty_r (a : string) : a ++ "" = a.
Proof. induction a as [|ch a IH]; simpl; [reflexivity|now rewrite IH]. Qed.

Lemma split_aux_not_nil (cur s : string) : split_aux cur s <> [].
Proof.
  revert cur; induction s as [|c s IH]; intros cur; simpl; [discriminate|].
  destruct (Ascii.eqb c " "%char); [discriminate|apply IH].
Qed.

Lemma concat_cons (sep x : string) (l : list string) :
  l <> [] -> String.concat sep (x :: l) = x ++ sep ++ String.concat sep l.
Proof. destruct l; [congruence|reflexivity]. Qed.

(** [" ".join(s.split(" ")) == s] *)
Lemma join_split_aux (cur s : string) : py_join " " (split_aux cur s) = cur ++ s.
Proof.
  unfold py_join; revert cur; induction s as [|c s IH]; intros cur; simpl.
  - now rewrite str_append_empty_r.
  - destruct (Ascii.eqb c " "%char) eqn:Ec.
    + apply Ascii.eqb_eq in Ec; subst c.
      rewrite concat_cons by apply split_aux_not_nil.
      rewrite IH; reflexivity.
    + rewrite IH, str_append_assoc; reflexivity.
Qed.

Lemma join_split (s : string) : py_join " " (py_split_space s) = s.
Proof. apply join_split_aux. Qed.

Lemma concat_app (sep : string) (l1 l2 : list string) :
  l1 <> [] -> l2 <> [] ->
  String.concat sep (l1 ++ l2) = String.concat sep l1 ++ sep ++ String.concat sep l2.
Proof.
  intros H1 H2; induction l1 as [|x l1 IH]; [congruence|].
  destruct l1 as [|y l1].
  - simpl; apply concat_cons; exact H2.
  - change ((x :: y :: l1) ++ l2)%list with (x :: ((y :: l1) ++ l2)%list).
    rewrite (concat_cons sep x ((y :: l1) ++ l2)%list) by discriminate.
    rewrite IH by discriminate.
    rewrite (concat_cons sep x (y :: l1)) by discriminate.
    now rewrite !str_append_assoc.
Qed.

Lemma take_drop (n : nat) (s : string) : str_take n s ++ str_drop n s = s.
Proof.
  revert s; induction n as [|n IH]; intros s; [reflexivity|].
  destruct s as [|c s]; simpl; [reflexivity|now rewrite IH].
Qed.

Lemma str_take_S_String (n : nat) (ch : ascii) (s : string) :
  str_take (S n) (String ch s) = String ch (str_take n s).
Proof. reflexivity. Qed.

Lemma paren_balance_String (ch : ascii) (s : string) :
  paren_balance (String ch s) =
  ((if Ascii.eqb ch "("%char then 1 else if Ascii.eqb ch ")"%char then -1 else 0)
   + paren_balance s)%Z.
Proof. reflexivity. Qed.

(** The bracket counter of [remove_subtree]: it stops at the first
    position where the running count reaches zero. *)
Lemma bracket_scan_spec (s : string) (c : Z) (k : nat) :
  c <> 0%Z ->
  (k <= bracket_scan s c k)%nat /\
  ((bracket_scan s c k - k < String.length s)%nat ->
     (c + paren_balance (str_take (S (bracket_scan s c k - k)) s) = 0)%Z) /\
  (forall j, (j <= bracket_scan s c k - k)%nat -> (c + paren_balance (str_take j s) <> 0)%Z).
Proof.
  revert c k; induction s as [|ch s IH]; intros c k Hc; simpl.
  - split; [lia|split; [intros; lia|]].
    intros j Hj; replace j with 0%nat by lia; simpl; lia.
  - set (d := (if Ascii.eqb ch "("%char then 1 else if Ascii.eqb ch ")"%char then -1 else 0)%Z).
    assert (Hd : (if Ascii.eqb ch "("%char then (c + 1)%Z
                  else if Ascii.eqb ch ")"%char then (c - 1)%Z else c) = (c + d)%Z)
      by (subst d; destruct (Ascii.eqb ch "("%char); [|destruct (Ascii.eqb ch ")"%char)]; lia).
    rewrite Hd.
    destruct (Z.eqb_spec (c + d) 0) as [E|E]; cbv beta iota.
    + split; [lia|split].
      * intros _. rewrite Nat.sub_diag; simpl. fold d. lia.
      * intros j Hj; replace j with 0%nat by lia; simpl; lia.
    + destruct (IH (c + d)%Z (S k) E) as [H1 [H2 H3]].
      split; [lia|split].
      * intros Hlt; simpl in Hlt.
        replace (bracket_scan s (c + d) (S k) - k)%nat
          with (S (bracket_scan s (c + d) (S k) - S k)) by lia.
        specialize (H2 ltac:(lia)). lia.
      * intros [|j] Hj; [simpl; lia|].
        rewrite str_take_S_String, paren_balance_String; fold d.
        specialize (H3 j ltac:(lia)). lia.
Qed.

(** [split_tree] as prefix, token, suffix around a middle index. *)
Lemma join_around (l : list string) (idx : nat) (d : string) :
  (1 <= idx)%nat -> (idx + 1 < length l)%nat ->
  py_join " " l =
  py_join " " (firstn idx l) ++ " " ++ nth idx l d ++ " " ++ py_join " " (skipn (S idx) l).
Proof.
  intros H1 H2. unfold py_join.
  rewrite <- (firstn_skipn idx l) at 1.
  assert (Hs : skipn idx l = nth idx l d :: skipn (S idx) l).
  { clear H1. revert idx H2; induction l as [|a l IH]; intros idx H2; [simpl in H2; lia|].
    destruct idx as [|idx]; [reflexivity|]. simpl. apply IH. simpl in H2; lia. }
  rewrite Hs, concat_app.
  - rewrite concat_cons; [reflexivity|].
    intros E. apply (f_equal (@length string)) in E.
    rewrite length_skipn in E; simpl in E; lia.
  - intros E. apply (f_equal (@length string)) in E.
    rewrite length_firstn in E; simpl in E; lia.
  - discriminate.
Qed.

End StringProofs.

Section RemoveSubtree.
Open Scope string_scope.

(** At index 0, the root occurrence, the prefix is [" "] and the
    concatenation gains a leading blank. *)
Lemma remove_subtree_root_counterexample :
  exists pre removed post,
    remove_subtree "(S a)" 0 = Ok (pre, removed, post) /\
    pre = " " /\ removed = "(S a)" /\ post = "" /\
    pre ++ removed ++ post <> "(S a)".
Proof.
  exists " ", "(S a)", "". repeat split; try reflexivity; discriminate.
Qed.

(** For every index after the first token and before the last one (every
    non-root nonterminal occurrence of a well-formed tree), [remove_subtree]
    returns [(prefix, removed, suffix)] whose concatenation is the original
    tree string; [removed] is the token at the index, a blank, and the
    characters after it up to the first one at which the bracket counter
    started at 1 reaches 0. *)
Theorem remove_subtree_concat (tree : string) (index : nat) :
  (1 <= index)%nat -> (index + 1 < length (py_split_space tree))%nat ->
  let split_tree := py_split_space tree in
  let right := py_join " " (skipn (S index) split_tree) in
  let ci := bracket_scan right 1 0 in
  exists pre removed post,
    remove_subtree tree index = Ok (pre, removed, post) /\
    pre ++ removed ++ post = tree /\
    removed = nth index split_tree "" ++ " " ++ str_take (S ci) right /\
    ((ci < String.length right)%nat -> (1 + paren_balance (str_take (S ci) right) = 0)%Z) /\
    (forall j, (j <= ci)%nat -> (1 + paren_balance (str_take j right) <> 0)%Z).
Proof.
  intros H1 H2 split_tree right ci.
  destruct (bracket_scan_spec right 1 0 ltac:(lia)) as [_ [B1 B2]].
  rewrite Nat.sub_0_r in B1, B2. fold ci in B1, B2.
  destruct (py_index_in_range split_tree (Z.of_nat index) ltac:(unfold split_tree; lia))
    as [tok [Htok Hn]].
  rewrite Nat2Z.id in Hn.
  assert (Etok : tok = nth index split_tree "")
    by (symmetry; apply nth_error_nth; exact Hn).
  exists (py_join " " (firstn index split_tree) ++ " "),
         (tok ++ " " ++ str_take (S ci) right),
         (str_drop (S ci) right).
  split; [|split; [|split; [congruence|split; assumption]]].
  - unfold remove_subtree. fold split_tree. fold right. fold ci. rewrite Htok. reflexivity.
  - rewrite <- (join_split tree). fold split_tree.
    rewrite (join_around split_tree index "") by assumption.
    rewrite <- Etok. fold right.
    rewrite !str_append_assoc, take_drop. reflexivity.
Qed.

(** Witness: the example of the source comment, removing [(ADD +)]. *)
Lemma remove_subtree_concat_witness :
  remove_subtree "(S (S (T 2)) (ADD +) (T 1))" 4 =
    Ok ("(S (S (T 2)) ", "(ADD +)", " (T 1))") /\
  let tree := "(S (S (T 2)) (ADD +) (T 1))" in
  let split_tree := py_split_space tree in
  let right := py_join " " (skipn 5 split_tree) in
  let ci := bracket_scan right 1 0 in
  exists pre removed post,
    remove_subtree tree 4 = Ok (pre, removed, post) /\
    pre ++ removed ++ post = tree /\
    removed = nth 4 split_tree "" ++ " " ++ str_take (S ci) right /\
    ((ci < String.length right)%nat -> (1 + paren_balance (str_take (S ci) right) = 0)%Z) /\
    (forall j, (j <= ci)%nat -> (1 + paren_balance (str_take j right) <> 0)%Z).
Proof.
  split; [reflexivity|].
  apply (remove_subtree_concat "(S (S (T 2)) (ADD +) (T 1))" 4);
    vm_compute; [lia|lia].
Defined.

(** C6 *)
(** [remove_subtree] takes [(prefix, removed, suffix)] apart so that they
    concatenate back to the tree at every index [i] with
    [1 <= i < len(split_tree) - 1], but not at the root: for every tree of
    at least two tokens, [remove_subtree(tree, 0)] returns the prefix [" "]
    (the blank after [" ".join([])] is added unconditionally), and
    [prefix + removed + suffix] is [" " + tree]. *)
Theorem remove_subtree_root_leading_blank (tree : string) :
  (2 <= length (py_split_space tree))%nat ->
  (exists removed post,
     remove_subtree tree 0 = Ok (" ", removed, post) /\
     " " ++ removed ++ post = " " ++ tree) /\
  (forall index, (1 <= index)%nat -> (index + 1 < length (py_split_space tree))%nat ->
     exists pre removed post,
       remove_subtree tree index = Ok (pre, removed, post) /\ pre ++ removed ++ post = tree).
Proof.
  intros H. split.
  - assert (Ej := join_split tree).
    remember (py_split_space tree) as l eqn:El.
    destruct l as [|tok [|r rest]]; [simpl in H; lia|simpl in H; lia|].
    set (right := py_join " " (r :: rest)).
    set (ci := bracket_scan right 1 0).
    exists (tok ++ " " ++ str_take (S ci) right), (str_drop (S ci) right).
    split.
    + unfold remove_subtree. rewrite <- El. reflexivity.
    + rewrite <- Ej.
      change (py_join " " (tok :: r :: rest)) with (tok ++ " " ++ right).
      rewrite !str_append_assoc, take_drop. reflexivity.
  - intros index H1 H2.
    destruct (remove_subtree_concat tree index H1 H2) as (pre & removed & post & E & C & _).
    exists pre, removed, post. split; assumption.
Qed.

(** C6 witness: [(S (T 1))], three tokens; at the root the pieces are
    [" "], ["(S (T 1))"] and [""]. *)
Lemma remove_subtree_root_leading_blank_witness :
  remove_subtree "(S (T 1))" 0 = Ok (" ", "(S (T 1))", "") /\
  ((exists removed post,
      remove_subtree "(S (T 1))" 0 = Ok (" ", removed, post) /\
      " " ++ removed ++ post = " " ++ "(S (T 1))") /\
   (forall index, (1 <= index)%nat -> (index + 1 < length (py_split_space "(S (T 1))"))%nat ->
      exists pre removed post,
        remove_subtree "(S (T 1))" index = Ok (pre, removed, post) /\
        pre ++ removed ++ post = "(S (T 1))")).
Proof.
  split; [reflexivity|].
  apply (remove_subtree_root_leading_blank "(S (T 1))"). vm_compute. lia.
Defined.

End RemoveSubtree.

(** ** [rand_subtree] *)

Section RandSubtree.
Open Scope string_scope.

Lemma mapM_ok {A B} (f : A -> res B) (g : A -> B) (l : list A) :
  (forall a, In a l -> f a = Ok (g a)) -> mapM f l = Ok (map g l).
Proof.
  induction l as [|a l IH]; intros Hf; simpl; [reflexivity|].
  rewrite (Hf a (or_introl eq_refl)); simpl.
  rewrite IH by (intros; apply Hf; right; assumption). reflexivity.
Qed.

Lemma map_nth_seq {A} (l : list A) (d : A) :
  map (fun r => nth r l d) (seq 0 (length l)) = l.
Proof.
  induction l as [|a l IH]; [reflexivity|].
  simpl. f_equal. rewrite <- seq_shift, map_map. exact IH.
Qed.

Lemma map_nth_seq_tl {A} (l : list A) (d : A) :
  map (fun r => nth r l d) (seq 1 (length l - 1)) = tl l.
Proof.
  destruct l as [|a l]; [reflexivity|].
  simpl. rewrite Nat.sub_0_r, <- seq_shift, map_map. apply map_nth_seq.
Qed.

Lemma py_index_nth {A} (l : list A) (r : nat) (d : A) :
  (r < length l)%nat -> py_index l (Z.of_nat r) = Ok (nth r l d).
Proof.
  intros Hr. destruct (py_index_in_range l (Z.of_nat r) ltac:(lia)) as [a [Ha Hn]].
  rewrite Nat2Z.id in Hn. rewrite Ha. f_equal. symmetry. apply nth_error_nth. exact Hn.
Qed.

Lemma swappable_indices_spec (sw split_tree : list string) (i : nat) :
  In i (swappable_indices sw split_tree) <->
  (i < length split_tree)%nat /\ In (head_sym (nth i split_tree "")) sw.
Proof.
  unfold swappable_indices. rewrite filter_In, in_seq, existsb_exists.
  split.
  - intros [[_ Hi] [x [Hx Ex]]]. apply String.eqb_eq in Ex. subst x. split; [lia|exact Hx].
  - intros [Hi Hx]. split; [lia|]. exists (head_sym (nth i split_tree "")).
    split; [exact Hx|apply String.eqb_refl].
Qed.

Lemma filter_seq_head_least (p : nat -> bool) (k n a : nat) (rest : list nat) :
  filter p (seq k n) = a :: rest -> forall i, In i rest -> (a < i)%nat.
Proof.
  revert k; induction n as [|n IH]; intros k E; [discriminate|].
  simpl in E. destruct (p k) eqn:Pk.
  - injection E as <- <-. intros i Hi.
    apply filter_In in Hi as [Hi _]. apply in_seq in Hi. lia.
  - exact (IH (S k) E).
Qed.

Lemma swappable_indices_NoDup (sw split_tree : list string) :
  NoDup (swappable_indices sw split_tree).
Proof. apply NoDup_filter, seq_NoDup. Qed.

(** C3 *)
(** Counterexample to "the index is uniform over all swappable
    occurrences": in [(S (S a) b)] with [S] swappable both tokens 0 and 1
    are swappable occurrences, yet every draw of [randint(1, 2)] returns
    occurrence 1; with a single swappable occurrence the call raises. *)
Lemma rand_subtree_skips_first_occurrence :
  swappable_indices ["S"] (py_split_space "(S (S a) b)") = [0; 1]%nat /\
  rand_subtree ["S"] "(S (S a) b)" = Ok [("S", 1%nat)] /\
  rand_subtree ["S"] "(S (S a) b)" <>
    Ok (map (fun i => (head_sym (nth i (py_split_space "(S (S a) b)") ""), i))
            (swappable_indices ["S"] (py_split_space "(S (S a) b)"))) /\
  rand_subtree ["S"] "(S a)" = Err ValueError.
Proof.
  split; [reflexivity|split; [reflexivity|split; [|reflexivity]]].
  vm_compute. discriminate.
Qed.

(** C3 *)
(** When the tree has at least two swappable occurrences, the equally
    likely results of [rand_subtree] are exactly the swappable occurrences
    other than the first one (the lowest token index), each once, each paired
    with its head symbol. *)
Theorem rand_subtree_uniform_after_first (sw : list string) (tree : string) :
  let split_tree := py_split_space tree in
  let idxs := swappable_indices sw split_tree in
  (2 <= length idxs)%nat ->
  rand_subtree sw tree =
    Ok (map (fun i => (head_sym (nth i split_tree ""), i)) (tl idxs)) /\
  NoDup (tl idxs) /\
  (forall i, In i idxs <->
     (i < length split_tree)%nat /\ In (head_sym (nth i split_tree "")) sw) /\
  (forall i, In i (tl idxs) -> (hd 0 idxs < i)%nat).
Proof.
  intros split_tree idxs Hlen.
  split; [|split; [|split]].
  - unfold rand_subtree. fold split_tree. fold idxs.
    unfold np_randint_outcomes.
    replace (Nat.ltb 1 (length idxs)) with true by (symmetry; apply Nat.ltb_lt; lia).
    simpl.
    rewrite (mapM_ok _ (fun r => (head_sym (nth (nth r idxs 0%nat) split_tree ""),
                                  nth r idxs 0%nat))).
    + rewrite <- map_nth_seq_tl with (d := 0%nat), map_map. reflexivity.
    + intros r Hr. apply in_seq in Hr.
      unfold rand_subtree_at.
      rewrite (py_index_nth idxs r 0%nat) by lia. simpl.
      assert (Hin : In (nth r idxs 0%nat) idxs) by (apply nth_In; lia).
      apply swappable_indices_spec in Hin as [Hi _].
      rewrite (py_index_nth split_tree _ "") by exact Hi. reflexivity.
  - pose proof (swappable_indices_NoDup sw split_tree) as N. fold idxs in N.
    destruct idxs as [|a l]; [constructor|]. inversion N; assumption.
  - intros i. apply swappable_indices_spec.
  - intros i Hi. destruct idxs as [|a l] eqn:E; [contradiction|].
    simpl in *. unfold idxs, swappable_indices in E.
    exact (filter_seq_head_least _ _ _ _ _ E i Hi).
Qed.

(** Witness: the example tree of [remove_subtree], [S] and [T] swappable. *)
Lemma rand_subtree_uniform_after_first_witness :
  rand_subtree ["S"; "T"] "(S (S (T 2)) (ADD +) (T 1))" =
    Ok [("S", 1%nat); ("T", 2%nat); ("T", 6%nat)] /\
  let split_tree := py_split_space "(S (S (T 2)) (ADD +) (T 1))" in
  let idxs := swappable_indices ["S"; "T"] split_tree in
  rand_subtree ["S"; "T"] "(S (S (T 2)) (ADD +) (T 1))" =
    Ok (map (fun i => (head_sym (nth i split_tree ""), i)) (tl idxs)) /\
  NoDup (tl idxs) /\
  (forall i, In i idxs <->
     (i < length split_tree)%nat /\ In (head_sym (nth i split_tree "")) ["S"; "T"]) /\
  (forall i, In i (tl idxs) -> (hd 0 idxs < i)%nat).
Proof.
  split; [reflexivity|].
  apply (rand_subtree_uniform_after_first ["S"; "T"] "(S (S (T 2)) (ADD +) (T 1))").
  vm_compute. lia.
Defined.

End RandSubtree.

(** ** The convergent sampler *)

Section ConvergentProofs.
Variable g : list production.
Variable rand : nat -> Q.

Definition cs_equiv (s1 s2 : cstate) : Prop :=
  (forall q, pc_get (cs_pcount s1) q = pc_get (cs_pcount s2) q) /\ cs_pos s1 = cs_pos s2.

Definition res_rel {X} (r1 r2 : res (X * cstate)) : Prop :=
  match r1, r2 with
  | Ok (x1, s1), Ok (x2, s2) => x1 = x2 /\ cs_equiv s1 s2
  | Err e1, Err e2 => e1 = e2
  | _, _ => False
  end.

Lemma pc_get_set (pc : pcount) (p q : production) (n : Z) :
  pc_get (pc_set pc p n) q = if production_eq_dec q p then n else pc_get pc q.
Proof. unfold pc_get, pc_set. destruct (production_eq_dec q p); reflexivity. Qed.

Lemma conv_weight_get (cf : Q) (pc : pcount) (p : production) :
  conv_weight cf pc p = Qpower cf (pc_get pc p).
Proof. unfold conv_weight, pc_get. destruct (pc p); reflexivity. Qed.

Lemma conv_children_restore rec (Hrec : forall s st x st', rec s st = Ok (x, st') ->
                                   forall q, pc_get (cs_pcount st') q = pc_get (cs_pcount st) q)
  r tree ds np st x st' :
  conv_children rec r tree ds np st = Ok (x, st') ->
  forall q, pc_get (cs_pcount st') q = pc_get (cs_pcount st) q.
Proof.
  revert tree ds np st; induction r as [|[s|s] r IH]; intros tree ds np st E; simpl in E.
  - injection E as _ <-. reflexivity.
  - exact (IH _ _ _ _ E).
  - destruct (rec s st) as [[[[t d] n] st1]|e] eqn:R; simpl in E; [|discriminate].
    intros q. rewrite (IH _ _ _ _ E q). exact (Hrec _ _ _ _ R q).
Qed.

(** Every completed call leaves each production count as it found it. *)
Lemma conv_sampler_restore (fuel : nat) (cf : Q) (symbol : string) (st : cstate) t d n st' :
  conv_sampler g rand fuel cf symbol st = Ok (t, d, n, st') ->
  forall q, pc_get (cs_pcount st') q = pc_get (cs_pcount st) q.
Proof.
  revert symbol st t d n st'; induction fuel as [|fuel IH];
    intros symbol st t d n st' E; simpl in E; [discriminate|].
  destruct (mapM _ _) as [probs|e]; simpl in E; [|discriminate].
  destruct (choice _ _ _) as [prod|e]; simpl in E; [|discriminate].
  destruct (conv_children _ _ _ _ _ _) as [[[[t2 ds] np] st2]|e] eqn:C;
    simpl in E; [|discriminate].
  injection E as _ _ _ <-. simpl. intros q.
  assert (Hc := conv_children_restore _
                  (fun s st0 x st1 H => match x as x0 return conv_sampler g rand fuel cf s st0 = Ok (x0, st1) -> _ with
                                        | (t0, d0, n0) => fun H => IH s st0 t0 d0 n0 st1 H end H)
                  _ _ _ _ _ _ _ C).
  simpl in Hc. rewrite !pc_get_set. rewrite !Hc, !pc_get_set.
  destruct (production_eq_dec q prod); [subst; destruct (production_eq_dec prod prod); [lia|congruence]|reflexivity].
Qed.

Lemma conv_children_equiv rec
  (Hrec : forall s s1 s2, cs_equiv s1 s2 -> res_rel (rec s s1) (rec s s2))
  r tree ds np s1 s2 :
  cs_equiv s1 s2 ->
  res_rel (conv_children rec r tree ds np s1) (conv_children rec r tree ds np s2).
Proof.
  revert tree ds np s1 s2; induction r as [|[s|s] r IH]; intros tree ds np s1 s2 Hs; simpl.
  - split; [reflexivity|exact Hs].
  - apply IH; exact Hs.
  - specialize (Hrec s s1 s2 Hs).
    destruct (rec s s1) as [[x1 t1]|e1], (rec s s2) as [[x2 t2]|e2];
      simpl in Hrec; try contradiction.
    + destruct Hrec as [<- Ht]. destruct x1 as [[t d] n]. simpl. apply IH; exact Ht.
    + exact Hrec.
Qed.

(** The sampler reads its production counts only through [pcount[p]]
    (a missing key and a key holding 0 both weigh [cfactor ** 0 = 1]), so
    states with the same counts and generator position give the same
    results. *)
Lemma conv_sampler_equiv (fuel : nat) (cf : Q) (symbol : string) (s1 s2 : cstate) :
  cs_equiv s1 s2 ->
  res_rel (conv_sampler g rand fuel cf symbol s1) (conv_sampler g rand fuel cf symbol s2).
Proof.
  revert symbol s1 s2; induction fuel as [|fuel IH]; intros symbol s1 s2 [Hc Hp];
    simpl; [reflexivity|].
  assert (Hw : map (conv_weight cf (cs_pcount s1)) (productions g symbol) =
               map (conv_weight cf (cs_pcount s2)) (productions g symbol))
    by (apply map_ext; intros p; rewrite !conv_weight_get, Hc; reflexivity).
  rewrite Hw, Hp.
  destruct (mapM _ _) as [probs|e]; simpl; [|reflexivity].
  destruct (choice _ _ _) as [prod|e]; simpl; [|reflexivity].
  assert (Hrel := conv_children_equiv (fun s st => conv_sampler g rand fuel cf s st)
                    (fun s t1 t2 H => IH s t1 t2 H) (rhs prod) (String "("%char symbol) [] 1%nat
                    (mkCState (pc_set (cs_pcount s1) prod (pc_get (cs_pcount s1) prod + 1))
                              (S (cs_pos s2)))
                    (mkCState (pc_set (cs_pcount s2) prod (pc_get (cs_pcount s2) prod + 1))
                              (S (cs_pos s2)))).
  specialize (Hrel ltac:(split; [intros q; simpl; rewrite !pc_get_set, !Hc; reflexivity
                                |reflexivity])).
  revert Hrel.
  generalize (conv_children (fun s st => conv_sampler g rand fuel cf s st) (rhs prod)
                (String "("%char symbol) [] 1%nat
                (mkCState (pc_set (cs_pcount s1) prod (pc_get (cs_pcount s1) prod + 1))
                          (S (cs_pos s2)))) as c1.
  generalize (conv_children (fun s st => conv_sampler g rand fuel cf s st) (rhs prod)
                (String "("%char symbol) [] 1%nat
                (mkCState (pc_set (cs_pcount s2) prod (pc_get (cs_pcount s2) prod + 1))
                          (S (cs_pos s2)))) as c2.
  intros c2 c1 H.
  destruct c1 as [[x1 t1]|e1], c2 as [[x2 t2]|e2]; simpl in H |- *; try contradiction.
  - destruct H as [<- [Ht Htp]]. destruct x1 as [[t ds] np]. simpl.
    split; [reflexivity|split].
    + intros q. simpl. rewrite !pc_get_set, !Ht. reflexivity.
    + exact Htp.
  - exact H.
Qed.

(** C4 *)
(** A completed convergent sampling call leaves every production count
    ([pcount[p]], the shared default dictionary) at its value before the
    call; consequently a second call from the same generator state, made
    with the dictionary the first call left behind, returns the same tree,
    depth and production number, and again restores the counts. *)
Theorem conv_sampler_no_leak (fuel : nat) (cf : Q) (symbol : string) (st : cstate)
    (t : string) (d n : nat) (st' : cstate) :
  conv_sampler g rand fuel cf symbol st = Ok (t, d, n, st') ->
  (forall p, pc_get (cs_pcount st') p = pc_get (cs_pcount st) p) /\
  exists st'',
    conv_sampler g rand fuel cf symbol (mkCState (cs_pcount st') (cs_pos st)) =
      Ok (t, d, n, st'') /\
    cs_pos st'' = cs_pos st' /\
    (forall p, pc_get (cs_pcount st'') p = pc_get (cs_pcount st) p).
Proof.
  intros E.
  assert (R := conv_sampler_restore _ _ _ _ _ _ _ _ E).
  split; [exact R|].
  assert (Q := conv_sampler_equiv fuel cf symbol st (mkCState (cs_pcount st') (cs_pos st))
                 (conj (fun q => eq_sym (R q)) eq_refl)).
  rewrite E in Q.
  destruct (conv_sampler g rand fuel cf symbol (mkCState (cs_pcount st') (cs_pos st)))
    as [[x st'']|e]; simpl in Q; [|contradiction].
  destruct Q as [<- [Hq Hp]].
  exists st''. split; [reflexivity|split; [congruence|]].
  intros p. rewrite <- Hq. apply R.
Qed.

End ConvergentProofs.

(** C4 witness: the spec's example grammar from a fresh dictionary. *)
Lemma conv_sampler_no_leak_witness :
  exists t d n st',
    conv_sampler grammar_arith rand_example 20 (1#10) "S"%string cstate_fresh =
      Ok (t, d, n, st') /\
    t = "(S (S (T 2)) + (T 2)"%string /\
    ((forall p, pc_get (cs_pcount st') p = pc_get (cs_pcount cstate_fresh) p) /\
     exists st'',
       conv_sampler grammar_arith rand_example 20 (1#10) "S"%string
         (mkCState (cs_pcount st') (cs_pos cstate_fresh)) = Ok (t, d, n, st'') /\
       cs_pos st'' = cs_pos st' /\
       (forall p, pc_get (cs_pcount st'') p = pc_get (cs_pcount cstate_fresh) p)).
Proof.
  destruct (conv_sampler grammar_arith rand_example 20 (1#10) "S"%string cstate_fresh)
    as [[[[t d] n] st']|e] eqn:E.
  - exists t, d, n, st'. split; [reflexivity|split].
    + vm_compute in E. injection E as <- _ _ _. reflexivity.
    + exact (conv_sampler_no_leak grammar_arith rand_example 20 (1#10) "S"%string
               cstate_fresh t d n st' E).
  - vm_compute in E. discriminate.
Defined.

(** ** Drawing with [choice] by prefix sums *)

Section ChoiceQ.
Open Scope Q_scope.

Lemma qsum_nonneg (l : list Q) : Forall (fun p => 0 <= p) l -> 0 <= qsum l.
Proof.
  induction 1 as [|a l Ha _ IH]; simpl; [apply Qle_refl|lra].
Qed.

Lemma fold_left_Qplus (l : list Q) (a : Q) : fold_left Qplus l a == a + qsum l.
Proof.
  revert a; induction l as [|b l IH]; intros a; simpl; [lra|].
  rewrite IH. lra.
Qed.

Lemma Qltb_iff (a b : Q) : Qltb a b = true <-> a < b.
Proof.
  unfold Qltb. rewrite negb_true_iff.
  split; intros H.
  - apply Qnot_le_lt. intros H'. apply Qle_bool_iff in H'. congruence.
  - destruct (Qle_bool b a) eqn:E; [|reflexivity].
    apply Qle_bool_iff in E. lra.
Qed.

Lemma Forall_firstn_Q (P : Q -> Prop) (k : nat) (l : list Q) :
  Forall P l -> Forall P (firstn k l).
Proof.
  revert l; induction k as [|k IH]; intros l H; [constructor|].
  destruct H; simpl; constructor; auto.
Qed.

(** The loop of [choice] stops at option [k] exactly when the draw lies in
    [[cum + p_0 + ... + p_(k-1), cum + p_0 + ... + p_k)]. *)
Lemma choice_loop_interval (ps : list Q) (x cum : Q) (i : Z) (k : nat) :
  Forall (fun p => 0 <= p) ps -> (k < length ps)%nat ->
  cum + qsum (firstn k ps) <= x -> x < cum + qsum (firstn (S k) ps) ->
  choice_loop ps x cum i = (i + Z.of_nat k)%Z.
Proof.
  revert cum i k; induction ps as [|p ps IH]; intros cum i k Hnn Hk Hlo Hhi;
    [simpl in Hk; lia|].
  inversion Hnn as [|? ? Hp Hps]; subst.
  simpl. destruct k as [|k].
  - simpl in Hhi. replace (Qltb x (cum + p)) with true
      by (symmetry; apply Qltb_iff; lra). lia.
  - simpl in Hlo, Hhi.
    assert (H0 := qsum_nonneg (firstn k ps) (Forall_firstn_Q _ k ps Hps)).
    replace (Qltb x (cum + p)) with false
      by (symmetry; apply not_true_iff_false; rewrite Qltb_iff; lra).
    rewrite (IH (cum + p) (i + 1)%Z k Hps ltac:(simpl in Hk; lia)); [lia|lra|].
    simpl in Hhi |- *. lra.
Qed.

Lemma choice_by_prefix_sums {A : Type} (opts : list A) (probs : list Q) (x : Q)
    (i : nat) (d : A) :
  Forall (fun p => 0 <= p) probs -> length probs = length opts -> (i < length opts)%nat ->
  qsum (firstn i probs) <= x -> x < qsum (firstn (S i) probs) ->
  choice opts (Some probs) x = Ok (nth i opts d).
Proof.
  intros Hnn Hlen Hi Hlo Hhi. unfold choice; simpl.
  rewrite (choice_loop_interval probs x 0 0 i Hnn ltac:(lia)); [|lra|lra].
  simpl. apply py_index_nth. exact Hi.
Qed.

End ChoiceQ.

(** ** The convergent sampler weighs by path counts *)

Section ConvergentSpec.
Variable g : list production.
Variable rand : nat -> Q.

Definition spec_rel {X} (r1 : res (X * cstate)) (r2 : res (X * nat)) : Prop :=
  match r1, r2 with
  | Ok (x1, s), Ok (x2, pos) => x1 = x2 /\ cs_pos s = pos
  | Err e1, Err e2 => e1 = e2
  | _, _ => False
  end.

Definition counts_path (pc : pcount) (path : list production) : Prop :=
  forall q, pc_get pc q = Z.of_nat (count_occ production_eq_dec path q).

Lemma conv_children_refines rec rec' path
  (Hrec : forall s st, counts_path (cs_pcount st) path ->
          spec_rel (rec s st) (rec' s (cs_pos st)))
  (Hres : forall s st x st', rec s st = Ok (x, st') ->
          forall q, pc_get (cs_pcount st') q = pc_get (cs_pcount st) q)
  r tree ds np st :
  counts_path (cs_pcount st) path ->
  spec_rel (conv_children rec r tree ds np st)
           (conv_children_spec rec' r tree ds np (cs_pos st)).
Proof.
  revert tree ds np st; induction r as [|[s|s] r IH]; intros tree ds np st Hst; simpl.
  - split; reflexivity.
  - apply IH; exact Hst.
  - specialize (Hrec s st Hst).
    destruct (rec s st) as [[x1 s1]|e1] eqn:R1, (rec' s (cs_pos st)) as [[x2 p2]|e2];
      simpl in Hrec; try contradiction.
    + destruct Hrec as [<- Hp]. destruct x1 as [[t d] n]; simpl. subst p2.
      apply IH. intros q. rewrite (Hres _ _ _ _ R1 q). apply Hst.
    + exact Hrec.
Qed.

Lemma conv_sampler_refines (fuel : nat) (cf : Q) (symbol : string) (st : cstate)
    (path : list production) :
  counts_path (cs_pcount st) path ->
  spec_rel (conv_sampler g rand fuel cf symbol st)
           (conv_sampler_spec g rand fuel cf symbol path (cs_pos st)).
Proof.
  revert symbol st path; induction fuel as [|fuel IH]; intros symbol st path Hst;
    simpl; [reflexivity|].
  assert (Hw : map (conv_weight cf (cs_pcount st)) (productions g symbol) =
               map (fun p => Qpower cf (Z.of_nat (count_occ production_eq_dec path p)))
                   (productions g symbol))
    by (apply map_ext; intros p; rewrite conv_weight_get, Hst; reflexivity).
  rewrite Hw.
  destruct (mapM _ _) as [probs|e]; simpl; [|reflexivity].
  destruct (choice _ _ _) as [prod|e]; simpl; [|reflexivity].
  assert (Hrel := conv_children_refines
                    (fun s st => conv_sampler g rand fuel cf s st)
                    (fun s pos => conv_sampler_spec g rand fuel cf s (prod :: path) pos)
                    (prod :: path)
                    (fun s st H => IH s st (prod :: path) H)
                    (fun s st x st' E =>
                       match x as x0 return conv_sampler g rand fuel cf s st = Ok (x0, st') -> _ with
                       | (t0, d0, n0) => fun E => conv_sampler_restore g rand fuel cf s st t0 d0 n0 st' E
                       end E)
                    (rhs prod) (String "("%char symbol) [] 1%nat
                    (mkCState (pc_set (cs_pcount st) prod (pc_get (cs_pcount st) prod + 1))
                              (S (cs_pos st)))).
  specialize (Hrel ltac:(intros q; simpl; rewrite pc_get_set, Hst; simpl;
                         destruct (production_eq_dec prod q), (production_eq_dec q prod);
                         subst; try congruence; lia)).
  cbn [cs_pos] in Hrel. revert Hrel.
  generalize (conv_children (fun s st => conv_sampler g rand fuel cf s st) (rhs prod)
                (String "("%char symbol) [] 1%nat
                (mkCState (pc_set (cs_pcount st) prod (pc_get (cs_pcount st) prod + 1))
                          (S (cs_pos st)))) as c1.
  generalize (conv_children_spec
                (fun s pos => conv_sampler_spec g rand fuel cf s (prod :: path) pos)
                (rhs prod) (String "("%char symbol) [] 1%nat (S (cs_pos st))) as c2.
  intros c2 c1 H.
  destruct c1 as [[x1 t1]|e1], c2 as [[x2 p2]|e2]; simpl in H |- *; try contradiction.
  - destruct H as [<- Hp]. destruct x1 as [[t ds] np]. simpl. auto.
  - exact H.
Qed.

Lemma qsum_map_div (ws : list Q) (N : Q) :
  qsum (map (fun w => w / N) ws) == qsum ws / N.
Proof.
  induction ws as [|w ws IH]; simpl.
  - unfold Qdiv. rewrite Qmult_0_l. reflexivity.
  - rewrite IH. unfold Qdiv. rewrite Qmult_plus_distr_l. reflexivity.
Qed.

Lemma qsum_pos (ws : list Q) :
  ws <> [] -> Forall (fun w => 0 < w) ws -> 0 < qsum ws.
Proof.
  intros Hne H. destruct H as [|w ws Hw Hws]; [congruence|].
  simpl. assert (0 <= qsum ws).
  { apply qsum_nonneg. eapply Forall_impl; [|exact Hws]. intros a Ha; simpl in Ha; lra. }
  lra.
Qed.

(** With [0 < cfactor], the weights are [cfactor ** pcount[p]], their
    normalisation never divides by zero, and the resulting probabilities
    are non-negative and sum to one. *)
Lemma conv_probs (cf : Q) (pc : pcount) (prods : list production) :
  0 < cf -> prods <> [] ->
  let ws := map (conv_weight cf pc) prods in
  ws = map (fun p => Qpower cf (pc_get pc p)) prods /\
  mapM (fun w => py_div w (py_sum ws)) ws = Ok (map (fun w => w / py_sum ws) ws) /\
  Forall (fun p => 0 <= p) (map (fun w => w / py_sum ws) ws) /\
  qsum (map (fun w => w / py_sum ws) ws) == 1.
Proof.
  intros Hcf Hne ws.
  assert (Hws : ws = map (fun p => Qpower cf (pc_get pc p)) prods)
    by (apply map_ext; intros; apply conv_weight_get).
  assert (Hpos : Forall (fun w => 0 < w) ws).
  { rewrite Hws. apply Forall_forall. intros w Hw. apply in_map_iff in Hw as [p [<- _]].
    apply Qpower_0_lt; exact Hcf. }
  assert (HN : py_sum ws == qsum ws) by (unfold py_sum; rewrite fold_left_Qplus; lra).
  assert (HNpos : 0 < py_sum ws).
  { rewrite HN. apply qsum_pos; [|exact Hpos].
    unfold ws. destruct prods; [congruence|discriminate]. }
  split; [exact Hws|split; [|split]].
  - apply mapM_ok. intros w _. unfold py_div; simpl.
    replace (Qeq_bool (py_sum ws) 0) with false; [reflexivity|].
    symmetry. apply not_true_iff_false. intros E. apply Qeq_bool_iff in E. lra.
  - apply Forall_forall. intros p Hp. apply in_map_iff in Hp as [w [<- Hw]].
    rewrite Forall_forall in Hpos. specialize (Hpos w Hw).
    apply Qle_shift_div_l; [exact HNpos|]. lra.
  - rewrite qsum_map_div, <- HN. unfold Qdiv. apply Qmult_inv_r. lra.
Qed.

(** C7 *)
(** Convergent sampling started from the top (every count 0, which is the
    state a fresh dictionary has and every completed call restores) agrees
    with the sampler that weighs each candidate production by
    [cfactor ** (number of times it was chosen on the root-to-node path)];
    the weights are [cfactor ** pcount[p]] (so 1 for an unused production),
    they are divided by their sum into probabilities that are non-negative
    and sum to one, and [choice] returns option [i] exactly for the draws in
    the [i]-th interval of the prefix sums, an interval of length [p_i]. *)
Theorem conv_sampler_path_weights (fuel : nat) (cf : Q) (symbol : string) (st : cstate) :
  (forall p, pc_get (cs_pcount st) p = 0%Z) ->
  spec_rel (conv_sampler g rand fuel cf symbol st)
           (conv_sampler_spec g rand fuel cf symbol [] (cs_pos st)) /\
  (forall (pc : pcount) (prods : list production),
     0 < cf -> prods <> [] ->
     let ws := map (conv_weight cf pc) prods in
     ws = map (fun p => Qpower cf (pc_get pc p)) prods /\
     mapM (fun w => py_div w (py_sum ws)) ws = Ok (map (fun w => w / py_sum ws) ws) /\
     Forall (fun p => 0 <= p) (map (fun w => w / py_sum ws) ws) /\
     qsum (map (fun w => w / py_sum ws) ws) == 1) /\
  (forall (A : Type) (opts : list A) (probs : list Q) (x : Q) (i : nat) (d : A),
     Forall (fun p => 0 <= p) probs -> length probs = length opts ->
     (i < length opts)%nat ->
     qsum (firstn i probs) <= x -> x < qsum (firstn (S i) probs) ->
     choice opts (Some probs) x = Ok (nth i opts d)).
Proof.
  intros H0. split; [|split].
  - apply conv_sampler_refines. intros q. rewrite H0. reflexivity.
  - intros pc prods Hcf Hne. apply conv_probs; assumption.
  - intros A opts probs x i d. apply choice_by_prefix_sums.
Qed.

End ConvergentSpec.

(** C7 witness: the spec's example grammar from a fresh dictionary. *)
Lemma conv_sampler_path_weights_witness :
  (forall p, pc_get (cs_pcount cstate_fresh) p = 0%Z) /\
  spec_rel (conv_sampler grammar_arith rand_example 20 (1#10) "S"%string cstate_fresh)
           (conv_sampler_spec grammar_arith rand_example 20 (1#10) "S"%string []
                              (cs_pos cstate_fresh)) /\
  (forall (pc : pcount) (prods : list production),
     0 < 1#10 -> prods <> [] ->
     let ws := map (conv_weight (1#10) pc) prods in
     ws = map (fun p => Qpower (1#10) (pc_get pc p)) prods /\
     mapM (fun w => py_div w (py_sum ws)) ws = Ok (map (fun w => w / py_sum ws) ws) /\
     Forall (fun p => 0 <= p) (map (fun w => w / py_sum ws) ws) /\
     qsum (map (fun w => w / py_sum ws) ws) == 1)%Q /\
  (forall (A : Type) (opts : list A) (probs : list Q) (x : Q) (i : nat) (d : A),
     Forall (fun p => 0 <= p)%Q probs -> length probs = length opts ->
     (i < length opts)%nat ->
     (qsum (firstn i probs) <= x)%Q -> (x < qsum (firstn (S i) probs))%Q ->
     choice opts (Some probs) x = Ok (nth i opts d)).
Proof.
  assert (H0 : forall p, pc_get (cs_pcount cstate_fresh) p = 0%Z) by reflexivity.
  split; [exact H0|].
  exact (conv_sampler_path_weights grammar_arith rand_example 20 (1#10) "S"%string
           cstate_fresh H0).
Defined.

(** ** Depth-constrained sampling excludes recursion past the bound *)

Section DepthProofs.
Open Scope Q_scope.

Lemma existsb_nt_names (symbol : string) (r : list gsym) :
  existsb (String.eqb symbol) (nt_names r) = true <-> In (Nonterminal symbol) r.
Proof.
  induction r as [|[s|s] r IH]; simpl; [split; [discriminate|tauto]|..].
  - rewrite IH. split; [tauto|]. intros [H|H]; [discriminate|exact H].
  - rewrite orb_true_iff, IH, String.eqb_eq. split.
    + intros [->|H]; [left; reflexivity|right; exact H].
    + intros [H|H]; [left; congruence|right; exact H].
Qed.

Lemma firstn_repeat_Q (c : Q) (k n : nat) :
  (k <= n)%nat -> firstn k (repeat c n) = repeat c k.
Proof.
  revert n; induction k as [|k IH]; intros n Hk; [reflexivity|].
  destruct n as [|n]; [lia|]. simpl. rewrite IH; [reflexivity|lia].
Qed.

Lemma qsum_repeat (c : Q) (k : nat) : qsum (repeat c k) == inject_Z (Z.of_nat k) * c.
Proof.
  induction k as [|k IH]; cbn [repeat qsum]; [reflexivity|].
  rewrite IH. replace (Z.of_nat (S k)) with (1 + Z.of_nat k)%Z by lia.
  rewrite inject_Z_plus. ring.
Qed.

(** [choice(options)] with no [probs] picks option [i] exactly for the
    draws in [[i/n, (i+1)/n)], [n = len(options)]. *)
Lemma choice_uniform {A : Type} (opts : list A) (x : Q) (i : nat) (d : A) :
  (i < length opts)%nat ->
  inject_Z (Z.of_nat i) / inject_Z (Z.of_nat (length opts)) <= x ->
  x < inject_Z (Z.of_nat (S i)) / inject_Z (Z.of_nat (length opts)) ->
  choice opts None x = Ok (nth i opts d).
Proof.
  intros Hi Hlo Hhi.
  set (n := length opts) in *.
  assert (Hn : 0 < inject_Z (Z.of_nat n)).
  { change 0 with (inject_Z 0). rewrite <- Zlt_Qlt. lia. }
  assert (Hdiv : py_div n1 (nof_nat n) = Ok (1 / inject_Z (Z.of_nat n))).
  { unfold py_div; simpl.
    replace (Qeq_bool (inject_Z (Z.of_nat n)) 0) with false; [reflexivity|].
    symmetry. apply not_true_iff_false. intros E. apply Qeq_bool_iff in E. lra. }
  unfold choice. fold n. rewrite Hdiv. cbn [bind].
  assert (Hc : 0 <= 1 / inject_Z (Z.of_nat n)) by (apply Qle_shift_div_l; lra).
  pose proof (choice_by_prefix_sums opts (repeat (1 / inject_Z (Z.of_nat n)) n) x i d)
    as Hch.
  transitivity (choice opts (Some (repeat (1 / inject_Z (Z.of_nat n)) n)) x);
    [reflexivity|apply Hch].
  - apply Forall_forall. intros p Hp. apply repeat_spec in Hp. subst p. exact Hc.
  - apply repeat_length.
  - exact Hi.
  - rewrite firstn_repeat_Q by lia. rewrite qsum_repeat.
    unfold Qdiv in *. rewrite Qmult_1_l. exact Hlo.
  - rewrite firstn_repeat_Q by lia. rewrite qsum_repeat.
    unfold Qdiv in *. rewrite Qmult_1_l. exact Hhi.
Qed.

End DepthProofs.

Section DepthExclusion.
Variable g : list production.
Variable rand : nat -> Q.
Variable depth_constraints : string -> option Z.

(** C5 *)
(** On entering [symbol] the sampler first counts the entry; when the count
    exceeds the bound configured for [symbol], the candidates are exactly
    the productions of [symbol] whose right-hand side does not contain the
    nonterminal [symbol] (otherwise all productions of [symbol]). If no
    candidate is left the call raises; otherwise candidate [i] is chosen for
    the draws in [[i/n, (i+1)/n)] ([n] candidates, so uniformly) and the
    call continues with its right-hand side, a failure of any nested call
    being the failure of the whole call. *)
Theorem dc_sampler_exclusion (fuel : nat) (symbol : string) (st : dstate) :
  let di1 := dc_enter (ds_info st) symbol in
  let cands := dc_candidates g depth_constraints di1 symbol in
  di1 symbol = Some (match ds_info st symbol with Some n => n + 1 | None => 1 end)%Z /\
  (dc_over_bound depth_constraints di1 symbol = true <->
     exists bound n, depth_constraints symbol = Some bound /\ di1 symbol = Some n /\
                     (bound < n)%Z) /\
  (forall p, In p cands <->
     In p (productions g symbol) /\
     (dc_over_bound depth_constraints di1 symbol = true -> ~ In (Nonterminal symbol) (rhs p))) /\
  (dc_over_bound depth_constraints di1 symbol = false -> cands = productions g symbol) /\
  (cands = [] -> dc_sampler g rand depth_constraints (S fuel) symbol st = Err PyException) /\
  (forall (i : nat) (d : production),
     (i < length cands)%nat ->
     inject_Z (Z.of_nat i) / inject_Z (Z.of_nat (length cands)) <= rand (ds_pos st) ->
     rand (ds_pos st) < inject_Z (Z.of_nat (S i)) / inject_Z (Z.of_nat (length cands)) ->
     dc_sampler g rand depth_constraints (S fuel) symbol st =
       ('(tree, st2) <-
          dc_children (fun s st => dc_sampler g rand depth_constraints fuel s st)
                      (rhs (nth i cands d)) ("(" ++ symbol)%string
                      (mkDState di1 (S (ds_pos st))) ;;
        match ds_info st2 symbol with
        | Some n => Ok (tree, mkDState (di_set (ds_info st2) symbol (n - 1)%Z) (ds_pos st2))
        | None => Err KeyError
        end)).
Proof.
  intros di1 cands.
  assert (Hdi1 : di1 symbol =
            Some (match ds_info st symbol with Some n => n + 1 | None => 1 end)%Z).
  { unfold di1, dc_enter, di_set.
    destruct (ds_info st symbol); destruct (string_dec symbol symbol); congruence. }
  split; [exact Hdi1|]. split; [|split; [|split; [|split]]].
  - unfold dc_over_bound. rewrite Hdi1. split.
    + destruct (depth_constraints symbol) as [b|]; [|discriminate].
      intros H. apply Z.ltb_lt in H. eauto.
    + intros (b & n & Hb & Hn & Hlt). rewrite Hb.
      assert (E : Some n = Some (match ds_info st symbol with
                                 | Some n => n + 1 | None => 1 end)%Z) by congruence.
      injection E as <-. apply Z.ltb_lt. exact Hlt.
  - intros p. unfold cands, dc_candidates.
    destruct (dc_over_bound depth_constraints di1 symbol).
    + rewrite filter_In, negb_true_iff, <- not_true_iff_false, existsb_nt_names.
      split; [intros [H1 H2]; split; [exact H1|intros _; exact H2]|].
      intros [H1 H2]. split; [exact H1|apply H2; reflexivity].
    + split; [intros H; split; [exact H|discriminate]|intros [H _]; exact H].
  - intros H. unfold cands, dc_candidates. rewrite H. reflexivity.
  - intros Hnil. simpl. fold di1. fold cands. rewrite Hnil. reflexivity.
  - intros i d Hi Hlo Hhi.
    pose proof (choice_uniform cands (rand (ds_pos st)) i d Hi Hlo Hhi) as Hch.
    cbn [dc_sampler]. fold di1. fold cands.
    clearbody cands. destruct cands as [|c cs]; [simpl in Hi; lia|].
    rewrite Hch. reflexivity.
Qed.

End DepthExclusion.

(** C5 witness: with the bound [S: 0], a first entry into [S] is over the
    bound; in the example grammar only [S -> T] is left, and in a grammar
    whose only [S]-production recurses the call raises. *)
Lemma dc_sampler_exclusion_witness :
  dc_candidates grammar_arith (fun s => if string_dec s "S" then Some 0%Z else None)
                (dc_enter (fun _ => None) "S") "S"
    = [mkProduction "S" [Nonterminal "T"]] /\
  dc_sampler [mkProduction "S" [Nonterminal "S"; Terminal "a"]] rand_example
             (fun s => if string_dec s "S" then Some 0%Z else None) 5 "S"
             (mkDState (fun _ => None) 0)
    = Err PyException.
Proof.
  split.
  - destruct (dc_sampler_exclusion grammar_arith rand_example
                (fun s => if string_dec s "S" then Some 0%Z else None) 4 "S"
                (mkDState (fun _ => None) 0)) as (_ & _ & _ & _ & _ & H6).
    vm_compute. reflexivity.
  - destruct (dc_sampler_exclusion [mkProduction "S" [Nonterminal "S"; Terminal "a"]]
                rand_example (fun s => if string_dec s "S" then Some 0%Z else None) 4 "S"
                (mkDState (fun _ => None) 0)) as (_ & _ & _ & _ & H5 & _).
    apply H5. vm_compute. reflexivity.
Defined.

(** ** [SearchSpace.mutate] with a parameter whose mutation always fails *)

Section MutateProofs.
Context {P : Type}.
Open Scope string_scope.

Lemma smbo_loop_all_fail (hp_mutate : nat -> P -> res P) (hp : P) (n k : nat) :
  (forall k' p, exists e, hp_mutate k' p = Err e) ->
  smbo_loop hp_mutate hp n k = (None, (n + k)%nat).
Proof.
  intros Hf. revert k; induction n as [|n IH]; intros k; simpl; [reflexivity|].
  destruct (Hf k hp) as [e ->]. rewrite IH. f_equal. lia.
Qed.

Lemma combine_map_fst_snd {A B} (l : list (A * B)) : combine (map fst l) (map snd l) = l.
Proof. induction l as [|[a b] l IH]; simpl; [reflexivity|]. rewrite IH. reflexivity. Qed.

Lemma py_index_lt {A} (l : list A) (r : nat) :
  (r < length l)%nat -> exists a, py_index l (Z.of_nat r) = Ok a.
Proof.
  intros Hr. destruct l as [|d l']; [simpl in Hr; lia|].
  exists (nth r (d :: l') d). apply py_index_nth. exact Hr.
Qed.

End MutateProofs.

(** C1 counterexample: a one-parameter space whose parameter always fails
    to mutate; with [patience=0], [mutate] calls [hp.mutate()] zero times
    and returns a child with the same parameter instead of raising. *)
Lemma space_mutate_patience0_counterexample :
  space_mutate (fun _ _ => Err ValueError) [("a"%string, 1%Z)] 0 "smbo"%string 0
    = Ok ([("a"%string, 1%Z)], 0%nat).
Proof. reflexivity. Qed.

(** C1 *)
(** When the chosen parameter's [mutate] always raises, [SearchSpace.mutate]
    with strategy ["smbo"] calls it exactly [max(patience, 0)] times (zero
    for [patience=0]), swallows every exception and returns, without
    raising, a child with the same names bound to the same unmutated
    parameters. *)
Theorem space_mutate_all_fail {P : Type} (hp_mutate : nat -> P -> res P)
    (space : list (string * P)) (patience : Z) (r : nat) :
  (r < length space)%nat ->
  (forall k p, exists e, hp_mutate k p = Err e) ->
  space_mutate hp_mutate space patience "smbo"%string r = Ok (space, Z.to_nat patience).
Proof.
  intros Hr Hf. unfold space_mutate. simpl. unfold smbo_mutation.
  rewrite length_map.
  destruct (length space =? 0)%nat eqn:E0; [apply Nat.eqb_eq in E0; lia|].
  destruct (py_index_lt (map snd space) r ltac:(rewrite length_map; exact Hr)) as [hp Hhp].
  rewrite Hhp. simpl. rewrite (smbo_loop_all_fail hp_mutate hp _ 0 Hf).
  simpl. rewrite combine_map_fst_snd, Nat.add_0_r. reflexivity.
Qed.

(** C1 witness: the one-parameter space with [patience=0] and [patience=3]. *)
Lemma space_mutate_all_fail_witness :
  space_mutate (fun _ _ => Err ValueError) [("a"%string, 1%Z)] 0 "smbo"%string 0
    = Ok ([("a"%string, 1%Z)], 0%nat) /\
  space_mutate (fun _ _ => Err ValueError) [("a"%string, 1%Z); ("b"%string, 2%Z)] 3
               "smbo"%string 1
    = Ok ([("a"%string, 1%Z); ("b"%string, 2%Z)], 3%nat).
Proof.
  split.
  - apply space_mutate_all_fail; [simpl; lia|]. intros; eexists; reflexivity.
  - apply space_mutate_all_fail; [simpl; lia|]. intros; eexists; reflexivity.
Defined.

(** ** [SearchSpace.crossover] with a [crossover] that returns [None] *)

Section CrossoverProofs.
Context {P : Type}.
Variable has_crossover : P -> bool.
Variable hp_crossover : nat -> P -> P -> xresult P.
Variable random : nat -> Q.
Hypothesis Hnone : forall k a b, hp_crossover k a b = XOther.

Lemma xo_loop_none (n : nat) (hp : P) (key : string) (config2 : list (string * P))
    (patience : Z) (k : nat) :
  exists patience' k', xo_loop hp_crossover n hp key config2 patience k = (None, patience', k').
Proof.
  revert patience k; induction n as [|n IH]; intros patience k; simpl; [eauto|].
  destruct (dict_lookup key config2); [rewrite Hnone|]; apply IH.
Qed.

Lemma simple_crossover_loop_none (hps config2 : list (string * P)) (prob : Q)
    (patience : Z) (pos k : nat) (new1 new2 : list P) :
  (forall hp, has_crossover hp = true) -> (forall j, Qltb (random j) prob = true) ->
  simple_crossover_loop has_crossover hp_crossover random hps config2 prob patience pos k
                        new1 new2 = Ok (new1, new2).
Proof.
  intros Hhas Hlt. revert patience pos k.
  induction hps as [|[key hp] hps IH]; intros patience pos k; simpl; [reflexivity|].
  rewrite Hhas, Hlt. simpl.
  destruct (xo_loop_none (Z.to_nat patience) hp key config2 patience k) as (p' & k' & ->).
  apply IH.
Qed.

End CrossoverProofs.

(** C2 *)
(** When every parameter has a [crossover] attribute, every draw is below
    the crossover probability and every [crossover] call returns [None]
    (as [CategoricalParameter.crossover] does), [SearchSpace.crossover]
    returns two children with no parameter at all, whatever the patience:
    unpacking [None] raises [TypeError], which the [except Exception] branch
    counts against the shared patience, and a parameter whose loop ends
    without [break] is appended to neither child. *)
Theorem space_crossover_none_drops {P : Type} (has_crossover : P -> bool)
    (hp_crossover : nat -> P -> P -> xresult P) (random : nat -> Q)
    (hps config2 : list (string * P)) (prob : Q) (patience : Z) :
  (forall k a b, hp_crossover k a b = XOther) ->
  (forall hp, has_crossover hp = true) ->
  (forall j, Qltb (random j) prob = true) ->
  space_crossover has_crossover hp_crossover random hps config2 prob patience
                  "simple"%string = Ok ([], []).
Proof.
  intros Hnone Hhas Hlt. unfold space_crossover. simpl. unfold simple_crossover.
  rewrite (simple_crossover_loop_none has_crossover hp_crossover random Hnone
             hps config2 prob patience 0 0 [] [] Hhas Hlt).
  simpl. destruct (map fst hps); reflexivity.
Qed.

(** C2 witness: parents with one [CategoricalParameter(choices=[1, 2, 3])]
    named ["a"], values 1 and 2, probability 1.0, patience 50, a draw 0.5. *)
Lemma space_crossover_none_drops_witness :
  space_crossover (fun _ : catparam => true) (fun _ _ _ => XOther) (fun _ => 1#2)
                  [("a"%string, mkCat [1; 2; 3]%Z 1%Z)]
                  [("a"%string, mkCat [1; 2; 3]%Z 2%Z)] 1 50 "simple"%string
    = Ok ([], []).
Proof.
  apply space_crossover_none_drops; [reflexivity|reflexivity|].
  intros j. reflexivity.
Defined.

(** ** [mutate] never returns a child equal to its parent *)

Section MutateEqProofs.
Open Scope string_scope.

(** [CategoricalParameter(choices=[1])] with value 1: every neighbour drawn
    is the value, so the loop never ends. *)
Lemma cat_neighbours_singleton (fuel : nat) (randint : nat -> nat) (j : nat) :
  (forall j', randint j' = 0%nat) ->
  cat_neighbours_loop Z.eqb fuel (mkCat [1%Z] 1%Z) [1%Z] randint 0 j = Err OutOfFuel.
Proof.
  intros H0. revert j; induction fuel as [|fuel IH]; intros j; [reflexivity|].
  simpl. rewrite H0. simpl. apply IH.
Qed.

(** The neighbour loop of a categorical parameter returns one copy holding a
    choice that is not [==] to the value. *)
Lemma cat_neighbours_loop_shape {V : Type} (veq : V -> V -> bool) (fuel : nat)
    (self : catparam) (shuffled : list V) (randint : nat -> nat) (idx j : nat)
    (ns : list catparam) :
  cat_neighbours_loop veq fuel self shuffled randint idx j = Ok ns ->
  exists c, ns = [mkCat (choices self) c] /\ veq c (value self) = false.
Proof.
  revert idx j. induction fuel as [|fuel IH]; intros idx j E; [discriminate|].
  simpl in E.
  destruct (if (Z.of_nat (length (choices self)) - 1 <? 1)%Z then _ else _)
    as [[[c idx'] j']|e]; simpl in E; [|discriminate].
  destruct (veq c (value self)) eqn:Ec.
  - exact (IH _ _ E).
  - injection E as <-. exists c. split; [reflexivity|exact Ec].
Qed.

(** The neighbour loop of a float parameter returns one neighbour. *)
Lemma f_neighbours_loop_shape {T : Type} `{PyNum T} (fuel : nat) (self : floathp)
    (normal : T -> nat -> T) (j : nat) (ns : list floathp) :
  f_neighbours_loop fuel self normal j = Ok ns -> exists c, ns = [c].
Proof.
  revert j. induction fuel as [|fuel IH]; intros j E; [discriminate|].
  simpl in E. destruct (nlt _ n0 || nlt n1 _).
  - exact (IH _ E).
  - destruct (f_inv_transform _) as [c|e]; simpl in E; [|discriminate].
    injection E as <-. exists c. reflexivity.
Qed.

Lemma f_get_neighbours_shape {T : Type} `{PyNum T} (fuel : nat) (self : floathp)
    (normal : T -> nat -> T) (ns : list floathp) (self' : floathp) :
  f_get_neighbours fuel self normal = Ok (ns, self') -> exists c, ns = [c].
Proof.
  unfold f_get_neighbours. intros E.
  destruct (f_transform self) as [s1|e]; simpl in E; [|discriminate].
  destruct (f_neighbours_loop fuel s1 normal 0) as [ns1|e] eqn:El; simpl in E; [|discriminate].
  destruct (f_inv_transform s1) as [s2|e]; simpl in E; [|discriminate].
  injection E as <- _. exact (f_neighbours_loop_shape fuel s1 normal 0 ns1 El).
Qed.

End MutateEqProofs.

(** C8 counterexample: [CategoricalParameter(choices=[1, 1])] with value 1
    under the default ["local_search"] raises [IndexError] (both shuffled
    choices equal the value and [choices[2]] is read), not [ValueError];
    [CategoricalParameter(choices=[1])] never returns (no draw differs from
    the value); an unknown strategy raises [NotImplementedError]. *)
Lemma cat_mutate_other_failures :
  cat_mutate Z.eqb 10 (mkCat [1; 1]%Z 1%Z) "local_search"%string 0 [1; 1]%Z (fun _ => 0%nat)
    = Err IndexError /\
  (forall fuel, cat_mutate Z.eqb fuel (mkCat [1]%Z 1%Z) "local_search"%string 0 [1]%Z
                            (fun _ => 0%nat) = Err OutOfFuel) /\
  cat_mutate Z.eqb 10 (mkCat [1; 2; 3]%Z 1%Z) "foo"%string 0 [1; 2; 3]%Z (fun _ => 0%nat)
    = Err NotImplementedError.
Proof.
  split; [reflexivity|split; [|reflexivity]].
  intros fuel. unfold cat_mutate. simpl.
  rewrite (cat_neighbours_singleton fuel (fun _ => 0%nat) 0 (fun _ => eq_refl)).
  reflexivity.
Qed.

(** C8 *)
(** Whenever [mutate] of a [CategoricalParameter] or of a
    [FloatHyperparameter] returns a child, the child's value is not [==] to
    the parent's value. Under both strategies a candidate child whose value
    is [==] to the parent's makes [mutate] raise [ValueError]: for
    ["simple"] the sampled copy; for ["local_search"] the one neighbour
    [_get_neighbours] returns (a categorical neighbour holds a choice the
    loop found not [==] to the value; a float neighbour is compared with the
    parent's value as the in-place [_transform]/[_inv_transform] round trip
    leaves it). *)
Theorem mutate_child_differs :
  (forall (V : Type) (veq : V -> V -> bool) fuel (self child : catparam) strategy idx
          shuffled randint,
     cat_mutate veq fuel self strategy idx shuffled randint = Ok child ->
     veq (value self) (value child) = false) /\
  (forall (V : Type) (veq : V -> V -> bool) fuel (self : catparam) idx shuffled randint v,
     py_index (choices self) (Z.of_nat idx) = Ok v -> veq (value self) v = true ->
     cat_mutate veq fuel self "simple"%string idx shuffled randint = Err ValueError) /\
  (forall (V : Type) (veq : V -> V -> bool) fuel (self : catparam) idx shuffled randint ns,
     cat_neighbours_loop veq fuel self shuffled randint 0 0 = Ok ns ->
     exists c, ns = [mkCat (choices self) c] /\ veq c (value self) = false /\
       cat_mutate veq fuel self "local_search"%string idx shuffled randint =
       (if veq (value self) c then Err ValueError else Ok (mkCat (choices self) c))) /\
  (forall (T : Type) (HT : PyNum T) fuel (self child parent : floathp) strategy u normal,
     f_mutate fuel self strategy u normal = Ok (child, parent) ->
     neqb (f_value parent) (f_value child) = false) /\
  (forall (T : Type) (HT : PyNum T) fuel (self : floathp) u normal,
     neqb (f_value self) (f_value (f_sample self u)) = true ->
     f_mutate fuel self "simple"%string u normal = Err ValueError) /\
  (forall (T : Type) (HT : PyNum T) fuel (self : floathp) u normal ns self',
     f_get_neighbours fuel self normal = Ok (ns, self') ->
     exists c, ns = [c] /\
       f_mutate fuel self "local_search"%string u normal =
       (if neqb (f_value self') (f_value c) then Err ValueError else Ok (c, self'))).
Proof.
  split; [|split; [|split; [|split; [|split]]]].
  - intros V veq fuel self child strategy idx shuffled randint E.
    unfold cat_mutate in E.
    destruct (if String.eqb strategy "simple" then _ else _) as [c|e]; simpl in E;
      [|discriminate].
    destruct (veq (value self) (value c)) eqn:Eq; [discriminate|].
    injection E as <-. exact Eq.
  - intros V veq fuel self idx shuffled randint v Hv Heq.
    unfold cat_mutate. simpl. rewrite Hv. simpl. rewrite Heq. reflexivity.
  - intros V veq fuel self idx shuffled randint ns E.
    destruct (cat_neighbours_loop_shape veq fuel self shuffled randint 0 0 ns E)
      as [c [-> Hc]].
    exists c. split; [reflexivity|split; [exact Hc|]].
    unfold cat_mutate. simpl. rewrite E. reflexivity.
  - intros T HT fuel self child parent strategy u normal E.
    unfold f_mutate in E.
    destruct (if String.eqb strategy "simple" then _ else _) as [[c p]|e]; simpl in E;
      [|discriminate].
    destruct (neqb (f_value p) (f_value c)) eqn:Eq; [discriminate|].
    injection E as <- <-. exact Eq.
  - intros T HT fuel self u normal Heq.
    unfold f_mutate. cbn -[f_sample]. rewrite Heq. reflexivity.
  - intros T HT fuel self u normal ns self' E.
    destruct (f_get_neighbours_shape fuel self normal ns self' E) as [c ->].
    exists c. split; [reflexivity|].
    unfold f_mutate. cbn -[f_get_neighbours]. rewrite E. reflexivity.
Qed.

(** C8 witness: [choices=[1, 2, 3]] with value 1, [np.random.choice]
    giving index 1 or 0 and the shuffle [[1, 3, 2]]; a float on [[0, 1]] with
    value 0.5, draw 0.25, and a normal draw equal to its mean, which makes
    the neighbour's value 0.5 again. *)
Lemma mutate_child_differs_witness :
  cat_mutate Z.eqb 10 (mkCat [1; 2; 3]%Z 1%Z) "simple"%string 1 [] (fun _ => 0%nat)
    = Ok (mkCat [1; 2; 3]%Z 2%Z) /\
  Z.eqb 1 2 = false /\
  cat_mutate Z.eqb 10 (mkCat [1; 2; 3]%Z 1%Z) "simple"%string 0 [] (fun _ => 0%nat)
    = Err ValueError /\
  cat_mutate Z.eqb 10 (mkCat [1; 2; 3]%Z 1%Z) "local_search"%string 0 [1; 3; 2]%Z
    (fun _ => 0%nat) = Ok (mkCat [1; 2; 3]%Z 3%Z) /\
  f_mutate 10 (mkFloatHp 0 1 (1#2)) "simple"%string (1#4) (fun _ _ => 0)
    = Ok (mkFloatHp 0 1 (1#4), mkFloatHp 0 1 (1#2)) /\
  neqb (1#2) (1#4) = false /\
  f_mutate 10 (mkFloatHp 0%float 1%float 0.5%float) "local_search"%string 0%float
    (fun m _ => m) = Err ValueError.
Proof.
  destruct mutate_child_differs as (H1 & H2 & H3 & H4 & _ & H6).
  assert (E1 : cat_mutate Z.eqb 10 (mkCat [1; 2; 3]%Z 1%Z) "simple"%string 1 []
                 (fun _ => 0%nat) = Ok (mkCat [1; 2; 3]%Z 2%Z)) by reflexivity.
  assert (E2 : f_mutate 10 (mkFloatHp 0 1 (1#2)) "simple"%string (1#4) (fun _ _ => 0)
                 = Ok (mkFloatHp 0 1 (1#4), mkFloatHp 0 1 (1#2))) by reflexivity.
  assert (E3 : cat_neighbours_loop Z.eqb 10 (mkCat [1; 2; 3]%Z 1%Z) [1; 3; 2]%Z
                 (fun _ => 0%nat) 0 0 = Ok [mkCat [1; 2; 3]%Z 3%Z]) by reflexivity.
  assert (E4 : f_get_neighbours 10 (mkFloatHp 0%float 1%float 0.5%float) (fun m _ => m)
                 = Ok ([mkFloatHp 0%float 1%float 0.5%float],
                       mkFloatHp 0%float 1%float 0.5%float))
    by (vm_compute; reflexivity).
  split; [exact E1|split; [exact (H1 _ _ _ _ _ _ _ _ _ E1)|split; [|split; [|split; [exact E2|split]]]]].
  - apply (H2 _ _ _ _ _ _ _ 1%Z); reflexivity.
  - destruct (H3 _ _ 10%nat _ 0%nat _ _ _ E3) as (c & Ec & _ & ->).
    injection Ec as <-. reflexivity.
  - exact (H4 _ _ _ _ _ _ _ _ _ E2).
  - destruct (H6 _ _ 10%nat _ 0%float _ _ _ E4) as (c & Ec & ->).
    injection Ec as <-. vm_compute. reflexivity.
Defined.

(** ** [_transform] then [_inv_transform] *)

(** C9 counterexample: [FloatHyperparameter(lower=-1e308, upper=1e308)]
    with value 0.0: [upper - lower] overflows to [inf], [_transform] gives
    [1e308 / inf = 0.0] and [_inv_transform] gives [0.0 * inf + lower],
    which is NaN, not 0.0. *)
Lemma f_roundtrip_float_nan :
  let h := mkFloatHp (-0x1.1ccf385ebc8a0p+1023)%float 0x1.1ccf385ebc8a0p+1023%float 0%float in
  f_transform h = Ok (with_value h 0%float) /\
  (exists h2, f_inv_transform (with_value h 0%float) = Ok h2 /\
              PrimFloat.is_nan (f_value h2) = true) /\
  PrimFloat.is_nan (f_value h) = false.
Proof.
  split; [vm_compute; reflexivity|split; [|vm_compute; reflexivity]].
  eexists. split; [vm_compute; reflexivity|vm_compute; reflexivity].
Qed.

Section RoundtripQ.
Open Scope Q_scope.

(** Over exact (rational) arithmetic, for [lower < upper] and a value in
    [[lower, upper]], [_transform] maps the value into [[0, 1]] and
    [_inv_transform] maps it back to the value, bounds unchanged. *)
Theorem f_roundtrip_exact (l u v : Q) :
  l < u -> l <= v -> v <= u ->
  exists h1 h2,
    f_transform (mkFloatHp l u v) = Ok h1 /\
    0 <= f_value h1 <= 1 /\
    f_inv_transform h1 = Ok h2 /\
    f_value h2 == v /\ f_lower h2 = l /\ f_upper h2 = u.
Proof.
  intros Hlu Hlv Hvu.
  assert (Hd : ~ u - l == 0) by lra.
  assert (Hdb : Qeq_bool (u - l) 0 = false)
    by (apply not_true_iff_false; intros E; apply Qeq_bool_iff in E; lra).
  assert (Hrefl : forall q : Q, Qeq_bool q q = true) by (intros q; apply Qeq_bool_iff; lra).
  exists (mkFloatHp l u ((v - l) / (u - l))),
         (mkFloatHp l u ((v - l) / (u - l) * (u - l) + l)).
  unfold f_transform, f_inv_transform, py_div; simpl.
  rewrite !Hrefl, Hdb. simpl.
  split; [reflexivity|split; [split|split; [reflexivity|split; [|split; reflexivity]]]].
  - apply Qle_shift_div_l; lra.
  - apply Qle_shift_div_r; lra.
  - field. exact Hd.
Qed.

(** Over binary64 rounding, as long as nothing overflows, the round trip
    comes back within a few rounding errors of the value. *)
Lemma f_roundtrip_rounded (fl : Q -> Q) (l u v : Q) :
  binary64_rounding fl ->
  l < u -> l <= v -> v <= u -> 2 * eta64 <= u - l ->
  exists h1 h2,
    @f_transform Q (PyNum_rounded fl) (mkFloatHp l u v) = Ok h1 /\
    @f_inv_transform Q (PyNum_rounded fl) h1 = Ok h2 /\
    f_lower h2 = l /\ f_upper h2 = u /\
    Qabs (f_value h2 - v) <= u64 * Qabs v + 4 * u64 * (v - l) + 2 * eta64 * (u - l) + 4 * eta64.
Proof.
  intros Hfl Hlu Hlv Hvu Hh.
  set (d := u - l). set (A := v - l).
  set (D := fl d). set (a := fl A). set (x := fl (a / D)).
  set (p := fl (x * D)). set (r := fl (p + l)).
  assert (Hd : d == u - l) by reflexivity.
  assert (HA : A == v - l) by reflexivity.
  assert (F1 : Qabs (D - d) <= u64 * Qabs d + eta64) by apply Hfl.
  assert (F2 : Qabs (a - A) <= u64 * Qabs A + eta64) by apply Hfl.
  assert (F3 : Qabs (x - a / D) <= u64 * Qabs (a / D) + eta64) by apply Hfl.
  assert (F4 : Qabs (p - x * D) <= u64 * Qabs (x * D) + eta64) by apply Hfl.
  assert (F5 : Qabs (r - (p + l)) <= u64 * Qabs (p + l) + eta64) by apply Hfl.
  assert (Ed : Qabs d == d) by (apply Qabs_pos; lra).
  assert (EA : Qabs A == A) by (apply Qabs_pos; lra).
  unfold u64, eta64 in *.
  apply Qabs_Qle_condition in F1. apply Qabs_Qle_condition in F2.
  assert (HD : 0 < D) by lra.
  assert (HD0 : ~ D == 0) by lra.
  assert (E : Qabs (x * D - a) == Qabs (x - a / D) * D).
  { transitivity (Qabs ((x - a / D) * D)); [apply Qabs_wd; field; exact HD0|].
    transitivity (Qabs (x - a / D) * Qabs D); [apply Qabs_Qmult|].
    apply Qmult_comp; [reflexivity|apply Qabs_pos; lra]. }
  assert (E' : Qabs (a / D) * D == Qabs a).
  { transitivity (Qabs (a / D) * Qabs D);
      [apply Qmult_comp; [reflexivity|symmetry; apply Qabs_pos; lra]|].
    transitivity (Qabs (a / D * D)); [symmetry; apply Qabs_Qmult|].
    apply Qabs_wd. field. exact HD0. }
  assert (F3' : Qabs (x - a / D) * D <=
                ((1 # 9007199254740992) * Qabs (a / D) +
                 ltac:(let e := eval unfold eta64 in eta64 in exact e)) * D)
    by (apply Qmult_le_compat_r; [exact F3|lra]).
  assert (G3 : Qabs (x * D - a) <= (1 # 9007199254740992) * Qabs a +
                 ltac:(let e := eval unfold eta64 in eta64 in exact e) * D) by lra.
  apply Qabs_Qle_condition in G3. apply Qabs_Qle_condition in F4.
  apply Qabs_Qle_condition in F5.
  assert (Pa : a <= Qabs a /\ - a <= Qabs a)
    by (split; [apply Qle_Qabs|rewrite <- Qabs_opp; apply Qle_Qabs]).
  assert (Pv : v <= Qabs v /\ - v <= Qabs v)
    by (split; [apply Qle_Qabs|rewrite <- Qabs_opp; apply Qle_Qabs]).
  assert (Ba : Qabs a <= (1 + (1 # 9007199254740992)) * A +
                 ltac:(let e := eval unfold eta64 in eta64 in exact e))
    by (apply Qabs_Qle_condition; lra).
  assert (BxD : Qabs (x * D) <= Qabs a + (1 # 9007199254740992) * Qabs a +
                 ltac:(let e := eval unfold eta64 in eta64 in exact e) * D)
    by (apply Qabs_Qle_condition; lra).
  assert (Bpl : Qabs (p + l) <= Qabs v + 3 * (1 # 9007199254740992) * Qabs a +
                 2 * ltac:(let e := eval unfold eta64 in eta64 in exact e) * D +
                 (1 # 9007199254740992) * A +
                 2 * ltac:(let e := eval unfold eta64 in eta64 in exact e)).
  { apply Qabs_Qle_condition. lra. }
  exists (mkFloatHp l u x), (mkFloatHp l u r).
  split; [|split; [|split; [reflexivity|split; [reflexivity|]]]].
  - unfold f_transform, py_div. cbn [n0 neqb nsub nquot PyNum_rounded f_value f_lower f_upper].
    replace (Qeq_bool v v) with true by (symmetry; apply Qeq_bool_iff; lra).
    replace (Qeq_bool (fl (u - l)) 0) with false
      by (symmetry; apply not_true_iff_false; rewrite Qeq_bool_iff; exact HD0).
    reflexivity.
  - unfold f_inv_transform. cbn [neqb nsub nadd nmul PyNum_rounded f_value f_lower f_upper].
    replace (Qeq_bool x x) with true by (symmetry; apply Qeq_bool_iff; lra).
    reflexivity.
  - cbn [f_value]. apply Qabs_Qle_condition. lra.
Qed.

(** C9 *)
(** For [lower < upper] and a value in [[lower, upper]], [_transform]
    followed by [_inv_transform] keeps the bounds and gives back the value:
    exactly over exact (rational) arithmetic, where [_transform] maps the
    value into [[0, 1]]; and over binary64 arithmetic, as long as no
    operation overflows (every result rounded within [2^-53] relative or
    [2^-1075] absolute error), within
    [2^-53 |value| + 4 * 2^-53 (value - lower) + 2^-1074 (upper - lower)
    + 2^-1073] of the value. [upper - lower >= 2^-1074] holds for any two
    distinct floats. *)
Theorem f_roundtrip_within_tolerance (l u v : Q) :
  l < u -> l <= v -> v <= u ->
  (exists h1 h2,
     f_transform (mkFloatHp l u v) = Ok h1 /\
     0 <= f_value h1 <= 1 /\
     f_inv_transform h1 = Ok h2 /\
     f_value h2 == v /\ f_lower h2 = l /\ f_upper h2 = u) /\
  (forall fl : Q -> Q, binary64_rounding fl -> 2 * eta64 <= u - l ->
   exists h1 h2,
     @f_transform Q (PyNum_rounded fl) (mkFloatHp l u v) = Ok h1 /\
     @f_inv_transform Q (PyNum_rounded fl) h1 = Ok h2 /\
     f_lower h2 = l /\ f_upper h2 = u /\
     Qabs (f_value h2 - v) <=
       u64 * Qabs v + 4 * u64 * (v - l) + 2 * eta64 * (u - l) + 4 * eta64).
Proof.
  intros Hlu Hlv Hvu. split.
  - exact (f_roundtrip_exact l u v Hlu Hlv Hvu).
  - intros fl Hfl Hh. exact (f_roundtrip_rounded fl l u v Hfl Hlu Hlv Hvu Hh).
Qed.

End RoundtripQ.

(** C9 witness: the bounds [[1, 3]] and the value 2; for the rounded
    half, an [fl] that adds a relative error of [2^-53] to every result. *)
Lemma f_roundtrip_within_tolerance_witness :
  (exists h1 h2,
     f_transform (mkFloatHp 1 3 2) = Ok h1 /\
     (0 <= f_value h1 <= 1)%Q /\
     f_inv_transform h1 = Ok h2 /\
     (f_value h2 == 2)%Q /\ f_lower h2 = 1%Q /\ f_upper h2 = 3%Q) /\
  (exists h1 h2,
     @f_transform Q (PyNum_rounded (fun x => x * (1 + u64))%Q) (mkFloatHp 1 3 2) = Ok h1 /\
     @f_inv_transform Q (PyNum_rounded (fun x => x * (1 + u64))%Q) h1 = Ok h2 /\
     f_lower h2 = 1%Q /\ f_upper h2 = 3%Q /\
     (Qabs (f_value h2 - 2) <=
       u64 * Qabs 2 + 4 * u64 * (2 - 1) + 2 * eta64 * (3 - 1) + 4 * eta64)%Q).
Proof.
  destruct (f_roundtrip_within_tolerance 1 3 2) as [H1 H2]; [lra|lra|lra|].
  split; [exact H1|].
  apply H2.
  - intros x.
    assert (E : (Qabs (x * (1 + u64) - x) == Qabs x * u64)%Q).
    { transitivity (Qabs (x * u64)); [apply Qabs_wd; ring|].
      transitivity (Qabs x * Qabs u64)%Q; [apply Qabs_Qmult|].
      apply Qmult_comp; [reflexivity|apply Qabs_pos; unfold u64; lra]. }
    unfold u64, eta64 in *. lra.
  - unfold eta64. lra.
Defined.

(** * Further properties of the code *)

(** ** Membership in a list of strings *)

Section GrammarInit.
Open Scope string_scope.

Lemma str_mem_In (s : string) (l : list string) : str_mem s l = true <-> In s l.
Proof.
  unfold str_mem. rewrite existsb_exists. split.
  - intros [x [Hx E]]. apply String.eqb_eq in E. subst. exact Hx.
  - intros H. exists s. split; [exact H|apply String.eqb_refl].
Qed.

End GrammarInit.

(** ** The depth-constrained sampler restores its depth information *)

Section DepthRestore.
Variable g : list production.
Variable rand : nat -> Q.
Variable dcs : string -> option Z.

Lemma di_set_same (di : dinfo) (k : string) (v : Z) : di_set di k v k = Some v.
Proof. unfold di_set. destruct (string_dec k k); congruence. Qed.

Lemma di_set_other (di : dinfo) (k k' : string) (v : Z) : k' <> k -> di_set di k v k' = di k'.
Proof. intros H. unfold di_set. destruct (string_dec k' k); congruence. Qed.

Lemma dc_children_restored rec
  (Hrec : forall s st t st', rec s st = Ok (t, st') ->
            forall k, ds_info st' k = ds_info st k \/
                      (ds_info st k = None /\ ds_info st' k = Some 0%Z))
  r tree st t st' :
  dc_children rec r tree st = Ok (t, st') ->
  forall k, ds_info st' k = ds_info st k \/ (ds_info st k = None /\ ds_info st' k = Some 0%Z).
Proof.
  revert tree st; induction r as [|[s|s] r IH]; intros tree st E; simpl in E.
  - injection E as _ <-. left. reflexivity.
  - exact (IH _ _ E).
  - destruct (rec s st) as [[t1 st1]|e] eqn:R; simpl in E; [|discriminate].
    intros k. destruct (Hrec _ _ _ _ R k) as [H1|[H1 H2]];
      destruct (IH _ _ E k) as [H3|[H3 H4]]; rewrite ?H1, ?H3 in *; auto; congruence.
Qed.

Lemma dc_sampler_restored (fuel : nat) (symbol : string) (st : dstate) t st' :
  dc_sampler g rand dcs fuel symbol st = Ok (t, st') ->
  forall k, ds_info st' k = ds_info st k \/ (ds_info st k = None /\ ds_info st' k = Some 0%Z).
Proof.
  revert symbol st t st'; induction fuel as [|fuel IH]; intros symbol st t st' E;
    simpl in E; [discriminate|].
  destruct (dc_candidates g dcs (dc_enter (ds_info st) symbol) symbol) as [|c cs];
    [discriminate|].
  destruct (choice _ _ _) as [prod|e]; simpl in E; [|discriminate].
  destruct (dc_children _ _ _ _) as [[t2 st2]|e] eqn:C; simpl in E; [|discriminate].
  assert (Hc := dc_children_restored _ (fun s st0 t0 st1 H => IH s st0 t0 st1 H) _ _ _ _ _ C).
  simpl in Hc.
  assert (Hsym : exists v, dc_enter (ds_info st) symbol symbol = Some v /\
                  v = match ds_info st symbol with Some n => n + 1 | None => 1 end%Z).
  { unfold dc_enter. destruct (ds_info st symbol); eexists; rewrite di_set_same; eauto. }
  destruct Hsym as [v [Hv Hvv]].
  destruct (ds_info st2 symbol) as [n|] eqn:Hn; [|discriminate].
  injection E as _ <-. simpl. intros k.
  destruct (string_dec k symbol) as [->|Hk].
  - rewrite di_set_same. destruct (Hc symbol) as [H1|[H1 _]]; [|congruence].
    rewrite Hn, Hv in H1. injection H1 as ->. subst v.
    destruct (ds_info st symbol); [left; f_equal; lia|right; split; reflexivity].
  - rewrite di_set_other by exact Hk.
    assert (He : dc_enter (ds_info st) symbol k = ds_info st k)
      by (unfold dc_enter; destruct (ds_info st symbol); apply di_set_other; exact Hk).
    rewrite <- He. exact (Hc k).
Qed.

End DepthRestore.

(** A completed call of [_depth_constrained_sampler] leaves every entry of
    [depth_information] as it found it, except that a nonterminal entered
    for the first time is left at 0 instead of missing (which the sampler
    treats alike); the [n] samples of [sampler] therefore each start from
    the same counts. *)
Theorem dc_sampler_restores_depth_information (g : list production) (rand : nat -> Q)
    (depth_constraints : string -> option Z) (fuel : nat) (symbol : string)
    (st : dstate) (t : string) (st' : dstate) :
  dc_sampler g rand depth_constraints fuel symbol st = Ok (t, st') ->
  forall k, ds_info st' k = ds_info st k \/ (ds_info st k = None /\ ds_info st' k = Some 0%Z).
Proof. apply dc_sampler_restored. Qed.

(** ** Without constraints the depth-constrained sampler is [_sampler] *)

Section PlainDepth.
Variable g : list production.
Variable rand : nat -> Q.

Lemma dc_candidates_unconstrained (di : dinfo) (symbol : string) :
  dc_candidates g (fun _ => None) di symbol = productions g symbol.
Proof. reflexivity. Qed.

Lemma choice_none_nil {A} (x : Q) : @choice Q _ A [] None x = Err ZeroDivisionError.
Proof. reflexivity. Qed.

Lemma plain_dc_children recp recd
  (Hrec : forall s pos di,
     match recp s pos, recd s (mkDState di pos) with
     | Ok (t, p), Ok (t', st) => t = t' /\ ds_pos st = p
     | Err _, Err _ => True
     | _, _ => False
     end)
  r tree pos di :
  match plain_children recp r tree pos, dc_children recd r tree (mkDState di pos) with
  | Ok (t, p), Ok (t', st) => t = t' /\ ds_pos st = p
  | Err _, Err _ => True
  | _, _ => False
  end.
Proof.
  revert tree pos di; induction r as [|[s|s] r IH]; intros tree pos di; simpl.
  - split; reflexivity.
  - apply IH.
  - specialize (Hrec s pos di).
    destruct (recp s pos) as [[t p]|e]; destruct (recd s (mkDState di pos)) as [[t' st]|e'];
      simpl; try contradiction; [|exact I].
    destruct Hrec as [<- <-]. destruct st as [di2 p2]. apply IH.
Qed.

Lemma plain_dc_sampler (fuel : nat) (symbol : string) (pos : nat) (di : dinfo) :
  match plain_sampler g rand fuel symbol pos,
        dc_sampler g rand (fun _ => None) fuel symbol (mkDState di pos) with
  | Ok (t, p), Ok (t', st) => t = t' /\ ds_pos st = p
  | Err _, Err _ => True
  | _, _ => False
  end.
Proof.
  revert symbol pos di; induction fuel as [|fuel IH]; intros symbol pos di; [exact I|].
  cbn [plain_sampler dc_sampler]. rewrite dc_candidates_unconstrained. cbn [ds_info ds_pos].
  destruct (productions g symbol) as [|p ps] eqn:Ep; [exact I|].
  destruct (choice (p :: ps) None (rand pos)) as [prod|e]; simpl; [|exact I].
  pose proof (plain_dc_children (fun s p0 => plain_sampler g rand fuel s p0)
                (fun s st => dc_sampler g rand (fun _ => None) fuel s st)
                (fun s p0 di0 => IH s p0 di0) (rhs prod) ("(" ++ symbol)%string (S pos)
                (dc_enter di symbol)) as Hc.
  destruct (dc_children _ _ _ _) as [[t' st2]|e'] eqn:C;
    destruct (plain_children _ _ _ _) as [[t p2]|e]; simpl; try contradiction; [|exact I].
  destruct Hc as [<- Hp].
  assert (Hr := dc_children_restored _
                  (fun s st0 t0 st1 H => dc_sampler_restored g rand (fun _ => None) fuel s st0 t0 st1 H)
                  _ _ _ _ _ C symbol).
  simpl in Hr.
  assert (Hs : exists v, dc_enter di symbol symbol = Some v)
    by (unfold dc_enter; destruct (di symbol); eexists; apply di_set_same).
  destruct Hs as [v Hv].
  destruct (ds_info st2 symbol) as [n|] eqn:Hn; [|destruct Hr as [Hr|[Hr _]]; congruence].
  simpl. split; [reflexivity|exact Hp].
Qed.

End PlainDepth.

(** With no depth constraint at all, [_depth_constrained_sampler] and
    [_sampler] read the same draws and return the same tree, leaving the
    generator at the same position; they fail together (on a nonterminal
    without productions the first raises its [Exception], the second a
    [ZeroDivisionError] in [choice]). *)
Theorem dc_sampler_unconstrained_is_sampler (g : list production) (rand : nat -> Q)
    (fuel : nat) (symbol : string) (pos : nat) (di : dinfo) :
  match plain_sampler g rand fuel symbol pos,
        dc_sampler g rand (fun _ => None) fuel symbol (mkDState di pos) with
  | Ok (t, p), Ok (t', st) => t = t' /\ ds_pos st = p
  | Err _, Err _ => True
  | _, _ => False
  end.
Proof. apply plain_dc_sampler. Qed.

(** ** [generator] enumerates exactly the sentences of bounded depth *)

Section GenerateProofs.
Variable g : list production.

Lemma generate_all_with_spec (one : gsym -> list (list string)) (d : nat)
  (Hone : forall x w, In w (one x) <-> derives g d x w)
  (xs : list gsym) (w : list string) :
  In w (generate_all_with one xs) <-> derives_seq g d xs w.
Proof.
  revert w; induction xs as [|x xs IH]; intros w; simpl.
  - split.
    + intros [<-|[]]. constructor.
    + intros H. inversion H; subst. left. reflexivity.
  - rewrite in_flat_map. split.
    + intros [w1 [H1 H2]]. apply in_map_iff in H2 as [w2 [<- H2]].
      constructor; [apply Hone; exact H1|apply IH; exact H2].
    + intros H. inversion H as [|? ? ? w1 w2 H1 H2]; subst.
      exists w1. split; [apply Hone; exact H1|].
      apply in_map. apply IH. exact H2.
Qed.

Lemma generate_one_spec (d : nat) (x : gsym) (w : list string) :
  In w (generate_one g d x) <-> derives g d x w.
Proof.
  revert x w; induction d as [|d IH]; intros x w.
  - simpl. split; [intros []|intros H; inversion H].
  - destruct x as [t|s]; simpl.
    + split.
      * intros [<-|[]]. constructor.
      * intros H. inversion H; subst. left. reflexivity.
    + rewrite in_flat_map. split.
      * intros [p [Hp Hw]]. apply (derives_nonterminal g d s p w Hp).
        apply (generate_all_with_spec _ d IH). exact Hw.
      * intros H. inversion H as [|? ? p ? Hp Hs]; subst.
        exists p. split; [exact Hp|]. apply (generate_all_with_spec _ d IH). exact Hs.
Qed.

End GenerateProofs.

(** [generator(n, depth)] from the start symbol lists, joined by blanks, the
    terminal sentences with a derivation tree of height at most [depth]
    (a terminal leaf counting 1): with [n = 0] (falsy, so no [islice]) all
    of them, otherwise the first [n]. *)
Theorem generator_spec (g : list production) (start : string) (n depth : nat) (s : string) :
  (In s (generator g start 0 depth) <->
     exists w, derives g depth (Nonterminal start) w /\ s = py_join " " w) /\
  (n <> 0%nat -> generator g start n depth = firstn n (generator g start 0 depth)).
Proof.
  split.
  - unfold generator, generate, generate_all. simpl. rewrite in_map_iff.
    split.
    + intros [w [<- Hw]]. exists w. split; [|reflexivity].
      apply in_flat_map in Hw as [w1 [H1 H2]].
      destruct H2 as [<-|[]]. rewrite app_nil_r. apply generate_one_spec. exact H1.
    + intros [w [Hw ->]]. exists w. split; [reflexivity|].
      apply in_flat_map. exists w. split; [apply generate_one_spec; exact Hw|].
      rewrite app_nil_r. left. reflexivity.
  - intros Hn. unfold generator, generate.
    destruct n as [|n]; [congruence|]. cbn [Nat.eqb]. symmetry. apply firstn_map.
Qed.

(** ** The depth the convergent sampler reports *)

Section ConvergentDepth.
Variable g : list production.
Variable rand : nat -> Q.

Lemma conv_children_depths rec
  (Hrec : forall s st t d n st', rec s st = Ok (t, d, n, st') -> (1 <= d <= n)%nat)
  r tree ds np st tree' ds' np' st' :
  (1 <= np)%nat -> (forall d, In d ds -> d < np)%nat ->
  conv_children rec r tree ds np st = Ok (tree', ds', np', st') ->
  (np <= np')%nat /\ (forall d, In d ds' -> d < np')%nat.
Proof.
  revert tree ds np st; induction r as [|[s|s] r IH]; intros tree ds np st H1 Hds E;
    simpl in E.
  - injection E as _ <- <- _. split; [lia|exact Hds].
  - exact (IH _ _ _ _ H1 Hds E).
  - destruct (rec s st) as [[[[t d] n] st1]|e] eqn:R; simpl in E; [|discriminate].
    destruct (Hrec _ _ _ _ _ _ R) as [Hd1 Hdn].
    assert (Hds' : forall d0, In d0 (ds ++ [d]) -> (d0 < np + n)%nat).
    { intros d0 Hd0. apply in_app_or in Hd0 as [Hd0|[<-|[]]];
        [specialize (Hds _ Hd0); lia|lia]. }
    destruct (IH _ _ (np + n)%nat _ ltac:(lia) Hds' E) as [Hle Hall].
    split; [lia|exact Hall].
Qed.

Lemma conv_sampler_depth_le (fuel : nat) (cf : Q) (symbol : string) (st : cstate) t d n st' :
  conv_sampler g rand fuel cf symbol st = Ok (t, d, n, st') -> (1 <= d <= n)%nat.
Proof.
  revert symbol st t d n st'; induction fuel as [|fuel IH];
    intros symbol st t d n st' E; simpl in E; [discriminate|].
  destruct (mapM _ _) as [probs|e]; simpl in E; [|discriminate].
  destruct (choice _ _ _) as [prod|e]; simpl in E; [|discriminate].
  destruct (conv_children _ _ _ _ _ _) as [[[[t2 ds] np] st2]|e] eqn:C;
    simpl in E; [|discriminate].
  injection E as _ <- <- _.
  assert (Hnil : forall d0, In d0 (@nil nat) -> (d0 < 1)%nat) by (intros d0 []).
  destruct (conv_children_depths _ (fun s st0 t0 d0 n0 st1 H => IH s st0 t0 d0 n0 st1 H)
              _ _ _ 1%nat _ _ _ _ _ (le_n 1) Hnil C) as [Hle Hall].
  destruct ds as [|d0 ds]; [lia|].
  assert (Hm : (list_max (d0 :: ds) <= np - 1)%nat).
  { apply list_max_le. apply Forall_forall. intros x Hx. specialize (Hall x Hx). lia. }
  lia.
Qed.

End ConvergentDepth.

(** A completed call of [_convergent_sampler] returns a depth of at least 1
    and at most the number of productions it used ([num_prod]): the depth
    [max(depths) + 1] never exceeds [1 + sum] of the children's counts. *)
Theorem conv_sampler_depth_bounded (g : list production) (rand : nat -> Q) (fuel : nat)
  (cfactor : Q) (symbol : string) (st : cstate) t d n st' :
  conv_sampler g rand fuel cfactor symbol st = Ok (t, d, n, st') -> (1 <= d <= n)%nat.
Proof. apply conv_sampler_depth_le. Qed.

(** ** The choices [rand_subtree_fixed_head] can make *)

Section FixedHead.

Lemma map_nth_seq_app {A} (d : A) (l pre : list A) :
  map (fun r => nth r (pre ++ l) d) (seq (length pre) (length l)) = l.
Proof.
  revert pre; induction l as [|a l IH]; intros pre; simpl; [reflexivity|].
  rewrite app_nth2 by lia. rewrite Nat.sub_diag. simpl. f_equal.
  specialize (IH (pre ++ [a])). rewrite <- app_assoc in IH. simpl in IH.
  rewrite length_app in IH. simpl in IH. rewrite Nat.add_1_r in IH. exact IH.
Qed.

Lemma fixed_head_choice (idxs : list nat) :
  (if Nat.eqb (length idxs) 0 then Ok [FHFalse]
   else
     rs <- (if Nat.ltb 1 (length idxs) then np_randint_outcomes 1 (length idxs) else Ok [0%nat]) ;;
     mapM (fun r => i <- py_index idxs (Z.of_nat r) ;; Ok (FHIndex i)) rs) =
  Ok (match idxs with
      | [] => [FHFalse]
      | [i] => [FHIndex i]
      | _ :: rest => map FHIndex rest
      end).
Proof.
  destruct idxs as [|i0 [|i1 rest]]; [reflexivity|reflexivity|].
  assert (H : mapM (fun r => i <- py_index (i0 :: i1 :: rest) (Z.of_nat r) ;; Ok (FHIndex i))
                   (seq 1 (length (i1 :: rest))) = Ok (map FHIndex (i1 :: rest))).
  { rewrite (mapM_ok _ (fun r => FHIndex (nth r (i0 :: i1 :: rest) 0%nat))).
    - f_equal. rewrite <- map_map with (f := fun r => nth r (i0 :: i1 :: rest) 0%nat).
      f_equal. exact (map_nth_seq_app 0%nat (i1 :: rest) [i0]).
    - intros r Hr. apply in_seq in Hr.
      rewrite (py_index_nth _ r 0%nat) by (simpl in *; lia). reflexivity. }
  exact H.
Qed.

End FixedHead.

(** Without depth constraints, [rand_subtree_fixed_head] looks at the
    tokens [t] of [tree.split(" ")] with [t[1:] == head_node]: none gives
    [False]; exactly one gives its index; with several, [randint(1, len)]
    picks uniformly among all of them but the first, which is never
    chosen. *)
Theorem rand_subtree_fixed_head_unconstrained (nonterminals : list string) (m : gmode)
  (tree head_node : string) (c : Z) :
  is_depth_constrained m = false ->
  rand_subtree_fixed_head nonterminals m tree head_node c =
  Ok (match fixed_head_indices (py_split_space tree) head_node (fun _ => true) with
      | [] => [FHFalse]
      | [i] => [FHIndex i]
      | _ :: rest => map FHIndex rest
      end).
Proof.
  intros Hm. unfold rand_subtree_fixed_head. rewrite Hm. simpl bind.
  apply fixed_head_choice.
Qed.

(** With depth constraints and a tree whose depth information computes,
    the candidates are further restricted to the tokens whose depth is at
    least [head_node_depth_constraint]; the choice among them is made as
    without constraints (the first candidate is never chosen when there are
    several). *)
Theorem rand_subtree_fixed_head_constrained (nonterminals : list string) (m : gmode)
  (tree head_node : string) (c : Z) (di : list Z) :
  is_depth_constrained m = true ->
  compute_depth_information nonterminals tree = Ok di ->
  rand_subtree_fixed_head nonterminals m tree head_node c =
  Ok (match fixed_head_indices (py_split_space tree) head_node
              (fun i => Z.leb c (nth i di 0%Z)) with
      | [] => [FHFalse]
      | [i] => [FHIndex i]
      | _ :: rest => map FHIndex rest
      end).
Proof.
  intros Hm Hdi. unfold rand_subtree_fixed_head. rewrite Hm, Hdi. simpl bind.
  apply fixed_head_choice.
Qed.

(** ** [SearchSpace.mutate] when a mutation succeeds *)

Section MutateSuccess.
Context {P : Type}.

Lemma smbo_loop_success (hp_mutate : nat -> P -> res P) (hp c : P) (j : nat) :
  (forall k, (k < j)%nat -> exists e, hp_mutate k hp = Err e) ->
  hp_mutate j hp = Ok c ->
  forall n k, (k <= j)%nat -> (j - k < n)%nat ->
  smbo_loop hp_mutate hp n k = (Some c, S j).
Proof.
  intros Hf Hj n. induction n as [|n IH]; intros k Hk Hn; [lia|]. simpl.
  destruct (Nat.eq_dec k j) as [->|Hne].
  - rewrite Hj. reflexivity.
  - destruct (Hf k ltac:(lia)) as [e ->]. apply IH; lia.
Qed.

Lemma py_index_map_nth {A B} (f : A -> B) (l : list A) (r : nat) (d : A) :
  (r < length l)%nat -> py_index (map f l) (Z.of_nat r) = Ok (f (nth r l d)).
Proof.
  intros Hr. rewrite (py_index_nth _ r (f d)) by (rewrite length_map; exact Hr).
  rewrite map_nth. reflexivity.
Qed.

Lemma combine_replace {A B} (l : list (A * B)) (r : nat) (c : B) (d : A * B) :
  (r < length l)%nat ->
  combine (map fst l) (firstn r (map snd l) ++ c :: skipn (S r) (map snd l))%list =
  (firstn r l ++ (fst (nth r l d), c) :: skipn (S r) l)%list.
Proof.
  revert r; induction l as [|[a b] l IH]; intros r Hr; simpl in Hr; [lia|].
  destruct r as [|r]; simpl.
  - rewrite combine_map_fst_snd. reflexivity.
  - rewrite IH by lia. reflexivity.
Qed.

End MutateSuccess.

(** When the calls of the chosen parameter's [mutate()] raise before the
    [j]-th one and the [j]-th returns [c], and [patience] allows more than
    [j] attempts, [SearchSpace.mutate] returns the space with only the
    [r]-th parameter replaced by [c] under its own name, after [j + 1]
    calls. *)
Theorem space_mutate_success {P : Type} (hp_mutate : nat -> P -> res P)
    (space : list (string * P)) (patience : Z) (r j : nat) (c : P) (d : string * P) :
  (r < length space)%nat ->
  (forall k, (k < j)%nat -> exists e, hp_mutate k (snd (nth r space d)) = Err e) ->
  hp_mutate j (snd (nth r space d)) = Ok c ->
  (j < Z.to_nat patience)%nat ->
  space_mutate hp_mutate space patience "smbo"%string r =
  Ok ((firstn r space ++ (fst (nth r space d), c) :: skipn (S r) space)%list, S j).
Proof.
  intros Hr Hf Hj Hp. unfold space_mutate. simpl. unfold smbo_mutation.
  rewrite length_map.
  destruct (length space =? 0)%nat eqn:E0; [apply Nat.eqb_eq in E0; lia|].
  rewrite (py_index_map_nth snd space r d Hr). cbn [bind].
  rewrite (smbo_loop_success hp_mutate _ c j Hf Hj (Z.to_nat patience) 0 ltac:(lia) ltac:(lia)).
  cbn [bind]. rewrite (combine_replace space r c d Hr). reflexivity.
Qed.

(** ** [SearchSpace.crossover] with a missing key, or without crossover *)

Section DictLookup.
Context {P : Type}.

Lemma dict_lookup_missing (key : string) (d : list (string * P)) :
  ~ In key (map fst d) -> dict_lookup key d = Err KeyError.
Proof.
  induction d as [|[k v] d IH]; intros Hn; simpl; [reflexivity|].
  simpl in Hn. destruct (String.eqb_spec k key); [tauto|]. apply IH. tauto.
Qed.

Lemma dict_lookup_in (key : string) (v : P) (d : list (string * P)) :
  NoDup (map fst d) -> In (key, v) d -> dict_lookup key d = Ok v.
Proof.
  induction d as [|[k w] d IH]; intros Hnd Hin; simpl; [destruct Hin|].
  simpl in Hnd. inversion Hnd as [|? ? Hk Hnd']; subst.
  destruct Hin as [Heq|Hin].
  - injection Heq as -> ->. rewrite String.eqb_refl. reflexivity.
  - destruct (String.eqb_spec k key) as [->|]; [|apply IH; assumption].
    exfalso. apply Hk. apply in_map_iff. exists (key, v). split; [reflexivity|exact Hin].
Qed.

End DictLookup.

Section CrossoverMore.
Context {P : Type}.
Variable has_crossover : P -> bool.
Variable hp_crossover : nat -> P -> P -> xresult P.
Variable random : nat -> Q.

Lemma xo_loop_missing (n : nat) (hp : P) (key : string) (config2 : list (string * P))
    (patience : Z) (k : nat) :
  dict_lookup key config2 = Err KeyError ->
  xo_loop hp_crossover n hp key config2 patience k = (None, (patience - Z.of_nat n)%Z, k).
Proof.
  intros Hk. revert patience; induction n as [|n IH]; intros patience; simpl.
  - rewrite Z.sub_0_r. reflexivity.
  - rewrite Hk, IH. f_equal. f_equal. lia.
Qed.

Lemma simple_crossover_loop_exhausted (hps config2 : list (string * P)) (prob : Q)
    (patience : Z) (pos k : nat) (new1 new2 : list P) :
  (patience <= 0)%Z ->
  (forall p, In p hps -> has_crossover (snd p) = true) ->
  (forall j, Qltb (random j) prob = true) ->
  simple_crossover_loop has_crossover hp_crossover random hps config2 prob patience pos k
                        new1 new2 = Ok (new1, new2).
Proof.
  intros Hp Hhas Hlt. revert pos.
  induction hps as [|[key hp] hps IH]; intros pos; simpl; [reflexivity|].
  rewrite (Hhas (key, hp) (or_introl eq_refl) : has_crossover hp = true), Hlt. simpl.
  replace (Z.to_nat patience) with 0%nat by lia. simpl.
  apply IH. intros p Hin. apply Hhas. right. exact Hin.
Qed.

Lemma simple_crossover_loop_not_implemented (hps config2 : list (string * P))
    (vs : list P) (prob : Q) (patience : Z) (pos k : nat) (new1 new2 : list P) :
  (forall k a b, hp_crossover k a b = XRaise NotImplementedError) ->
  (0 < patience)%Z ->
  Forall2 (fun p v => dict_lookup (fst p) config2 = Ok v) hps vs ->
  simple_crossover_loop has_crossover hp_crossover random hps config2 prob patience
                        pos k new1 new2 = Ok (new1 ++ map snd hps, new2 ++ vs)%list.
Proof.
  intros Hni Hp Hvs. revert pos k new1 new2.
  induction Hvs as [|[key hp] v hps vs Hv Hvs IH]; intros pos k new1 new2; simpl.
  - rewrite !app_nil_r. reflexivity.
  - simpl in Hv. destruct (has_crossover hp && Qltb (random pos) prob).
    + destruct (Z.to_nat patience) as [|n] eqn:En; [lia|]. simpl.
      rewrite Hv, Hni, IH, <- !app_assoc. reflexivity.
    + rewrite Hv. simpl. rewrite IH, <- !app_assoc. reflexivity.
Qed.

End CrossoverMore.

(** When the [for] loop of [_simple_crossover] reaches a key that
    [config2] lacks, whatever the earlier parameters left (the children built
    so far, the shared patience, the draws and calls made): a parameter
    without a [crossover] attribute makes [config2.hyperparameters[key]]
    raise [KeyError]; one taking the crossover branch has the [KeyError]
    caught in its [while] loop, which appends nothing for it and leaves the
    patience at [min(patience, 0)]; if every later parameter takes the
    crossover branch as well, none of them is appended either, and the
    loop returns the children built before the key. *)
Theorem simple_crossover_missing_key {P : Type} (has_crossover : P -> bool)
    (hp_crossover : nat -> P -> P -> xresult P) (random : nat -> Q)
    (key : string) (hp : P) (rest config2 : list (string * P)) (prob : Q) (patience : Z)
    (pos k : nat) (new1 new2 : list P) :
  ~ In key (map fst config2) ->
  (has_crossover hp = false ->
   simple_crossover_loop has_crossover hp_crossover random ((key, hp) :: rest) config2 prob
                         patience pos k new1 new2 = Err KeyError) /\
  (has_crossover hp = true -> Qltb (random pos) prob = true ->
   simple_crossover_loop has_crossover hp_crossover random ((key, hp) :: rest) config2 prob
                         patience pos k new1 new2 =
   simple_crossover_loop has_crossover hp_crossover random rest config2 prob
                         (Z.min patience 0) (S pos) k new1 new2) /\
  (has_crossover hp = true ->
   (forall p, In p rest -> has_crossover (snd p) = true) ->
   (forall j, Qltb (random j) prob = true) ->
   simple_crossover_loop has_crossover hp_crossover random ((key, hp) :: rest) config2 prob
                         patience pos k new1 new2 = Ok (new1, new2)).
Proof.
  intros Hk. assert (Hl := dict_lookup_missing key config2 Hk).
  assert (Hmin : (patience - Z.of_nat (Z.to_nat patience) = Z.min patience 0)%Z)
    by (destruct patience as [|q|q]; cbn [Z.to_nat Z.of_nat];
        [reflexivity|rewrite positive_nat_Z; lia|lia]).
  split; [|split].
  - intros Hh. simpl. rewrite Hh. simpl. rewrite Hl. reflexivity.
  - intros Hh Hr. simpl. rewrite Hh, Hr. simpl.
    rewrite (xo_loop_missing hp_crossover _ hp key config2 patience k Hl), Hmin.
    reflexivity.
  - intros Hh Hhas Hlt. simpl. rewrite Hh, Hlt. simpl.
    rewrite (xo_loop_missing hp_crossover _ hp key config2 patience k Hl), Hmin.
    apply (simple_crossover_loop_exhausted has_crossover hp_crossover random);
      [lia|exact Hhas|exact Hlt].
Qed.

(** When every [crossover] call raises [NotImplementedError], the patience
    is positive and [config2] has the same names in the same order,
    [SearchSpace.crossover] returns copies of the two parents: each
    parameter is kept in [child1] and its partner from [config2] in
    [child2], whether or not it took the crossover branch. *)
Theorem space_crossover_not_implemented {P : Type} (has_crossover : P -> bool)
    (hp_crossover : nat -> P -> P -> xresult P) (random : nat -> Q)
    (hps config2 : list (string * P)) (prob : Q) (patience : Z) :
  (forall k a b, hp_crossover k a b = XRaise NotImplementedError) ->
  (0 < patience)%Z ->
  map fst config2 = map fst hps ->
  NoDup (map fst hps) ->
  space_crossover has_crossover hp_crossover random hps config2 prob patience "simple"%string
  = Ok (hps, config2).
Proof.
  intros Hni Hp Hkeys Hnd.
  assert (Hnd2 : NoDup (map fst config2)) by (rewrite Hkeys; exact Hnd).
  assert (Hvs : Forall2 (fun p v => dict_lookup (fst p) config2 = Ok v) hps (map snd config2)).
  { assert (Hc : forall c, incl c config2 -> map fst c = map fst hps -> Forall2 (fun p v => dict_lookup (fst p) config2 = Ok v) hps (map snd c)).
    { clear Hkeys. induction hps as [|[k v] hps IH]; intros c Hinc Hc.
      - destruct c; [constructor|discriminate].
      - destruct c as [|[k' v'] c]; [discriminate|]. simpl in Hc. injection Hc as -> Hc.
        simpl. constructor.
        + simpl. apply dict_lookup_in; [exact Hnd2|]. apply Hinc. left. reflexivity.
        + inversion Hnd; subst. apply IH; [assumption| |exact Hc].
          intros x Hx. apply Hinc. right. exact Hx. }
    apply Hc; [intros x Hx; exact Hx|exact Hkeys]. }
  assert (H := simple_crossover_loop_not_implemented has_crossover hp_crossover random hps config2
              (map snd config2) prob patience 0 0 [] [] Hni Hp Hvs).
  unfold space_crossover, simple_crossover. simpl. rewrite H. simpl.
  rewrite combine_map_fst_snd, <- Hkeys, combine_map_fst_snd. reflexivity.
Qed.

(** ** [CategoricalParameter._transform] then [_inv_transform] over floats *)

Section CatRoundTrip.
Context {V : Type}.
Variable veq : V -> V -> bool.

Lemma py_list_index_found (choices : list V) (v : V) :
  existsb (fun c => veq c v) choices = true ->
  exists i, py_list_index veq choices v = Ok i /\ (i < length choices)%nat /\
            veq (nth i choices v) v = true.
Proof.
  induction choices as [|c cs IH]; intros H; simpl in H |- *; [discriminate|].
  destruct (veq c v) eqn:E.
  - exists 0%nat. split; [reflexivity|split; [lia|exact E]].
  - destruct (IH H) as [i (Hi & Hlt & Hv)]. exists (S i).
    rewrite Hi. split; [reflexivity|split; [lia|exact Hv]].
Qed.

Definition float_index_check (N : nat) : bool :=
  forallb (fun n => forallb (fun i =>
             match (x <- py_div (T:=float) (nof_nat i) (nof_nat n) ;;
                    py_int (nmul x (nof_nat n))) with
             | Ok k => Z.eqb k (Z.of_nat i)
             | Err _ => false
             end) (seq 0 n)) (seq 1 N).

Lemma float_index_round_trip (n i : nat) :
  (1 <= n <= 21)%nat -> (i < n)%nat ->
  (x <- py_div (T:=float) (nof_nat i) (nof_nat n) ;; py_int (nmul x (nof_nat n)))
  = Ok (Z.of_nat i).
Proof.
  intros Hn Hi.
  assert (Hc : float_index_check 21 = true) by (vm_compute; reflexivity).
  unfold float_index_check in Hc. rewrite forallb_forall in Hc.
  specialize (Hc n ltac:(apply in_seq; lia)). rewrite forallb_forall in Hc.
  specialize (Hc i ltac:(apply in_seq; lia)).
  destruct (x <- py_div (nof_nat i) (nof_nat n) ;; py_int (nmul x (nof_nat n))) as [k|e];
    [|discriminate].
  apply Z.eqb_eq in Hc. rewrite Hc. reflexivity.
Qed.

End CatRoundTrip.

(** With Python floats, [_transform] followed by [_inv_transform] gives
    back a choice equal to the value for every parameter with at most 21
    choices; from 22 choices on it can land on a neighbouring choice: with
    [choices = [0, ..., 21]] the value 15 is transformed to [15/22] and
    [int(15/22 * 22)] is 14. *)
Theorem cat_transform_round_trip_float {V : Type} (veq : V -> V -> bool)
    (choices : list V) (v : V) :
  ((1 <= length choices <= 21)%nat ->
   existsb (fun c => veq c v) choices = true ->
   exists x c, cat_transform (T:=float) veq choices v = Ok x /\
               cat_inv_transform choices x = Ok c /\ veq c v = true) /\
  (exists x, cat_transform (T:=float) Z.eqb (map Z.of_nat (seq 0 22)) 15%Z = Ok x /\
             cat_inv_transform (map Z.of_nat (seq 0 22)) x = Ok 14%Z).
Proof.
  split.
  - intros Hn Hv. destruct (py_list_index_found veq choices v Hv) as [i (Hi & Hlt & Hc)].
    assert (Hr := float_index_round_trip (length choices) i Hn Hlt).
    unfold cat_transform, cat_inv_transform. rewrite Hi. cbn [bind].
    destruct (py_div (nof_nat i) (nof_nat (length choices))) as [x|e]; cbn [bind] in Hr |- *;
      [|discriminate].
    exists x, (nth i choices v). split; [reflexivity|].
    rewrite Hr. cbn [bind]. split; [apply py_index_nth; exact Hlt|exact Hc].
  - eexists. split; vm_compute; reflexivity.
Qed.

(** ** [CategoricalParameter.mutate] under ["local_search"] *)

Section CatLocalSearch.
Context {V : Type}.
Variable veq : V -> V -> bool.

Lemma cat_neighbours_loop_first (self : catparam) (randint : nat -> nat) (c : V)
    (post : list V) :
  (2 <= length (choices self))%nat ->
  veq c (value self) = false ->
  forall pre pre0 fuel j,
  Forall (fun p => veq p (value self) = true) pre ->
  (length pre < fuel)%nat ->
  cat_neighbours_loop veq fuel self (pre0 ++ pre ++ c :: post) randint (length pre0) j
  = Ok [mkCat (choices self) c].
Proof.
  intros Hlen Hc pre. induction pre as [|p pre IH]; intros pre0 fuel j Hpre Hf;
    (destruct fuel as [|fuel]; [simpl in Hf; lia|]); simpl.
  - replace (Z.of_nat (length (choices self)) - 1 <? 1)%Z with false by lia.
    rewrite (py_index_nth _ (length pre0) c) by (rewrite length_app; simpl; lia).
    rewrite app_nth2, Nat.sub_diag by lia. simpl. rewrite Hc. reflexivity.
  - inversion Hpre as [|? ? Hp Hpre']; subst.
    replace (Z.of_nat (length (choices self)) - 1 <? 1)%Z with false by lia.
    rewrite (py_index_nth _ (length pre0) c) by (rewrite length_app; simpl; lia).
    rewrite app_nth2, Nat.sub_diag by lia. simpl. rewrite Hp.
    specialize (IH (pre0 ++ [p]) fuel j Hpre' ltac:(simpl in Hf; lia)).
    rewrite <- app_assoc, length_app, Nat.add_1_r in IH. exact IH.
Qed.

End CatLocalSearch.

(** With at least two choices, ["local_search"] walks the shuffled copy of
    the choices and returns a copy of the parameter holding its first entry
    that is not [==] to the value (entries equal to the value are skipped),
    given enough iterations to reach it. *)
Theorem cat_mutate_local_search {V : Type} (veq : V -> V -> bool) (fuel : nat)
    (self : catparam) (pre post : list V) (c : V) (idx : nat) (randint : nat -> nat) :
  (2 <= length (choices self))%nat ->
  Forall (fun p => veq p (value self) = true) pre ->
  veq c (value self) = false -> veq (value self) c = false ->
  (length pre < fuel)%nat ->
  cat_mutate veq fuel self "local_search"%string idx (pre ++ c :: post) randint
  = Ok (mkCat (choices self) c).
Proof.
  intros Hlen Hpre Hc Hc' Hf. unfold cat_mutate. simpl.
  rewrite (cat_neighbours_loop_first veq self randint c post Hlen Hc pre [] fuel 0 Hpre Hf
             : cat_neighbours_loop veq fuel self (pre ++ c :: post) randint 0 0 = _).
  simpl. rewrite Hc'. reflexivity.
Qed.

(** ** [FloatHyperparameter.sample] and ["local_search"] in exact arithmetic *)

Section FloatBoundsQ.

Lemma Qltb_false (a b : Q) : Qltb a b = false -> b <= a.
Proof.
  intros H. apply Qnot_lt_le. intros H'. apply Qltb_iff in H'. congruence.
Qed.

Lemma f_neighbours_loop_in_unit (fuel : nat) (self : floathp) (normal : Q -> nat -> Q)
    (j : nat) ns :
  f_neighbours_loop fuel self normal j = Ok ns ->
  exists nv, 0 <= nv <= 1 /\
    ns = [mkFloatHp (f_lower self) (f_upper self)
                    (nv * (f_upper self - f_lower self) + f_lower self)].
Proof.
  revert j; induction fuel as [|fuel IH]; intros j E; simpl in E; [discriminate|].
  destruct (Qltb (normal (f_value self) j) 0) eqn:E0; simpl in E; [exact (IH _ E)|].
  destruct (Qltb 1 (normal (f_value self) j)) eqn:E1; simpl in E; [exact (IH _ E)|].
  unfold f_inv_transform in E. simpl in E.
  assert (Hr : Qeq_bool (normal (f_value self) j) (normal (f_value self) j) = true)
    by (apply Qeq_bool_iff; lra).
  rewrite Hr in E. simpl in E. injection E as <-.
  apply Qltb_false in E0. apply Qltb_false in E1.
  exists (normal (f_value self) j). split; [lra|reflexivity].
Qed.

End FloatBoundsQ.

(** [sample] keeps the bounds and sets [min(upper, max(lower, u))]: with
    [lower <= upper] (which [__init__] ensures) the value is within the
    bounds, whatever the draw. *)
Theorem f_sample_clamped (l u v x : Q) :
  l <= u ->
  f_lower (f_sample (mkFloatHp l u v) x) = l /\
  f_upper (f_sample (mkFloatHp l u v) x) = u /\
  l <= f_value (f_sample (mkFloatHp l u v) x) <= u.
Proof.
  intros Hlu. unfold f_sample, with_value, py_min, py_max. simpl.
  split; [reflexivity|split; [reflexivity|]].
  destruct (Qltb l x) eqn:Ex.
  - apply Qltb_iff in Ex. destruct (Qltb x u) eqn:Eu.
    + apply Qltb_iff in Eu. lra.
    + apply Qltb_false in Eu. lra.
  - apply Qltb_false in Ex. destruct (Qltb l u); lra.
Qed.

(** In exact arithmetic, a child returned by ["local_search"] keeps the
    bounds [lower < upper] and has its value within them, whatever the
    parent's value: the accepted normal draw lies in [[0, 1]] and is mapped
    back by [value * (upper - lower) + lower]; the parent keeps its bounds. *)
Theorem f_mutate_local_search_in_bounds (fuel : nat) (l u v x : Q)
    (normal : Q -> nat -> Q) (child parent : floathp) :
  l < u ->
  f_mutate fuel (mkFloatHp l u v) "local_search"%string x normal = Ok (child, parent) ->
  f_lower child = l /\ f_upper child = u /\ l <= f_value child <= u /\
  f_lower parent = l /\ f_upper parent = u.
Proof.
  intros Hlu E. unfold f_mutate, f_get_neighbours in E. simpl in E.
  destruct (f_transform (mkFloatHp l u v)) as [s1|e] eqn:Et; simpl in E; [|discriminate].
  assert (Hb1 : f_lower s1 = l /\ f_upper s1 = u).
  { unfold f_transform in Et. simpl in Et.
    destruct (negb (Qeq_bool v v)); [discriminate|].
    destruct (py_div (v - l) (u - l)) as [w|e]; simpl in Et; [|discriminate].
    injection Et as <-. split; reflexivity. }
  destruct (f_neighbours_loop fuel s1 normal 0) as [ns|e] eqn:En; simpl in E; [|discriminate].
  destruct (f_neighbours_loop_in_unit fuel s1 normal 0 ns En) as [nv [Hnv ->]].
  destruct Hb1 as [Hl1 Hu1]. rewrite Hl1, Hu1 in *.
  unfold f_inv_transform in E. simpl in E.
  destruct (negb (Qeq_bool (f_value s1) (f_value s1))); simpl in E; [discriminate|].
  destruct (Qeq_bool _ _); [discriminate|]. injection E as <- <-. simpl.
  rewrite Hl1, Hu1.
  split; [reflexivity|split; [reflexivity|split; [|split; reflexivity]]].
  assert (0 <= nv * (u - l)) by (apply Qmult_le_0_compat; lra).
  assert (nv * (u - l) <= 1 * (u - l)) by (apply Qmult_le_compat_r; lra).
  lra.
Qed.

(** ** [choice] with no options *)

Lemma py_index_nil {A} (k : Z) : py_index (@nil A) k = Err IndexError.
Proof.
  unfold py_index. simpl.
  destruct (Z.ltb k 0) eqn:E1, (Z.leb 0 k) eqn:E2, (Z.leb (- 0) k) eqn:E3; try reflexivity;
    rewrite ?Z.ltb_lt, ?Z.ltb_ge, ?Z.leb_le, ?Z.leb_gt in *; lia.
Qed.

(** [choice([])] raises [ZeroDivisionError] (the float division [1 / 0]
    that builds the uniform probabilities); [choice([], probs)] raises
    [IndexError] (indexing the empty list), whatever the probabilities and
    the draw. *)
Theorem choice_no_options {A : Type} (probs : list float) (x : float) :
  choice (A:=A) [] None x = Err ZeroDivisionError /\
  choice (A:=A) [] (Some probs) x = Err IndexError.
Proof.
  split; [reflexivity|]. unfold choice. cbn [bind]. apply py_index_nil.
Qed.

(** ** What [compute_depth_information] returns *)

Section DepthInformation.

(** Every count in [helper_dict] is at least the number of times its
    nonterminal is on the stack. *)
Definition helper_inv (helper : dinfo) (q : list string) : Prop :=
  forall k v, helper k = Some v -> (Z.of_nat (count_occ string_dec q k) <= v)%Z.

Lemma helper_inv_init (nonterminals : list string) : helper_inv (helper_init nonterminals) [].
Proof.
  intros k v H. unfold helper_init in H. destruct (str_mem k nonterminals); [|discriminate].
  injection H as <-. simpl. lia.
Qed.

Lemma helper_inv_push (helper : dinfo) (q : list string) (nt : string) (v : Z) :
  helper_inv helper q -> helper nt = Some v ->
  helper_inv (di_set helper nt (v + 1)%Z) (nt :: q).
Proof.
  intros Hi Hv k w Hk. unfold di_set in Hk. simpl.
  destruct (string_dec k nt) as [->|Hne].
  - injection Hk as <-. destruct (string_dec nt nt); [|congruence].
    specialize (Hi nt v Hv). lia.
  - destruct (string_dec nt k); [congruence|]. exact (Hi k w Hk).
Qed.

Lemma close_loop_inv (rs : list ascii) (q : list string) (helper : dinfo) q' helper' :
  helper_inv helper q -> close_loop rs q helper = Ok (q', helper') -> helper_inv helper' q'.
Proof.
  revert q helper; induction rs as [|c rs IH]; intros q helper Hi E; simpl in E;
    [discriminate|].
  destruct (Ascii.eqb c ")"%char); [|injection E as <- <-; exact Hi].
  destruct q as [|nt q]; [discriminate|].
  destruct (helper nt) as [v|] eqn:Hv; [|discriminate].
  apply (IH q (di_set helper nt (v - 1)%Z)); [|exact E].
  intros k w Hk. unfold di_set in Hk.
  destruct (string_dec k nt) as [->|Hne].
  - injection Hk as <-. specialize (Hi nt v Hv). simpl in Hi.
    destruct (string_dec nt nt); [|congruence]. lia.
  - specialize (Hi k w Hk). simpl in Hi. destruct (string_dec nt k); [congruence|]. exact Hi.
Qed.

Lemma nth_list_set (l : list Z) (i j : nat) (v d : Z) :
  (i < length l)%nat ->
  nth j (list_set l i v) d = if Nat.eqb j i then v else nth j l d.
Proof.
  intros Hi. unfold list_set.
  destruct (Nat.lt_trichotomy j i) as [Hlt|[->|Hgt]].
  - rewrite app_nth1 by (rewrite length_firstn; lia).
    rewrite nth_firstn. destruct (Nat.eqb_spec j i); [lia|].
    destruct (Nat.ltb_spec j i); [reflexivity|lia].
  - rewrite app_nth2 by (rewrite length_firstn; lia).
    rewrite length_firstn, Nat.min_l, Nat.sub_diag, Nat.eqb_refl by lia. reflexivity.
  - rewrite app_nth2 by (rewrite length_firstn; lia).
    rewrite length_firstn, Nat.min_l by lia.
    destruct (j - i)%nat as [|k] eqn:Ek; [lia|]. cbn [nth].
    rewrite nth_skipn. destruct (Nat.eqb_spec j i); [lia|]. f_equal. lia.
Qed.

Lemma length_list_set (l : list Z) (i : nat) (v : Z) :
  (i < length l)%nat -> length (list_set l i v) = length l.
Proof.
  intros Hi. unfold list_set. rewrite length_app, length_firstn. cbn [length].
  rewrite length_skipn. lia.
Qed.

Lemma cdi_loop_spec (toks : list string) :
  forall i di helper q di',
  helper_inv helper q ->
  (forall j, 0 <= nth j di 0)%Z ->
  (i + length toks <= length di)%nat ->
  cdi_loop toks i di helper q = Ok di' ->
  length di' = length di /\
  (forall j, 0 <= nth j di' 0)%Z /\
  (forall j, (j < i \/ i + length toks <= j)%nat -> nth j di' 0%Z = nth j di 0%Z) /\
  (forall j, (j < length toks)%nat -> starts_with_open (nth j toks EmptyString) = true ->
             (1 <= nth (i + j) di' 0)%Z).
Proof.
  induction toks as [|tok toks IH]; intros i di helper q di' Hi Hnn Hlen E; simpl in E.
  - injection E as <-. split; [reflexivity|split; [exact Hnn|split]].
    + reflexivity.
    + intros j Hj. simpl in Hj. lia.
  - simpl in Hlen. destruct (String.eqb tok "") eqn:Ee.
    + destruct (IH (S i) di helper q di' Hi Hnn ltac:(lia) E) as (H1 & H2 & H3 & H4).
      split; [exact H1|split; [exact H2|split]].
      * intros j Hj. simpl in Hj. apply H3. lia.
      * intros [|j] Hj Ho; simpl in Ho.
        -- apply String.eqb_eq in Ee. subst tok. discriminate.
        -- replace (i + S j)%nat with (S i + j)%nat by lia. apply H4; [simpl in Hj; lia|exact Ho].
    + destruct (starts_with_open tok) eqn:Eo.
      * destruct tok as [|c0 rest]; [discriminate Eo|].
        destruct (helper rest) as [v|] eqn:Hv; [|discriminate].
        assert (Hv0 : (0 <= v)%Z) by (specialize (Hi _ _ Hv); lia).
        assert (Hli : (i < length di)%nat) by lia.
        destruct (IH (S i) (list_set di i (v + 1)%Z) _ _ di'
                    (helper_inv_push helper q _ v Hi Hv)
                    ltac:(intros j; rewrite nth_list_set by exact Hli;
                          destruct (Nat.eqb j i); [lia|apply Hnn])
                    ltac:(rewrite length_list_set by exact Hli; lia) E)
          as (H1 & H2 & H3 & H4).
        rewrite length_list_set in H1 by exact Hli.
        split; [exact H1|split; [exact H2|split]].
        -- intros j Hj. simpl in Hj. rewrite H3 by lia. rewrite nth_list_set by exact Hli.
           destruct (Nat.eqb_spec j i); [lia|reflexivity].
        -- intros [|j] Hj Ho; simpl in Ho.
           ++ rewrite Nat.add_0_r, H3 by lia. rewrite nth_list_set, Nat.eqb_refl by exact Hli.
              lia.
           ++ replace (i + S j)%nat with (S i + j)%nat by lia.
              apply H4; [simpl in Hj; lia|exact Ho].
      * destruct (close_loop (rev (list_ascii_of_string tok)) q helper)
          as [[q' helper']|e] eqn:Ec; simpl in E; [|discriminate].
        destruct (IH (S i) di helper' q' di' (close_loop_inv _ _ _ _ _ Hi Ec) Hnn ltac:(lia) E)
          as (H1 & H2 & H3 & H4).
        split; [exact H1|split; [exact H2|split]].
        -- intros j Hj. simpl in Hj. apply H3. lia.
        -- intros [|j] Hj Ho; simpl in Ho; [congruence|].
           replace (i + S j)%nat with (S i + j)%nat by lia.
           apply H4; [simpl in Hj; lia|exact Ho].
Qed.

End DepthInformation.

(** When [compute_depth_information] returns, its list has one entry per
    token of [tree.split(" ")], no entry is negative, and every token
    opening a subtree ([(X]) gets a depth of at least 1 (the number of
    open [X] subtrees enclosing it, itself included, as counted by
    [helper_dict]). *)
Theorem compute_depth_information_shape (nonterminals : list string) (tree : string)
    (di : list Z) :
  compute_depth_information nonterminals tree = Ok di ->
  length di = length (py_split_space tree) /\
  (forall j, 0 <= nth j di 0)%Z /\
  (forall j, (j < length (py_split_space tree))%nat ->
     starts_with_open (nth j (py_split_space tree) EmptyString) = true ->
     (1 <= nth j di 0)%Z).
Proof.
  unfold compute_depth_information. intros E.
  assert (Hnn : forall j, (0 <= nth j (repeat 0%Z (length (py_split_space tree))) 0)%Z)
    by (intros j; rewrite nth_repeat; lia).
  assert (Hl : (0 + length (py_split_space tree) <=
                length (repeat 0%Z (length (py_split_space tree))))%nat)
    by (rewrite repeat_length; lia).
  destruct (cdi_loop_spec (py_split_space tree) 0 (repeat 0%Z (length (py_split_space tree)))
              (helper_init nonterminals) [] di (helper_inv_init nonterminals) Hnn Hl E)
    as (H1 & H2 & H3 & H4).
  rewrite repeat_length in H1.
  split; [exact H1|split; [exact H2|]].
  intros j Hj Ho. exact (H4 j Hj Ho).
Qed.

(** ** [sampler_maxMin_func] is [_sampler] with extreme draws *)

Section MaxMinProofs.
Variable g : list production.
Variable rand : nat -> Q.
Variable largest : bool.
Hypothesis Hpick : forall s pos, productions g s <> [] ->
  choice (productions g s) None (rand pos) =
  py_index (productions g s) (if largest then (-1)%Z else 0%Z).

Definition mm_rel (r1 : res string) (r2 : res (string * nat)) : Prop :=
  match r1, r2 with
  | Ok t, Ok (t', _) => t = t'
  | Err _, Err _ => True
  | _, _ => False
  end.

Lemma maxmin_plain_children rec1 rec2
  (Hrec : forall s pos, mm_rel (rec1 s) (rec2 s pos)) r tree pos :
  mm_rel (maxmin_children rec1 r tree) (plain_children rec2 r tree pos).
Proof.
  revert tree pos; induction r as [|[s|s] r IH]; intros tree pos; simpl.
  - reflexivity.
  - apply IH.
  - specialize (Hrec s pos). destruct (rec1 s) as [t|e], (rec2 s pos) as [[t' p]|e'];
      simpl in Hrec |- *; try contradiction; [subst t'; apply IH|exact I].
Qed.

Lemma maxmin_plain (fuel : nat) (symbol : string) (pos : nat) :
  mm_rel (sampler_maxMin_func g fuel symbol largest) (plain_sampler g rand fuel symbol pos).
Proof.
  revert symbol pos; induction fuel as [|fuel IH]; intros symbol pos; simpl; [exact I|].
  destruct (productions g symbol) as [|p ps] eqn:Ep.
  - rewrite py_index_nil. simpl. exact I.
  - assert (H := Hpick symbol pos ltac:(rewrite Ep; discriminate)). rewrite Ep in H.
    rewrite H.
    destruct (py_index (p :: ps) _) as [prod|e]; simpl; [|exact I].
    apply maxmin_plain_children. intros s pos'. apply IH.
Qed.

End MaxMinProofs.

Lemma py_index_last {A} (l : list A) (d : A) :
  l <> [] -> py_index l (-1)%Z = Ok (nth (length l - 1) l d).
Proof.
  intros Hne. destruct l as [|a l]; [congruence|]. unfold py_index.
  cbn [length]. replace ((0 <=? -1) && _)%Z with false by reflexivity.
  replace ((- Z.of_nat (S (length l)) <=? -1) && (-1 <? 0))%Z with true
    by (symmetry; apply andb_true_iff; split; [apply Z.leb_le; lia|reflexivity]).
  replace (Z.to_nat (Z.of_nat (S (length l)) + -1)) with (S (length l) - 1)%nat by lia.
  rewrite (nth_error_nth' (a :: l) d) by (simpl; lia). reflexivity.
Qed.

Lemma productions_length (g : list production) (s : string) :
  (length (productions g s) <= length g)%nat.
Proof. unfold productions. apply filter_length_le. Qed.

(** [sampler_maxMin_func] returns the tree [_sampler] returns when every
    draw of [np.random.rand()] selects the first production ([largest=False],
    the draw 0) or the last one ([largest=True], a draw [L / (L + 1)] with
    [L] the number of productions of the grammar); both raise together
    (with different exceptions on a symbol without productions:
    [IndexError] here, [ZeroDivisionError] in [choice]). *)
Theorem sampler_maxMin_func_extreme_draws (g : list production) (fuel : nat)
    (symbol : string) (pos : nat) :
  let L := inject_Z (Z.of_nat (length g)) in
  mm_rel (sampler_maxMin_func g fuel symbol false)
         (plain_sampler g (fun _ => 0) fuel symbol pos) /\
  mm_rel (sampler_maxMin_func g fuel symbol true)
         (plain_sampler g (fun _ => L / (L + 1)) fuel symbol pos).
Proof.
  intros L. split; apply maxmin_plain; intros s pos' Hne.
  - destruct (productions g s) as [|p ps] eqn:Ep; [congruence|].
    rewrite (choice_uniform (p :: ps) 0 0 p ltac:(simpl; lia)).
    + exact (eq_sym (py_index_nth (p :: ps) 0 p ltac:(simpl; lia))).
    + simpl. unfold Qdiv. rewrite Qmult_0_l. apply Qle_refl.
    + apply Qlt_shift_div_l.
      * change 0 with (inject_Z 0). rewrite <- Zlt_Qlt. simpl. lia.
      * rewrite Qmult_0_l. reflexivity.
  - assert (Hn := productions_length g s).
    destruct (productions g s) as [|p ps] eqn:Ep; [congruence|].
    rewrite py_index_last with (d := p) by discriminate.
    cbn [length] in Hn |- *.
    set (n := length ps) in *.
    assert (HL : inject_Z (Z.of_nat (S n)) <= L) by (unfold L; rewrite <- Zle_Qle; lia).
    replace (S n - 1)%nat with n by lia.
    assert (Hs : inject_Z (Z.of_nat (S n)) == inject_Z (Z.of_nat n) + 1)
      by (rewrite Nat2Z.inj_succ, <- Z.add_1_r, inject_Z_plus; reflexivity).
    assert (Ha : 0 <= inject_Z (Z.of_nat n))
      by (change 0 with (inject_Z 0); rewrite <- Zle_Qle; lia).
    set (a := inject_Z (Z.of_nat n)) in *.
    apply (choice_uniform (p :: ps) _ n p ltac:(simpl; lia)); cbn [length]; fold n; fold a.
    + rewrite Hs. apply Qle_shift_div_l; [lra|].
      setoid_replace (a / (a + 1) * (L + 1)) with ((a * (L + 1)) / (a + 1)) by (field; lra).
      apply Qle_shift_div_r; [lra|]. nra.
    + rewrite Hs. setoid_replace ((a + 1) / (a + 1)) with 1 by (field; lra).
      apply Qlt_shift_div_r; lra.
Qed.

(** ** What [compute_depth_information_for_pre] returns *)

Section DepthForPre.

Definition same_keys (d1 d2 : dinfo) : Prop := forall k, d1 k = None <-> d2 k = None.

Lemma close_loop_keys (rs : list ascii) (q : list string) (helper : dinfo) q' helper' :
  close_loop rs q helper = Ok (q', helper') -> same_keys helper helper'.
Proof.
  revert q helper; induction rs as [|c rs IH]; intros q helper E; simpl in E; [discriminate|].
  destruct (Ascii.eqb c ")"%char); [|injection E as <- <-; intros k; tauto].
  destruct q as [|nt q]; [discriminate|].
  destruct (helper nt) as [v|] eqn:Hv; [|discriminate].
  specialize (IH _ _ E). intros k. rewrite <- (IH k). unfold di_set.
  destruct (string_dec k nt) as [->|]; [rewrite Hv; split; discriminate|tauto].
Qed.

Lemma cdip_loop_spec (toks : list string) :
  forall di q d,
  helper_inv di q -> cdip_loop toks di q = Ok d ->
  same_keys di d /\ helper_inv d [].
Proof.
  induction toks as [|tok toks IH]; intros di q d Hi E; simpl in E.
  - injection E as <-. split; [intros k; tauto|].
    intros k v Hk. specialize (Hi k v Hk). simpl. lia.
  - destruct (String.eqb tok "").
    + exact (IH _ _ _ Hi E).
    + destruct (starts_with_open tok) eqn:Eo.
      * destruct tok as [|c0 rest]; [discriminate Eo|].
        destruct (di rest) as [v|] eqn:Hv; [|discriminate].
        destruct (IH _ _ _ (helper_inv_push di q rest v Hi Hv) E) as [Hk Hd].
        split; [|exact Hd]. intros k. rewrite <- (Hk k). unfold di_set.
        destruct (string_dec k rest) as [->|]; [rewrite Hv; split; discriminate|tauto].
      * destruct (close_loop (rev (list_ascii_of_string tok)) q di) as [[q' di']|e] eqn:Ec;
          simpl in E; [|discriminate].
        destruct (IH _ _ _ (close_loop_inv _ _ _ _ _ Hi Ec) E) as [Hk Hd].
        split; [|exact Hd]. intros k. rewrite (close_loop_keys _ _ _ _ _ Ec k). apply Hk.
Qed.

End DepthForPre.

(** When [compute_depth_information_for_pre] returns, its dictionary has
    exactly the grammar's nonterminals as keys and no negative count: a
    count is decremented only when a [)] closes a subtree of that
    nonterminal opened earlier in the string. *)
Theorem compute_depth_information_for_pre_counts (nonterminals : list string)
    (tree : string) (d : dinfo) :
  compute_depth_information_for_pre nonterminals tree = Ok d ->
  (forall k, d k <> None <-> In k nonterminals) /\
  (forall k v, d k = Some v -> (0 <= v)%Z).
Proof.
  unfold compute_depth_information_for_pre. intros E.
  destruct (cdip_loop_spec _ _ _ _ (helper_inv_init nonterminals) E) as [Hk Hd].
  split.
  - intros k. rewrite <- str_mem_In. specialize (Hk k). unfold helper_init in Hk.
    destruct (str_mem k nonterminals); split; intros H.
    + reflexivity.
    + intros Hn. apply Hk in Hn. discriminate.
    + exfalso. apply H. apply Hk. reflexivity.
    + discriminate.
  - intros k v Hv. specialize (Hd k v Hv). simpl in Hd. lia.
Qed.

(** ** [add_constant_hyperparameter] and the key [str(self._num_hps)] *)

Section SpaceAddProofs.
Context {P : Type}.

Lemma od_setitem_new (k : string) (v : P) (d : list (string * P)) :
  ~ In k (map fst d) -> od_setitem k v d = (d ++ [(k, v)])%list.
Proof.
  induction d as [|[k' v'] d IH]; intros Hn; simpl; [reflexivity|].
  simpl in Hn. destruct (String.eqb_spec k' k); [tauto|]. rewrite IH by tauto. reflexivity.
Qed.

Lemma od_setitem_keys (k : string) (v : P) (d : list (string * P)) :
  In k (map fst d) -> map fst (od_setitem k v d) = map fst d.
Proof.
  induction d as [|[k' v'] d IH]; intros Hin; simpl in Hin |- *; [destruct Hin|].
  destruct (String.eqb_spec k' k) as [->|Hne]; simpl; [reflexivity|].
  rewrite IH by (destruct Hin; [congruence|assumption]). reflexivity.
Qed.

Lemma od_setitem_lookup (k : string) (v : P) (d : list (string * P)) :
  dict_lookup k (od_setitem k v d) = Ok v.
Proof.
  induction d as [|[k' v'] d IH]; simpl.
  - rewrite String.eqb_refl. reflexivity.
  - destruct (String.eqb_spec k' k); simpl.
    + rewrite String.eqb_refl. reflexivity.
    + destruct (String.eqb_spec k' k); [congruence|exact IH].
Qed.

Lemma search_space_init_fold (kw d : list (string * P)) :
  NoDup (map fst (d ++ kw)) ->
  fold_left (fun d '(k, v) => od_setitem k v d) kw d = (d ++ kw)%list.
Proof.
  revert d; induction kw as [|[k v] kw IH]; intros d Hnd; simpl; [rewrite app_nil_r; reflexivity|].
  rewrite od_setitem_new.
  - rewrite IH; [rewrite <- app_assoc; reflexivity|]. rewrite <- app_assoc. exact Hnd.
  - intros Hin. rewrite map_app in Hnd. simpl in Hnd.
    apply NoDup_remove_2 in Hnd. apply Hnd. apply in_or_app. left. exact Hin.
Qed.

Lemma search_space_init_hps (kw : list (string * P)) :
  NoDup (map fst kw) -> hyperparameters (search_space_init kw) = kw.
Proof. intros Hnd. exact (search_space_init_fold kw [] Hnd). Qed.

End SpaceAddProofs.

(** Adding a constant to a space built from distinct keyword arguments
    stores it under [str(self._num_hps)]: when no parameter has that name
    it is appended and [_num_hps] stays equal to the number of parameters;
    when one has (e.g. a parameter named ["1"] in a one-parameter space),
    that parameter is overwritten in place, the space keeps its size and
    [_num_hps] exceeds [len(self)] from then on. *)
Theorem add_constant_hyperparameter_key {P A : Type} (constant : A -> P)
    (kwargs : list (string * P)) (v : A) :
  NoDup (map fst kwargs) ->
  let k := py_str_nat (length kwargs) in
  exists sp, add_constant_hyperparameter constant (search_space_init kwargs) (Some v) = Ok sp /\
    dict_lookup k (hyperparameters sp) = Ok (constant v) /\
    (~ In k (map fst kwargs) ->
       hyperparameters sp = (kwargs ++ [(k, constant v)])%list /\
       num_hps sp = length (hyperparameters sp)) /\
    (In k (map fst kwargs) ->
       map fst (hyperparameters sp) = map fst kwargs /\
       num_hps sp = S (length (hyperparameters sp))).
Proof.
  intros Hnd k. eexists. split; [reflexivity|].
  unfold add_hyperparameter. cbn [hyperparameters num_hps search_space_init].
  assert (Hh := search_space_init_hps kwargs Hnd). cbn [search_space_init hyperparameters] in Hh.
  rewrite Hh. fold k.
  split; [apply od_setitem_lookup|split].
  - intros Hn. rewrite od_setitem_new by exact Hn. split; [reflexivity|].
    rewrite length_app. simpl. lia.
  - intros Hin. rewrite od_setitem_keys by exact Hin. split; [reflexivity|].
    rewrite <- (length_map fst (od_setitem k (constant v) kwargs)), od_setitem_keys, length_map
      by exact Hin.
    reflexivity.
Qed.

(** ** What [sampler_restricted] returns *)

Open Scope string_scope.

Section RestrictedProofs.
Variable g : list production.
Variable rand : nat -> Q.
Variable start : string.

Lemma list_set_fill {A} (l : list A) (x : A) (k : nat) :
  list_set (map Some l ++ repeat None (S k)) (length l) (Some x) =
  (map Some (l ++ [x]) ++ repeat None k)%list.
Proof.
  unfold list_set. induction l as [|a l IH]; [reflexivity|].
  cbn [length map app firstn skipn]. cbn [length map app firstn skipn] in IH.
  rewrite IH. reflexivity.
Qed.

Lemma restricted_loop_spec (loop_fuel fuel n : nat) (cfactor : Q) (max_length min_length : nat) :
  forall i dict seqs st seqs' st',
  seqs = (map Some dict ++ repeat None (n - i))%list ->
  length dict = i -> (i <= n)%nat -> NoDup dict ->
  Forall (fun t => min_length <= terminal_count g t <= max_length)%nat dict ->
  restricted_loop g rand start loop_fuel fuel n cfactor max_length min_length i dict seqs st
    = Ok (seqs', st') ->
  exists trees, seqs' = map Some trees /\ length trees = n /\ NoDup trees /\
    Forall (fun t => min_length <= terminal_count g t <= max_length)%nat trees.
Proof.
  induction loop_fuel as [|lf IH]; intros i dict seqs st seqs' st' Hs Hl Hi Hnd Hf E;
    simpl in E; [discriminate|].
  destruct (Nat.ltb_spec i n) as [Hlt|Hge].
  - destruct (conv_sampler g rand fuel cfactor start st) as [[[[t0 d] np] st1]|e];
      simpl in E; [|discriminate].
    destruct (Nat.leb (terminal_count g (t0 ++ ")")) max_length
              && Nat.leb min_length (terminal_count g (t0 ++ ")"))) eqn:Eb.
    + destruct (str_mem (t0 ++ ")") dict) eqn:Em; simpl in E.
      * exact (IH _ _ _ _ _ _ Hs Hl Hi Hnd Hf E).
      * apply andb_true_iff in Eb as [Eb1 Eb2].
        apply Nat.leb_le in Eb1. apply Nat.leb_le in Eb2.
        apply (IH (S i) (app dict [t0 ++ ")"]) (list_set seqs i (Some (t0 ++ ")"))) st1 seqs' st'); [| | | | |exact E].
        -- rewrite Hs. destruct (n - i)%nat as [|k] eqn:Ek; [lia|].
           rewrite <- Hl, list_set_fill. f_equal. f_equal. lia.
        -- rewrite length_app, Hl. simpl. lia.
        -- lia.
        -- apply NoDup_app; [exact Hnd|constructor; [intros []|constructor]|].
           intros x Hx [Hx2|[]]. subst x. apply (proj2 (str_mem_In _ dict)) in Hx. congruence.
        -- apply Forall_app. split; [exact Hf|constructor; [lia|constructor]].
    + exact (IH _ _ _ _ _ _ Hs Hl Hi Hnd Hf E).
  - injection E as <- _. exists dict.
    replace (n - i)%nat with 0%nat in Hs by lia. simpl in Hs. rewrite app_nil_r in Hs.
    split; [exact Hs|split; [lia|split; [exact Hnd|exact Hf]]].
Qed.

End RestrictedProofs.

Close Scope string_scope.

(** When [sampler_restricted] returns, every placeholder has been replaced:
    it returns [n] trees, pairwise distinct, each with a number of
    terminals (occurrences of [t + ")"] over the grammar's terminals [t])
    between [min_length] and [max_length]. *)
Theorem sampler_restricted_distinct_bounded (g : list production) (rand : nat -> Q)
    (start : string) (loop_fuel fuel n max_length : nat) (cfactor : Q) (min_length : nat)
    (st : cstate) (seqs : list (option string)) (st' : cstate) :
  sampler_restricted g rand start loop_fuel fuel n max_length cfactor min_length st
    = Ok (seqs, st') ->
  exists trees, seqs = map Some trees /\ length trees = n /\ NoDup trees /\
    Forall (fun t => min_length <= terminal_count g t <= max_length)%nat trees.
Proof.
  unfold sampler_restricted. intros E.
  apply (restricted_loop_spec g rand start loop_fuel fuel n cfactor max_length min_length
           0 [] (repeat None n) st seqs st'); try reflexivity; try lia; try constructor.
  - rewrite Nat.sub_0_r. reflexivity.
  - exact E.
Qed.

(** * Witnesses of the further properties *)

Open Scope string_scope.

(** Witness: on the example grammar,
    unconstrained, from an empty dictionary. *)
Lemma dc_sampler_restores_depth_information_witness :
  exists t st',
    dc_sampler grammar_arith rand_example (fun _ => None) 20 "S" (mkDState (fun _ => None) 0)
      = Ok (t, st') /\
    forall k, ds_info st' k = ds_info (mkDState (fun _ => None) 0) k \/
              (ds_info (mkDState (fun _ => None) 0) k = None /\ ds_info st' k = Some 0%Z).
Proof.
  destruct (dc_sampler grammar_arith rand_example (fun _ => None) 20 "S"
              (mkDState (fun _ => None) 0)) as [[t st']|e] eqn:E.
  - exists t, st'. split; [reflexivity|].
    exact (dc_sampler_restores_depth_information grammar_arith rand_example (fun _ => None)
             20 "S" (mkDState (fun _ => None) 0) t st' E).
  - vm_compute in E. discriminate.
Defined.

(** Witness: on the example grammar: ["1 + 2"] is a sentence of
    depth at most 4, and [generator(n=2, depth=4)] is the first two. *)
Lemma generator_spec_witness :
  (exists w, derives grammar_arith 4 (Nonterminal "S") w /\ "1 + 2" = py_join " " w) /\
  generator grammar_arith "S" 2 4 = ["1 + 1"; "1 + 2"].
Proof.
  destruct (generator_spec grammar_arith "S" 2 4 "1 + 2") as [H1 H2]. split.
  - apply H1. vm_compute. right. left. reflexivity.
  - rewrite H2 by discriminate. vm_compute. reflexivity.
Defined.

(** Witness: on the example grammar. *)
Lemma conv_sampler_depth_bounded_witness :
  exists t d n st',
    conv_sampler grammar_arith rand_example 20 (1#10) "S" cstate_fresh = Ok (t, d, n, st') /\
    (1 <= d <= n)%nat.
Proof.
  destruct (conv_sampler grammar_arith rand_example 20 (1#10) "S" cstate_fresh)
    as [[[[t d] n] st']|e] eqn:E.
  - exists t, d, n, st'. split; [reflexivity|].
    exact (conv_sampler_depth_bounded grammar_arith rand_example 20 (1#10) "S" cstate_fresh
             t d n st' E).
  - vm_compute in E. discriminate.
Defined.

(** Witness: two [T] subtrees, at tokens 2
    and 5; only 5 can be chosen. *)
Lemma rand_subtree_fixed_head_unconstrained_witness :
  rand_subtree_fixed_head ["S"; "T"] gmode_init "(S (S (T 2)) + (T 1)" "T" 0
  = Ok [FHIndex 5].
Proof.
  rewrite (rand_subtree_fixed_head_unconstrained ["S"; "T"] gmode_init
             "(S (S (T 2)) + (T 1)" "T" 0 eq_refl).
  vm_compute. reflexivity.
Defined.

(** Witness: of the two [S] subtrees only the
    inner one has depth at least 2. *)
Lemma rand_subtree_fixed_head_constrained_witness :
  rand_subtree_fixed_head ["S"; "T"] (set_depth_constraints gmode_init (Some (fun _ => None)))
    "(S (S (T 2)) + (T 1)" "S" 2 = Ok [FHIndex 1].
Proof.
  rewrite (rand_subtree_fixed_head_constrained ["S"; "T"]
             (set_depth_constraints gmode_init (Some (fun _ => None)))
             "(S (S (T 2)) + (T 1)" "S" 2 [1; 2; 1; 0; 0; 1; 0]%Z eq_refl
             ltac:(vm_compute; reflexivity)).
  vm_compute. reflexivity.
Defined.

(** Witness: two failing calls, then a mutation adding 10. *)
Lemma space_mutate_success_witness :
  space_mutate (fun k p => if Nat.ltb k 2 then Err ValueError else Ok (p + 10)%Z)
    [("a", 1%Z); ("b", 2%Z)] 5 "smbo" 1
  = Ok ([("a", 1%Z); ("b", 12%Z)], 3%nat).
Proof.
  apply (space_mutate_success (fun k p => if Nat.ltb k 2 then Err ValueError else Ok (p + 10)%Z)
           [("a", 1%Z); ("b", 2%Z)] 5 1 2 12%Z ("", 0%Z)).
  - simpl. lia.
  - intros k Hk. destruct (Nat.ltb_spec k 2); [eexists; reflexivity|lia].
  - reflexivity.
  - simpl. lia.
Defined.

(** Witness: parameters ["a"], ["b"] and ["c"], all with a [crossover]
    that swaps its arguments, draws 0 and probability 1; [config2] lacks
    ["b"]. ["a"] crosses over, then ["b"] spends the patience and ["c"] is
    left out. *)
Lemma simple_crossover_missing_key_witness :
  space_crossover (fun _ => true) (fun _ a b => XPair b a) (fun _ => 0%Q)
    [("a", 1%Z); ("b", 2%Z); ("c", 3%Z)] [("a", 10%Z); ("c", 30%Z)] 1 50 "simple"
    = Ok ([("a", 10%Z)], [("a", 1%Z)]) /\
  simple_crossover_loop (fun _ => true) (fun _ a b => XPair b a) (fun _ => 0%Q)
    [("b", 2%Z); ("c", 3%Z)] [("a", 10%Z); ("c", 30%Z)] 1 50 1 1 [10%Z] [1%Z]
    = Ok ([10%Z], [1%Z]).
Proof.
  assert (Hk : ~ In "b" (map fst [("a", 10%Z); ("c", 30%Z)]))
    by (simpl; intros [H|[H|[]]]; discriminate).
  split; [reflexivity|].
  apply (simple_crossover_missing_key (fun _ => true) (fun _ a b => XPair b a) (fun _ => 0%Q)
           "b" 2%Z [("c", 3%Z)] [("a", 10%Z); ("c", 30%Z)] 1 50 1 1 [10%Z] [1%Z] Hk).
  - reflexivity.
  - intros p _. reflexivity.
  - intros j. reflexivity.
Defined.

(** Witness: two parents with parameters ["a"]
    and ["b"]. *)
Lemma space_crossover_not_implemented_witness :
  space_crossover (fun _ => true) (fun _ _ _ => XRaise NotImplementedError) (fun _ => 0%Q)
    [("a", 1%Z); ("b", 2%Z)] [("a", 3%Z); ("b", 4%Z)] 1 50 "simple"
  = Ok ([("a", 1%Z); ("b", 2%Z)], [("a", 3%Z); ("b", 4%Z)]).
Proof.
  apply space_crossover_not_implemented.
  - reflexivity.
  - lia.
  - reflexivity.
  - repeat constructor; simpl; intuition discriminate.
Defined.

(** Witness: with three choices. *)
Lemma cat_transform_round_trip_float_witness :
  exists x c, cat_transform (T:=float) Z.eqb [10; 20; 30]%Z 20%Z = Ok x /\
              cat_inv_transform [10; 20; 30]%Z x = Ok c /\ Z.eqb c 20 = true.
Proof.
  destruct (cat_transform_round_trip_float Z.eqb [10; 20; 30]%Z 20%Z) as [H _].
  apply H; [simpl; lia|reflexivity].
Defined.

(** Witness: the shuffled choices [[1, 3, 2]] with
    value 1 give the neighbour 3. *)
Lemma cat_mutate_local_search_witness :
  cat_mutate Z.eqb 5 (mkCat [1; 2; 3]%Z 1%Z) "local_search" 0 [1; 3; 2]%Z (fun _ => 0%nat)
  = Ok (mkCat [1; 2; 3]%Z 3%Z).
Proof.
  apply (cat_mutate_local_search Z.eqb 5 (mkCat [1; 2; 3]%Z 1%Z) [1%Z] [2%Z] 3%Z).
  - simpl. lia.
  - repeat constructor.
  - reflexivity.
  - reflexivity.
  - simpl. lia.
Defined.

(** Witness: with bounds [[0, 1]] and a draw of 3. *)
Lemma f_sample_clamped_witness :
  f_lower (f_sample (mkFloatHp 0 1 (1#2)) 3) = 0 /\
  f_upper (f_sample (mkFloatHp 0 1 (1#2)) 3) = 1 /\
  (0 <= f_value (f_sample (mkFloatHp 0 1 (1#2)) 3) <= 1)%Q.
Proof. apply f_sample_clamped. lra. Defined.

(** Witness: with bounds [[0, 10]], value 5 and
    normal draws [m + 1/10]. *)
Lemma f_mutate_local_search_in_bounds_witness :
  exists child parent,
    f_mutate 10 (mkFloatHp 0 10 5) "local_search" 0 (fun m _ => m + (1#10))%Q
      = Ok (child, parent) /\
    f_lower child = 0 /\ f_upper child = 10 /\ (0 <= f_value child <= 10)%Q /\
    f_lower parent = 0 /\ f_upper parent = 10.
Proof.
  destruct (f_mutate 10 (mkFloatHp 0 10 5) "local_search" 0 (fun m _ => m + (1#10))%Q)
    as [[child parent]|e] eqn:E.
  - exists child, parent. split; [reflexivity|].
    apply (f_mutate_local_search_in_bounds 10 0 10 5 0 (fun m _ => m + (1#10))%Q child parent);
      [lra|exact E].
  - vm_compute in E. discriminate.
Defined.

(** Witness: on a sampled tree of the example
    grammar. *)
Lemma compute_depth_information_shape_witness :
  exists di, compute_depth_information ["S"; "T"] "(S (S (T 2)) + (T 1)" = Ok di /\
    length di = length (py_split_space "(S (S (T 2)) + (T 1)") /\
    (forall j, 0 <= nth j di 0)%Z.
Proof.
  exists [1; 2; 1; 0; 0; 1; 0]%Z.
  assert (E : compute_depth_information ["S"; "T"] "(S (S (T 2)) + (T 1)"
              = Ok [1; 2; 1; 0; 0; 1; 0]%Z) by (vm_compute; reflexivity).
  destruct (compute_depth_information_shape _ _ _ E) as (H1 & H2 & _).
  split; [exact E|split; [exact H1|exact H2]].
Defined.

(** Witness: on the prefix of a tree. *)
Lemma compute_depth_information_for_pre_counts_witness :
  exists d, compute_depth_information_for_pre ["S"; "T"] "(S (S (T 2)) +" = Ok d /\
    (forall k, d k <> None <-> In k ["S"; "T"]) /\
    (forall k v, d k = Some v -> (0 <= v)%Z).
Proof.
  destruct (compute_depth_information_for_pre ["S"; "T"] "(S (S (T 2)) +") as [d|e] eqn:E.
  - exists d. split; [reflexivity|].
    exact (compute_depth_information_for_pre_counts ["S"; "T"] "(S (S (T 2)) +" d E).
  - vm_compute in E. discriminate.
Defined.

(** Witness: a parameter named ["1"] in a
    one-parameter space is overwritten by the constant. *)
Lemma add_constant_hyperparameter_key_witness :
  exists sp,
    add_constant_hyperparameter (fun v : Z => v) (search_space_init [("1", 10%Z)]) (Some 20%Z)
      = Ok sp /\
    dict_lookup "1" (hyperparameters sp) = Ok 20%Z /\
    map fst (hyperparameters sp) = ["1"] /\
    num_hps sp = S (length (hyperparameters sp)).
Proof.
  destruct (add_constant_hyperparameter_key (fun v : Z => v) [("1", 10%Z)] 20%Z
              ltac:(repeat constructor; simpl; tauto)) as (sp & E & Hl & _ & Hin).
  exists sp. split; [exact E|split; [exact Hl|]].
  apply Hin. simpl. left. reflexivity.
Defined.

Close Scope string_scope.

(** Witness: with draws cycling through tenths, three distinct trees with
    one to three terminals each. *)
Lemma sampler_restricted_distinct_bounded_witness :
  match sampler_restricted grammar_arith
          (fun k => inject_Z (Z.of_nat (Nat.modulo (k * 7) 10)) / 10) "S" 200 20 3 3 (1#2) 1
          cstate_fresh with
  | Ok (seqs, _) => exists trees, seqs = map Some trees /\ List.length trees = 3%nat /\
      NoDup trees /\ Forall (fun t => 1 <= terminal_count grammar_arith t <= 3)%nat trees
  | Err _ => False
  end.
Proof.
  destruct (sampler_restricted grammar_arith
          (fun k => inject_Z (Z.of_nat (Nat.modulo (k * 7) 10)) / 10) "S" 200 20 3 3 (1#2) 1
          cstate_fresh) as [[seqs st']|e] eqn:E.
  - exact (sampler_restricted_distinct_bounded grammar_arith _ "S" 200 20 3 3 (1#2) 1
             cstate_fresh seqs st' E).
  - vm_compute in E. discriminate E.
Defined.
